(** * Terminal_video: the ASCII video player of [main.cpp]

    A shallow embedding of [class ASCIIVideoPlayer]: the colour quantiser
    and its caches, the frame-to-text renderer, and the playback loops,
    followed by the properties checked against the written description
    of the player.

    C++ [int] values are modelled as [Z]; [float] and [double] values are
    IEEE-754 binary32 and binary64 numbers built with the parametric
    operations of [SpecFloat] (round to nearest, ties to even); [size_t]
    counters are [Z] with the wrap-around modulo 2^64 written out. *)

From Stdlib Require Import ZArith Lia Bool.
From Stdlib Require Import Floats.SpecFloat.
From Stdlib Require Import Ascii DecimalString DecimalPos DecimalZ.
From Stdlib Require Import QArith Qpower Lqa.
From stdpp Require Import gmap strings list.

Local Open Scope Z_scope.
#[local] Set Warnings "-clear-no-such-hyp".

(* ===================================================================== *)
(** * Machine numbers *)
(* ===================================================================== *)

Definition INT_MIN : Z := - 2 ^ 31.
Definition INT_MAX : Z := 2 ^ 31 - 1.

(** [size_t] arithmetic (64-bit target). *)
Definition wrap64 (z : Z) : Z := z mod 2 ^ 64.

(** [uint32_t] and [uint8_t] conversions. *)
Definition wrap32 (z : Z) : Z := z mod 2 ^ 32.
Definition wrap8 (z : Z) : Z := z mod 2 ^ 8.

(** Truncation toward zero of a finite binary float [m * 2^e]. *)
Definition trunc_finite (s : bool) (m : positive) (e : Z) : Z :=
  let a := match e with
           | Z0 => Zpos m
           | Zpos p => Zpos m * 2 ^ Zpos p
           | Zneg p => Zpos m / 2 ^ Zpos p
           end in
  if s then - a else a.

(** [static_cast<int>(x)] for a floating-point [x].  Inside the range of
    [int] this is truncation toward zero.  Outside of it (and for NaN and
    the infinities) the C++ conversion is undefined; the model returns
    [INT_MIN], the value the x86-64 conversion instructions produce. *)
Definition float_to_int (x : spec_float) : Z :=
  match x with
  | S754_zero _ => 0
  | S754_finite s m e =>
      let t := trunc_finite s m e in
      if (INT_MIN <=? t) && (t <=? INT_MAX) then t else INT_MIN
  | _ => INT_MIN
  end.

(** C++ [double]: binary64. *)
Module B64.
Definition prec : Z := 53.
Definition emax : Z := 1024.
Definition of_int (z : Z) : spec_float := binary_normalize prec emax z 0 false.
Definition mul := SFmul prec emax.
Definition div := SFdiv prec emax.
Definition add := SFadd prec emax.
Definition sub := SFsub prec emax.
Definition ltb := SFltb.
Definition leb := SFleb.
Definition valid := valid_binary prec emax.
(** The decimal literal [num/den] with both parts exactly representable:
    the division is correctly rounded, as the literal is. *)
Definition lit (num den : Z) : spec_float := div (of_int num) (of_int den).
End B64.

(** C++ [float]: binary32. *)
Module B32.
Definition prec : Z := 24.
Definition emax : Z := 128.
Definition of_int (z : Z) : spec_float := binary_normalize prec emax z 0 false.
Definition mul := SFmul prec emax.
Definition div := SFdiv prec emax.
Definition ltb := SFltb.
Definition valid := valid_binary prec emax.
Definition lit (num den : Z) : spec_float := div (of_int num) (of_int den).
End B32.

(** [std::min(a, b)] is [(b < a) ? b : a]; [std::max(a, b)] is
    [(a < b) ? b : a]. *)
Definition std_min (a b : spec_float) : spec_float := if B64.ltb b a then b else a.
Definition std_max (a b : spec_float) : spec_float := if B64.ltb a b then b else a.

(** [std::to_string(int)]. *)
Definition to_string (z : Z) : string := NilZero.string_of_int (Z.to_int z).

(* ===================================================================== *)
(** * Player state: colour mode, caches, statistics *)
(* ===================================================================== *)

Inductive ColorMode := MONO | COLOR_8BIT | COLOR_24BIT.

Definition ColorMode_to_Z (m : ColorMode) : Z :=
  match m with MONO => 0 | COLOR_8BIT => 1 | COLOR_24BIT => 2 end.

(** [static_cast<ColorMode>(n)] for the values the player produces. *)
Definition ColorMode_of_Z (n : Z) : ColorMode :=
  if n =? 0 then MONO else if n =? 1 then COLOR_8BIT else COLOR_24BIT.

Definition is_mono (m : ColorMode) : bool :=
  match m with MONO => true | _ => false end.

Global Instance ColorMode_eq_dec : EqDecision ColorMode.
Proof. solve_decision. Defined.

(** [struct ColorKey]: three [uint8_t] channels and the background flag;
    [operator==] compares the four fields. *)
Record ColorKey := mkColorKey {
  key_r : Z;
  key_g : Z;
  key_b : Z;
  key_background : bool
}.

Global Instance ColorKey_eq_dec : EqDecision ColorKey.
Proof. solve_decision. Defined.

Definition ColorKey_to_tuple (k : ColorKey) : Z * Z * Z * bool :=
  (key_r k, key_g k, key_b k, key_background k).
Definition ColorKey_of_tuple (t : Z * Z * Z * bool) : ColorKey :=
  let '(r, g, b, bg) := t in mkColorKey r g b bg.

Global Instance ColorKey_countable : Countable ColorKey.
Proof.
  apply (inj_countable' ColorKey_to_tuple ColorKey_of_tuple).
  by intros [].
Defined.

(** [struct CacheStats]. *)
Record CacheStats := mkCacheStats {
  hits : Z;
  misses : Z;
  cache_size : Z
}.

(** [CacheStats()]: all members default to 0. *)
Definition CacheStats_init : CacheStats := mkCacheStats 0 0 0.

(** [hit_rate()]. *)
Definition hit_rate (s : CacheStats) : spec_float :=
  if 0 <? wrap64 (hits s + misses s)
  then B64.mul (B64.div (B64.of_int (hits s)) (B64.of_int (wrap64 (hits s + misses s))))
               (B64.of_int 100)
  else B64.of_int 0.

(** The mutable members of [ASCIIVideoPlayer] that the renderer and the
    playback loop read and write. *)
Record Player := mkPlayer {
  current_color_mode : ColorMode;
  color_cache_8bit : gmap ColorKey string;
  color_cache_24bit : gmap ColorKey string;
  rgb_to_8bit_cache : gmap Z Z;
  cache_stats : CacheStats
}.

(** A freshly constructed player. *)
Definition Player_init : Player :=
  mkPlayer MONO ∅ ∅ ∅ CacheStats_init.

Definition with_stats (st : Player) (s : CacheStats) : Player :=
  mkPlayer (current_color_mode st) (color_cache_8bit st) (color_cache_24bit st)
           (rgb_to_8bit_cache st) s.

(** [cache_stats.hits++] and [cache_stats.misses++]. *)
Definition hit (st : Player) : Player :=
  let s := cache_stats st in
  with_stats st (mkCacheStats (wrap64 (hits s + 1)) (misses s) (cache_size s)).
Definition miss (st : Player) : Player :=
  let s := cache_stats st in
  with_stats st (mkCacheStats (hits s) (wrap64 (misses s + 1)) (cache_size s)).

(** [rgb_to_8bit_cache.size() + color_cache_8bit.size() + color_cache_24bit.size()]. *)
Definition total_cache_size (st : Player) : Z :=
  wrap64 (Z.of_nat (size (rgb_to_8bit_cache st)) + Z.of_nat (size (color_cache_8bit st))
          + Z.of_nat (size (color_cache_24bit st))).

(** [cache_stats.cache_size = ... ;] *)
Definition update_cache_size (st : Player) : Player :=
  let s := cache_stats st in
  with_stats st (mkCacheStats (hits s) (misses s) (total_cache_size st)).

(* ===================================================================== *)
(** * Colour quantiser and escape-code cache *)
(* ===================================================================== *)

(** [packRGB]. *)
Definition packRGB (r g b : Z) : Z :=
  Z.lor (Z.lor (wrap32 (Z.shiftl (wrap32 r) 16)) (wrap32 (Z.shiftl (wrap32 g) 8)))
        (wrap32 b).

(** The grayscale branch of [rgbTo8BitColorCached]:
    [static_cast<int>(((r - 8) / 247.0) * 24) + 232] between the two
    thresholds. *)
Definition gray_index (r : Z) : Z :=
  if r <? 8 then 16
  else if 248 <? r then 231
  else float_to_int (B64.mul (B64.div (B64.of_int (r - 8)) (B64.of_int 247))
                             (B64.of_int 24)) + 232.

(** [static_cast<int>((c / 255.0) * 5)]. *)
Definition cube_level (c : Z) : Z :=
  float_to_int (B64.mul (B64.div (B64.of_int c) (B64.of_int 255)) (B64.of_int 5)).

(** The value [rgbTo8BitColorCached] computes on a miss. *)
Definition rgbTo8BitColor (r g b : Z) : Z :=
  if (r =? g) && (g =? b) then gray_index r
  else 16 + 36 * cube_level r + 6 * cube_level g + cube_level b.

(** [rgbTo8BitColorCached]. *)
Definition rgbTo8BitColorCached (r g b : Z) (st : Player) : Z * Player :=
  let rgb_key := packRGB r g b in
  match rgb_to_8bit_cache st !! rgb_key with
  | Some c => (c, hit st)
  | None =>
      let st1 := miss st in
      let color := rgbTo8BitColor r g b in
      let st2 := mkPlayer (current_color_mode st1) (color_cache_8bit st1)
                          (color_cache_24bit st1)
                          (<[rgb_key := color]> (rgb_to_8bit_cache st1))
                          (cache_stats st1) in
      (color, update_cache_size st2)
  end.

Definition ESC : string := String (Ascii.ascii_of_nat 27) EmptyString.

(** [background ? 48 : 38]. *)
Definition sgr_selector (background : bool) : Z := if background then 48 else 38.

(** The escape text built on a miss in 256-colour mode. *)
Definition code_8bit (background : bool) (color : Z) : string :=
  ESC +:+ "[" +:+ to_string (sgr_selector background) +:+ ";5;" +:+ to_string color +:+ "m".

(** The escape text built on a miss in true-colour mode. *)
Definition code_24bit (background : bool) (r g b : Z) : string :=
  ESC +:+ "[" +:+ to_string (sgr_selector background) +:+ ";2;" +:+
  to_string r +:+ ";" +:+ to_string g +:+ ";" +:+ to_string b +:+ "m".

(** [getColorCodeCached]. *)
Definition getColorCodeCached (r g b : Z) (background : bool) (st : Player)
  : string * Player :=
  match current_color_mode st with
  | MONO => (EmptyString, st)
  | COLOR_8BIT =>
      let key := mkColorKey (wrap8 r) (wrap8 g) (wrap8 b) background in
      match color_cache_8bit st !! key with
      | Some code => (code, hit st)
      | None =>
          let st1 := miss st in
          let '(color, st2) := rgbTo8BitColorCached r g b st1 in
          let code := code_8bit background color in
          let st3 := mkPlayer (current_color_mode st2)
                              (<[key := code]> (color_cache_8bit st2))
                              (color_cache_24bit st2) (rgb_to_8bit_cache st2)
                              (cache_stats st2) in
          (code, update_cache_size st3)
      end
  | COLOR_24BIT =>
      let key := mkColorKey (wrap8 r) (wrap8 g) (wrap8 b) background in
      match color_cache_24bit st !! key with
      | Some code => (code, hit st)
      | None =>
          let st1 := miss st in
          let code := code_24bit background r g b in
          let st2 := mkPlayer (current_color_mode st1) (color_cache_8bit st1)
                              (<[key := code]> (color_cache_24bit st1))
                              (rgb_to_8bit_cache st1) (cache_stats st1) in
          (code, update_cache_size st2)
      end
  end.

(** [resetColor]. *)
Definition resetColor (st : Player) : string :=
  if is_mono (current_color_mode st) then EmptyString else ESC +:+ "[0m".

(** [setColorMode]. *)
Definition setColorMode (mode : ColorMode) (st : Player) : Player :=
  if decide (current_color_mode st = mode) then st
  else
    let c8 := if decide (mode = COLOR_8BIT) then color_cache_8bit st else ∅ in
    let rgb := if decide (mode = COLOR_8BIT) then rgb_to_8bit_cache st else ∅ in
    let c24 := if decide (mode = COLOR_24BIT) then color_cache_24bit st else ∅ in
    update_cache_size (mkPlayer mode c8 c24 rgb (cache_stats st)).

(** [clearColorCaches]. *)
Definition clearColorCaches (st : Player) : Player :=
  mkPlayer (current_color_mode st) ∅ ∅ ∅ CacheStats_init.

(* ===================================================================== *)
(** * Rasters and the glyph ramp *)
(* ===================================================================== *)

(** [cv::Vec3b]: one pixel, channels in blue, green, red order. *)
Record Vec3b := mkVec3b {
  ch0 : Z;
  ch1 : Z;
  ch2 : Z
}.

Global Instance Vec3b_eq_dec : EqDecision Vec3b.
Proof. solve_decision. Defined.

(** A [cv::Mat] of pixels is the list of its rows; the loops over
    [y < rows] and [x < cols] visit the rows, and the pixels of a row,
    in order. *)
Abbreviation Mat := (list (list Vec3b)).

Definition mat_rows (m : Mat) : Z := Z.of_nat (length m).
Definition mat_cols (m : Mat) : Z :=
  match m with
  | [] => 0
  | row :: _ => Z.of_nat (length row)
  end.

(** [frame.empty()]. *)
Definition mat_empty (m : Mat) : bool := (mat_rows m =? 0) || (mat_cols m =? 0).

(** [ASCII_CHARS]: 70 glyphs from the lightest to the densest. *)
Definition ASCII_CHARS : string :=
  " .'`^" +:+ String (Ascii.ascii_of_nat 34) EmptyString +:+
  ",:;Il!i><~+_-?][}{1)(|\/tfjrxnuvczXYUJCLQ0OZmwqpdbkhao*#MW&8%B@$".

(** [initializeBrightnessLookup]: the 256-entry table. *)
Definition brightness_to_char_idx : list Z :=
  (fun i => (i * (Z.of_nat (String.length ASCII_CHARS) - 1)) / 255) <$> seqZ 0 256.

(** [ASCII_CHARS[brightness_to_char_idx[b]]] as a one-character text. *)
Definition glyph_at (b : Z) : string :=
  let idx := default 0 (brightness_to_char_idx !! Z.to_nat b) in
  match String.get (Z.to_nat idx) ASCII_CHARS with
  | Some c => String c EmptyString
  | None => EmptyString
  end.

(** [static_cast<int>(0.299 * pixel[2] + 0.587 * pixel[1] + 0.114 * pixel[0])]. *)
Definition brightness (pixel : Vec3b) : Z :=
  float_to_int
    (B64.add (B64.add (B64.mul (B64.lit 299 1000) (B64.of_int (ch2 pixel)))
                      (B64.mul (B64.lit 587 1000) (B64.of_int (ch1 pixel))))
             (B64.mul (B64.lit 114 1000) (B64.of_int (ch0 pixel)))).

Definition NL : string := String (Ascii.ascii_of_nat 10) EmptyString.

(** [struct TerminalSize]. *)
Record TerminalSize := mkTerminalSize {
  width : Z;
  height : Z
}.

(* ===================================================================== *)
(** * Aspect-corrected target size *)
(* ===================================================================== *)

(** [float char_aspect_ratio = 2.2f]. *)
Definition char_aspect_ratio : spec_float := B32.lit 22 10.

(** [static_cast<float>(frame.cols) / frame.rows]. *)
Definition frame_aspect (cols rows : Z) : spec_float :=
  B32.div (B32.of_int cols) (B32.of_int rows).

(** The sizing step shared by [frameToAscii] and [frameToColorBlocks]:
    the pair [(new_width, new_height)] handed to [cv::resize]. *)
Definition new_size (cols rows target_width target_height : Z) : Z * Z :=
  let fa := frame_aspect cols rows in
  if B32.ltb (B32.div (B32.mul (B32.of_int target_width) char_aspect_ratio)
                      (B32.of_int target_height)) fa
  then (target_width,
        float_to_int (B32.div (B32.div (B32.of_int target_width) fa) char_aspect_ratio))
  else (float_to_int (B32.mul (B32.mul (B32.of_int target_height) fa) char_aspect_ratio),
        target_height).

(** Automatic sizing when either requested dimension is 0. *)
Definition target_box (term : TerminalSize) (target_width target_height : Z) : Z * Z :=
  if (target_width =? 0) || (target_height =? 0)
  then (Z.min (width term - 2) 120, Z.min (height term - 3) 40)
  else (target_width, target_height).

(* ===================================================================== *)
(** * Frame-to-text renderer *)
(* ===================================================================== *)

(** The accumulator of the colour loops: the player (caches and
    counters), the text built so far, and the two trackers. *)
Record Scan := mkScan {
  sc_player : Player;
  ascii_frame : string;
  lastColorCode : string;
  lastPixel : Vec3b
}.

(** Body of the inner loop of the colour branch of [frameToAscii]
    (with [background = false] and the glyph as cell) and of
    [frameToColorBlocks] (with [background = true] and a space). *)
Definition scan_pixel (background : bool) (cell : Vec3b → string)
    (s : Scan) (pixel : Vec3b) : Scan :=
  let s1 :=
    if decide (pixel ≠ lastPixel s) then
      let '(colorCode, st') :=
        getColorCodeCached (ch2 pixel) (ch1 pixel) (ch0 pixel) background (sc_player s) in
      if decide (colorCode ≠ lastColorCode s)
      then mkScan st' (ascii_frame s +:+ colorCode) colorCode pixel
      else mkScan st' (ascii_frame s) (lastColorCode s) pixel
    else s in
  mkScan (sc_player s1) (ascii_frame s1 +:+ cell pixel) (lastColorCode s1) (lastPixel s1).

(** Body of the outer loop: one row, then the reset sequence, the
    newline, and [lastColorCode.clear()]. *)
Definition scan_row (background : bool) (cell : Vec3b → string)
    (s : Scan) (row : list Vec3b) : Scan :=
  let s1 := foldl (scan_pixel background cell) s row in
  mkScan (sc_player s1) (ascii_frame s1 +:+ (resetColor (sc_player s1) +:+ NL))
         EmptyString (lastPixel s1).

(** The two trackers as declared before the loops:
    [std::string lastColorCode; cv::Vec3b lastPixel = {255, 255, 255}]. *)
Definition scan_init (st : Player) : Scan :=
  mkScan st EmptyString EmptyString (mkVec3b 255 255 255).

Definition scan_rows (background : bool) (cell : Vec3b → string)
    (st : Player) (resized : Mat) : Scan :=
  foldl (scan_row background cell) (scan_init st) resized.

(** Colour branch of [frameToAscii] on the resized raster. *)
Definition render_color_glyphs (st : Player) (resized : Mat) : string * Player :=
  let s := scan_rows false (fun pixel => glyph_at (brightness pixel)) st resized in
  (ascii_frame s, sc_player s).

(** The loops of [frameToColorBlocks] on the resized raster. *)
Definition render_color_blocks (st : Player) (resized : Mat) : string * Player :=
  let s := scan_rows true (fun _ => " ") st resized in
  (ascii_frame s, sc_player s).

(** Monochrome branch of [frameToAscii] on the equalised gray raster. *)
Definition render_mono (gray : list (list Z)) : string :=
  foldl (fun out row => foldl (fun o v => o +:+ glyph_at v) out row +:+ NL)
        EmptyString gray.

Section Renderer.

(** The raster collaborator: [cv::resize(frame, resized, cv::Size(w, h),
    0, 0, cv::INTER_AREA)], and [cv::cvtColor] to gray followed by
    [cv::equalizeHist]. *)
Variable resize : Mat → Z → Z → Mat.
Variable equalized_gray : Mat → list (list Z).

(** [frameToAscii]; [term] is what [getTerminalSize()] answers. *)
Definition frameToAscii (term : TerminalSize) (frame : Mat)
    (target_width target_height : Z) (st : Player) : string * Player :=
  if mat_empty frame then (EmptyString, st)
  else
    let '(tw, th) := target_box term target_width target_height in
    let '(new_width, new_height) := new_size (mat_cols frame) (mat_rows frame) tw th in
    let resized := resize frame new_width new_height in
    if is_mono (current_color_mode st)
    then (render_mono (equalized_gray resized), st)
    else render_color_glyphs st resized.

(** [frameToColorBlocks]. *)
Definition frameToColorBlocks (term : TerminalSize) (frame : Mat)
    (target_width target_height : Z) (st : Player) : string * Player :=
  if mat_empty frame || is_mono (current_color_mode st)
  then frameToAscii term frame target_width target_height st
  else
    let '(tw, th) := target_box term target_width target_height in
    let '(new_width, new_height) := new_size (mat_cols frame) (mat_rows frame) tw th in
    let resized := resize frame new_width new_height in
    render_color_blocks st resized.

End Renderer.

(* ===================================================================== *)
(** * Playback loops *)
(* ===================================================================== *)

(** The locals of [playVideoAscii] that live across iterations, together
    with the player they act on. *)
Record VideoLoop := mkVideoLoop {
  player : Player;
  base_delay : spec_float;
  speed_multiplier : spec_float;
  frame : Mat;
  paused : bool;
  block_mode : bool;
  fullscreen_mode : bool;
  frame_number : Z;
  total_frames : Z;
  box_width : Z;
  box_height : Z;
  original_width : Z;
  original_height : Z
}.

(** [(fps > 0.0) ? (1000.0 / fps) : 33.33]. *)
Definition base_delay_of (fps : spec_float) : spec_float :=
  if B64.ltb (B64.of_int 0) fps then B64.div (B64.of_int 1000) fps
  else B64.lit 3333 100.

(** The state built by the declarations before [while (true)]. *)
Definition VideoLoop_init (st : Player) (fps : spec_float) (total : Z)
    (w h : Z) : VideoLoop :=
  mkVideoLoop st (base_delay_of fps) (B64.of_int 1) [] false false false 0 total w h w h.

Definition key_in (key : ascii) (cases : list ascii) : bool :=
  existsb (Ascii.eqb key) cases.

Definition with_player (s : VideoLoop) (st : Player) : VideoLoop :=
  mkVideoLoop st (base_delay s) (speed_multiplier s) (frame s) (paused s)
    (block_mode s) (fullscreen_mode s) (frame_number s) (total_frames s)
    (box_width s) (box_height s) (original_width s) (original_height s).

Definition with_speed (s : VideoLoop) (v : spec_float) : VideoLoop :=
  mkVideoLoop (player s) (base_delay s) v (frame s) (paused s)
    (block_mode s) (fullscreen_mode s) (frame_number s) (total_frames s)
    (box_width s) (box_height s) (original_width s) (original_height s).

Definition with_fullscreen (s : VideoLoop) (fs : bool) (w h : Z) : VideoLoop :=
  mkVideoLoop (player s) (base_delay s) (speed_multiplier s) (frame s) (paused s)
    (block_mode s) fs (frame_number s) (total_frames s)
    w h (original_width s) (original_height s).

(** The statements under [case 'f': case 'F':] up to the closing brace of
    the [if]/[else]; the camera loop has the same block. *)
Definition toggle_fullscreen (term : TerminalSize) (s : VideoLoop) : VideoLoop :=
  let fs := negb (fullscreen_mode s) in
  if fs then with_fullscreen s fs (width term - 2) (height term - 4)
  else with_fullscreen s fs (original_width s) (original_height s).

(** [(current_color_mode + 1) % 3] cast back to [ColorMode]. *)
Definition next_color_mode (m : ColorMode) : ColorMode :=
  ColorMode_of_Z (Z.rem (ColorMode_to_Z m + 1) 3).

Definition ESC_KEY : ascii := Ascii.ascii_of_nat 27.

(** The [switch (key)] of [playVideoAscii]; [None] is [goto cleanup].
    The [case 'f'] block has no [break], so control falls into
    [case 'r']. *)
Definition video_key (term : TerminalSize) (key : ascii) (s : VideoLoop)
  : option VideoLoop :=
  if key_in key ["q"; "Q"; ESC_KEY]%char then None
  else if key_in key [" "]%char then
    Some (mkVideoLoop (player s) (base_delay s) (speed_multiplier s) (frame s)
            (negb (paused s)) (block_mode s) (fullscreen_mode s) (frame_number s)
            (total_frames s) (box_width s) (box_height s)
            (original_width s) (original_height s))
  else if key_in key ["+"; "="]%char then
    Some (with_speed s (std_min (B64.mul (speed_multiplier s) (B64.lit 15 10)) (B64.of_int 5)))
  else if key_in key ["-"; "_"]%char then
    Some (with_speed s (std_max (B64.div (speed_multiplier s) (B64.lit 15 10)) (B64.lit 2 10)))
  else if key_in key ["c"; "C"]%char then
    Some (with_player s (setColorMode (next_color_mode (current_color_mode (player s)))
                                      (player s)))
  else if key_in key ["b"; "B"]%char then
    Some (mkVideoLoop (player s) (base_delay s) (speed_multiplier s) (frame s)
            (paused s) (negb (block_mode s)) (fullscreen_mode s) (frame_number s)
            (total_frames s) (box_width s) (box_height s)
            (original_width s) (original_height s))
  else if key_in key ["f"; "F"]%char then
    let s1 := toggle_fullscreen term s in
    Some (with_player s1 (clearColorCaches (player s1)))
  else if key_in key ["r"; "R"]%char then
    Some (with_player s (clearColorCaches (player s)))
  else Some s.

(** [while (read(STDIN_FILENO, &key, 1) > 0) switch (key) ...] over the
    pending keystrokes. *)
Fixpoint video_keys (term : TerminalSize) (keys : list ascii) (s : VideoLoop)
  : option VideoLoop :=
  match keys with
  | [] => Some s
  | key :: rest =>
      match video_key term key s with
      | None => None
      | Some s' => video_keys term rest s'
      end
  end.

(** The [if]/[else if] chain of [playFromCamera] on the state the two
    loops share ([paused] and the speed are not touched there). *)
Definition camera_key (term : TerminalSize) (key : ascii) (s : VideoLoop)
  : option VideoLoop :=
  if key_in key ["q"; "Q"]%char then None
  else if key_in key ["c"; "C"]%char then
    Some (with_player s (setColorMode (next_color_mode (current_color_mode (player s)))
                                      (player s)))
  else if key_in key ["b"; "B"]%char then
    Some (mkVideoLoop (player s) (base_delay s) (speed_multiplier s) (frame s)
            (paused s) (negb (block_mode s)) (fullscreen_mode s) (frame_number s)
            (total_frames s) (box_width s) (box_height s)
            (original_width s) (original_height s))
  else if key_in key ["s"; "S"]%char then Some s
  else if key_in key ["r"; "R"]%char then
    Some (with_player s (clearColorCaches (player s)))
  else if key_in key ["f"; "F"]%char then Some (toggle_fullscreen term s)
  else Some s.

(** What one iteration does to the outside world, in order. *)
Inductive Event :=
  | EvPollInput
  | EvPullFrame
  | EvClearScreen
  | EvShowFrame (text : string)
  | EvShowStatus (is_paused : bool) (number total progress : Z)
  | EvFlush
  | EvSleep (ms : Z).

(** The pacing at the end of an iteration: [elapsed] is the measured
    number of milliseconds since [last_time]. *)
Definition pacing (s : VideoLoop) (elapsed : Z) : list Event :=
  let current_delay := B64.div (base_delay s) (speed_multiplier s) in
  if B64.ltb (B64.of_int elapsed) current_delay
  then [EvSleep (float_to_int (B64.sub current_delay (B64.of_int elapsed)))]
  else [].

(** How an iteration of [while (true)] ends. *)
Inductive Tick :=
  | Stopped (events : list Event)
  | Continue (s : VideoLoop) (source : list Mat) (events : list Event).

Section Playback.

Variable resize : Mat → Z → Z → Mat.
Variable equalized_gray : Mat → list (list Z).

(** From [std::cout << "\033[2J\033[H"] to [std::cout << std::flush]. *)
Definition show (term : TerminalSize) (s : VideoLoop) : VideoLoop * list Event :=
  if mat_empty (frame s) then (s, [EvClearScreen; EvFlush])
  else
    let '(ascii, st') :=
      if block_mode s && negb (is_mono (current_color_mode (player s)))
      then frameToColorBlocks resize equalized_gray term (frame s)
             (box_width s) (box_height s) (player s)
      else frameToAscii resize equalized_gray term (frame s)
             (box_width s) (box_height s) (player s) in
    let progress :=
      if 0 <? total_frames s then Z.quot (frame_number s * 100) (total_frames s) else 0 in
    (with_player s st',
     [EvClearScreen; EvShowFrame ascii;
      EvShowStatus (paused s) (frame_number s) (total_frames s) progress; EvFlush]).

(** One iteration of the loop of [playVideoAscii].  [keys] are the
    keystrokes pending on standard input, [source] the frames the
    capture has still to deliver, [elapsed] the time measured at the
    end of the iteration. *)
Definition video_tick (term : TerminalSize) (keys : list ascii)
    (source : list Mat) (elapsed : Z) (s : VideoLoop) : Tick :=
  match video_keys term keys s with
  | None => Stopped [EvPollInput]
  | Some s1 =>
      let pulled :=
        if paused s1 then Some (s1, source, [])
        else
          match source with
          | [] => None
          | f :: rest =>
              if mat_empty f then None
              else Some (mkVideoLoop (player s1) (base_delay s1) (speed_multiplier s1)
                           f (paused s1) (block_mode s1) (fullscreen_mode s1)
                           (frame_number s1 + 1) (total_frames s1)
                           (box_width s1) (box_height s1)
                           (original_width s1) (original_height s1),
                         rest, [EvPullFrame])
          end in
      match pulled with
      | None => Stopped [EvPollInput; EvPullFrame]
      | Some (s2, source', ev_pull) =>
          let '(s3, ev_show) := show term s2 in
          Continue s3 source' ([EvPollInput] ++ ev_pull ++ ev_show ++ pacing s3 elapsed)
      end
  end.

End Playback.

(* ===================================================================== *)
(** * Key comparison and hashing *)
(* ===================================================================== *)

(** [ColorKey::operator==]. *)
Definition ColorKey_equal (k other : ColorKey) : bool :=
  (key_r k =? key_r other) && (key_g k =? key_g other) && (key_b k =? key_b other)
  && Bool.eqb (key_background k) (key_background other).

(** [ColorKeyHasher::operator()]: the channels are widened to [size_t]
    before they are shifted. *)
Definition ColorKeyHasher (k : ColorKey) : Z :=
  Z.lor (Z.lor (Z.lor (wrap64 (Z.shiftl (wrap64 (key_r k)) 24))
                      (wrap64 (Z.shiftl (wrap64 (key_g k)) 16)))
               (wrap64 (Z.shiftl (wrap64 (key_b k)) 8)))
        (if key_background k then 1 else 0).

(* ===================================================================== *)
(** * The camera loop *)
(* ===================================================================== *)

(** The state built by the declarations before the loop of
    [playFromCamera]; the fields of the video loop that the camera loop
    does not have keep their initial values. *)
Definition CameraLoop_init (st : Player) (w h : Z) : VideoLoop :=
  mkVideoLoop st (B64.of_int 0) (B64.of_int 1) [] false false false 0 0 w h w h.

(** [while (read(STDIN_FILENO, &key, 1) > 0)] over the chain of
    [playFromCamera]. *)
Fixpoint camera_keys (term : TerminalSize) (keys : list ascii) (s : VideoLoop)
  : option VideoLoop :=
  match keys with
  | [] => Some s
  | key :: rest =>
      match camera_key term key s with
      | None => None
      | Some s' => camera_keys term rest s'
      end
  end.

(** What one iteration of the camera loop does to the outside world. *)
Inductive CameraEvent :=
  | CamPollInput
  | CamReadFrame
  | CamClearScreen
  | CamShowFrame (text : string)
  | CamShowStatus (mode : ColorMode) (block fullscreen : bool)
  | CamSleep (ms : Z).

(** [if (elapsed < 33) sleep_for(milliseconds(33 - elapsed))]. *)
Definition camera_pacing (elapsed : Z) : list CameraEvent :=
  if elapsed <? 33 then [CamSleep (33 - elapsed)] else [].

(** How an iteration of the camera loop ends. *)
Inductive CameraTick :=
  | CameraStopped
  | CameraContinue (s : VideoLoop) (events : list CameraEvent).

Section Camera.

Variable resize : Mat → Z → Z → Mat.
Variable equalized_gray : Mat → list (list Z).

(** One iteration of the loop of [playFromCamera].  [read] is what
    [cap.read(frame)] delivers: [None] when it fails.  A failed or empty
    read takes the [continue]: nothing is drawn and the pacing at the end
    of the body is skipped. *)
Definition camera_tick (term : TerminalSize) (keys : list ascii)
    (read : option Mat) (elapsed : Z) (s : VideoLoop) : CameraTick :=
  match camera_keys term keys s with
  | None => CameraStopped
  | Some s1 =>
      match read with
      | None => CameraContinue s1 [CamPollInput; CamReadFrame]
      | Some f =>
          let s2 := mkVideoLoop (player s1) (base_delay s1) (speed_multiplier s1)
                      f (paused s1) (block_mode s1) (fullscreen_mode s1)
                      (frame_number s1) (total_frames s1)
                      (box_width s1) (box_height s1)
                      (original_width s1) (original_height s1) in
          if mat_empty f then CameraContinue s2 [CamPollInput; CamReadFrame]
          else
            let '(ascii, st') :=
              if block_mode s2 && negb (is_mono (current_color_mode (player s2)))
              then frameToColorBlocks resize equalized_gray term f
                     (box_width s2) (box_height s2) (player s2)
              else frameToAscii resize equalized_gray term f
                     (box_width s2) (box_height s2) (player s2) in
            CameraContinue (with_player s2 st')
              ([CamPollInput; CamReadFrame; CamClearScreen; CamShowFrame ascii;
                CamShowStatus (current_color_mode st') (block_mode s2) (fullscreen_mode s2)]
               ++ camera_pacing elapsed)
      end
  end.

End Camera.

(* ===================================================================== *)
(** * Runs of the video loop *)
(* ===================================================================== *)

(** What the outside world supplies to one iteration. *)
Record TickInput := mkTickInput {
  in_term : TerminalSize;
  in_keys : list ascii;
  in_elapsed : Z
}.

(** Where a run of iterations stands when its inputs are used up. *)
Inductive RunEnd :=
  | Finished
  | Running (s : VideoLoop) (source : list Mat).

Section Runs.

Variable resize : Mat → Z → Z → Mat.
Variable equalized_gray : Mat → list (list Z).

(** [while (true)] of [playVideoAscii], one iteration per input, until
    the loop is left or the inputs are used up. *)
Fixpoint video_run (inputs : list TickInput) (source : list Mat) (s : VideoLoop)
  : RunEnd * list Event :=
  match inputs with
  | [] => (Running s source, [])
  | i :: rest =>
      match video_tick resize equalized_gray (in_term i) (in_keys i) source
              (in_elapsed i) s with
      | Stopped events => (Finished, events)
      | Continue s' source' events =>
          let '(r, events') := video_run rest source' s' in
          (r, events ++ events')
      end
  end.

End Runs.

(* ===================================================================== *)
(** * The terminal guard *)
(* ===================================================================== *)

(** [struct termios]: the four flag words and the control characters. *)
Record termios := mkTermios {
  c_iflag : Z;
  c_oflag : Z;
  c_cflag : Z;
  c_lflag : Z;
  c_cc : list Z
}.

(** What [TerminalGuard] reads and writes: the attributes the terminal
    holds ([tcgetattr] / [tcsetattr]), the two members of the player the
    guard refers to, and the texts sent to standard output. *)
Record GuardWorld := mkGuardWorld {
  tty : termios;
  original_termios : termios;
  terminal_modified : bool;
  written : list string
}.

Section TerminalGuard.

(** The constants of [<termios.h>]. *)
Variable ICANON : Z.
Variable ECHO : Z.
Variable VMIN : nat.
Variable VTIME : nat.

(** The constructor. *)
Definition TerminalGuard_enter (w : GuardWorld) : GuardWorld :=
  if terminal_modified w then w
  else
    let original := tty w in
    let new_termios :=
      mkTermios (c_iflag original) (c_oflag original) (c_cflag original)
        (Z.land (c_lflag original) (wrap32 (Z.lnot (Z.lor ICANON ECHO))))
        (<[VTIME := 0]> (<[VMIN := 0]> (c_cc original))) in
    mkGuardWorld new_termios original true
      (written w ++ [ESC +:+ "[?25l" +:+ ESC +:+ "[?1049h"]).

(** The destructor. *)
Definition TerminalGuard_exit (w : GuardWorld) : GuardWorld :=
  if terminal_modified w
  then mkGuardWorld (original_termios w) (original_termios w) false
         (written w ++ [ESC +:+ "[?25h" +:+ ESC +:+ "[?1049l"])
  else w.

End TerminalGuard.

(* ===================================================================== *)
(** * Command line *)
(* ===================================================================== *)

(** [struct PlayerConfig] of [player_config.hpp] and
    [PlayerConfig::fromCommandLine]. *)
Module PlayerConfig.

Inductive ColorMode := MONO | COLOR_8BIT | COLOR_24BIT.

Record t := mk {
  videoPath : string;
  width : Z;
  height : Z;
  autoLoop : bool;
  blockMode : bool;
  colorMode : ColorMode;
  speedMultiplier : spec_float;
  bufferSize : Z
}.

(** [PlayerConfig config;] with the default member initialisers. *)
Definition init : t := mk EmptyString 0 0 false false MONO (B64.of_int 1) 16.

Section Parse.

(** [std::atoi]. *)
Variable atoi : string → Z.

(** The loop [for (int i = 2; i < argc; i++)] on the arguments from
    [argv[2]] on: a width or height flag takes the next argument with
    [argv[++i]] when there is one. *)
Fixpoint flags (args : list string) (config : t) : t :=
  match args with
  | [] => config
  | arg :: rest =>
      if String.eqb arg "--color" || String.eqb arg "-c" then
        flags rest (mk (videoPath config) (width config) (height config)
                       (autoLoop config) (blockMode config) COLOR_8BIT
                       (speedMultiplier config) (bufferSize config))
      else if String.eqb arg "--truecolor" || String.eqb arg "-t" then
        flags rest (mk (videoPath config) (width config) (height config)
                       (autoLoop config) (blockMode config) COLOR_24BIT
                       (speedMultiplier config) (bufferSize config))
      else if String.eqb arg "--width" || String.eqb arg "-w" then
        match rest with
        | value :: rest' =>
            flags rest' (mk (videoPath config) (atoi value) (height config)
                            (autoLoop config) (blockMode config) (colorMode config)
                            (speedMultiplier config) (bufferSize config))
        | [] => config
        end
      else if String.eqb arg "--height" || String.eqb arg "-h" then
        match rest with
        | value :: rest' =>
            flags rest' (mk (videoPath config) (width config) (atoi value)
                            (autoLoop config) (blockMode config) (colorMode config)
                            (speedMultiplier config) (bufferSize config))
        | [] => config
        end
      else if String.eqb arg "--loop" || String.eqb arg "-l" then
        flags rest (mk (videoPath config) (width config) (height config)
                       true (blockMode config) (colorMode config)
                       (speedMultiplier config) (bufferSize config))
      else if String.eqb arg "--block" || String.eqb arg "-b" then
        flags rest (mk (videoPath config) (width config) (height config)
                       (autoLoop config) true (colorMode config)
                       (speedMultiplier config) (bufferSize config))
      else flags rest config
  end.

(** [fromCommandLine(argc, argv)].  The source reads [argv[1]] without
    looking at [argc], so a command line has its first two entries here:
    [argv0] is [argv[0]], [argv1] is [argv[1]] and [args] are the entries
    from [argv[2]] on.  [PlayerConfig config;] is [init], and
    [config.videoPath = argv[1]] overwrites its path. *)
Definition fromCommandLine (argv0 argv1 : string) (args : list string) : t :=
  let config := init in
  flags args (mk argv1 (width config) (height config) (autoLoop config)
                 (blockMode config) (colorMode config) (speedMultiplier config)
                 (bufferSize config)).

End Parse.

End PlayerConfig.

(** What the [argc > 1] branch of [main] hands to [setColorMode] and
    [playVideoAscii]. *)
Record MainArgs := mkMainArgs {
  main_videoPath : string;
  main_width : Z;
  main_height : Z;
  main_color_mode : ColorMode
}.

Section Main.

Variable atoi : string → Z.

(** The argument loop of [main]. *)
Fixpoint main_flags (args : list string) (a : MainArgs) : MainArgs :=
  match args with
  | [] => a
  | arg :: rest =>
      if String.eqb arg "--color" || String.eqb arg "-c" then
        main_flags rest (mkMainArgs (main_videoPath a) (main_width a) (main_height a)
                                    COLOR_8BIT)
      else if String.eqb arg "--truecolor" || String.eqb arg "-t" then
        main_flags rest (mkMainArgs (main_videoPath a) (main_width a) (main_height a)
                                    COLOR_24BIT)
      else if String.eqb arg "--width" || String.eqb arg "-w" then
        match rest with
        | value :: rest' =>
            main_flags rest' (mkMainArgs (main_videoPath a) (atoi value) (main_height a)
                                         (main_color_mode a))
        | [] => a
        end
      else if String.eqb arg "--height" || String.eqb arg "-h" then
        match rest with
        | value :: rest' =>
            main_flags rest' (mkMainArgs (main_videoPath a) (main_width a) (atoi value)
                                         (main_color_mode a))
        | [] => a
        end
      else main_flags rest a
  end.

(** The parsed command line, or [None] when [main] goes interactive. *)
Definition main_args (argv : list string) : option MainArgs :=
  match argv with
  | _ :: path :: args => Some (main_flags args (mkMainArgs path 0 0 MONO))
  | _ => None
  end.

End Main.

(* ===================================================================== *)
(** * Sample collaborators *)
(* ===================================================================== *)

(** The raster collaborator is OpenCV.  To run the loops on concrete
    inputs the examples below use a nearest-neighbour resampler and a
    plain luminance conversion in its place. *)
Definition nearest_resize (m : Mat) (w h : Z) : Mat :=
  (fun y =>
     (fun x =>
        default (mkVec3b 0 0 0)
          (m !! Z.to_nat (y * mat_rows m / h) ≫= fun row =>
             row !! Z.to_nat (x * mat_cols m / w)))
     <$> seqZ 0 w)
  <$> seqZ 0 h.

Definition plain_gray (m : Mat) : list (list Z) :=
  (fun row : list Vec3b => brightness <$> row) <$> m.

(* ===================================================================== *)
(** * Vocabulary of the properties *)
(* ===================================================================== *)

(** ** Channel values and cache consistency *)

(** A channel value as stored in a pixel. *)
Definition is_byte (z : Z) : Prop := 0 ≤ z ≤ 255.

(** A pixel whose three channels are channel values. *)
Definition pixel_ok (p : Vec3b) : Prop :=
  is_byte (ch0 p) ∧ is_byte (ch1 p) ∧ is_byte (ch2 p).

(** The escape code of a colour in a mode, as a miss computes it. *)
Definition color_code (mode : ColorMode) (background : bool) (r g b : Z) : string :=
  match mode with
  | MONO => EmptyString
  | COLOR_8BIT => code_8bit background (rgbTo8BitColor r g b)
  | COLOR_24BIT => code_24bit background r g b
  end.

(** Every cached entry is the value a miss would compute for its key.
    The caches start empty and are only filled by the two cached
    functions, so every state the player reaches satisfies this. *)
Record caches_ok (st : Player) : Prop := mk_caches_ok {
  ok_rgb : ∀ r g b c, is_byte r → is_byte g → is_byte b →
    rgb_to_8bit_cache st !! packRGB r g b = Some c → c = rgbTo8BitColor r g b;
  ok_8bit : ∀ r g b bg code, is_byte r → is_byte g → is_byte b →
    color_cache_8bit st !! mkColorKey r g b bg = Some code →
    code = code_8bit bg (rgbTo8BitColor r g b);
  ok_24bit : ∀ r g b bg code, is_byte r → is_byte g → is_byte b →
    color_cache_24bit st !! mkColorKey r g b bg = Some code →
    code = code_24bit bg r g b
}.

(** ** Texts and sample rasters *)

(** [n] copies of a text, one after the other. *)
Fixpoint text_repeat (n : nat) (t : string) : string :=
  match n with
  | O => EmptyString
  | S n' => t +:+ text_repeat n' t
  end.

(** The value [lastPixel] starts with. *)
Definition white : Vec3b := mkVec3b 255 255 255.

(** The escape code the loops fetch for a pixel (channels are passed in
    red, green, blue order). *)
Definition pixel_code (mode : ColorMode) (background : bool) (p : Vec3b) : string :=
  color_code mode background (ch2 p) (ch1 p) (ch0 p).

(** Pure red, in blue, green, red order. *)
Definition red : Vec3b := mkVec3b 0 0 255.


(** ** Sample players and loops *)

(** A player with empty caches and zeroed counters in a given mode. *)
Definition fresh (mode : ColorMode) : Player := mkPlayer mode ∅ ∅ ∅ CacheStats_init.

(** A player in true-colour mode that has looked up red twice: one miss,
    one hit, one cached entry. *)
Definition player_after_two_lookups : Player :=
  snd (getColorCodeCached 255 0 0 false
         (snd (getColorCodeCached 255 0 0 false (setColorMode COLOR_24BIT Player_init)))).

(** The video loop, before its first iteration, on that player. *)
Definition loop_after_two_lookups : VideoLoop :=
  VideoLoop_init player_after_two_lookups (B64.of_int 30) 100 80 24.


(** A playing video loop in true-colour mode before its first iteration. *)
Definition loop_playing : VideoLoop :=
  VideoLoop_init (setColorMode COLOR_24BIT Player_init) (B64.of_int 30) 100 80 24.

(** ** Passes of lookups *)

(** One escape-code lookup for the colour of a key, keeping the state. *)
Definition lookup_key (st : Player) (k : ColorKey) : Player :=
  snd (getColorCodeCached (key_r k) (key_g k) (key_b k) (key_background k) st).

(** A pass of lookups, in order. *)
Definition lookups (keys : list ColorKey) (st : Player) : Player :=
  foldl lookup_key st keys.

(** A key whose three channels are channel values. *)
Definition key_ok (k : ColorKey) : Prop :=
  is_byte (key_r k) ∧ is_byte (key_g k) ∧ is_byte (key_b k).

(** The packed colour of a key, under which its palette index is cached. *)
Definition key_rgb (k : ColorKey) : Z := packRGB (key_r k) (key_g k) (key_b k).

(** Position of a key among the [2^25] keys with byte channels. *)
Definition key_code (k : ColorKey) : Z :=
  ((key_r k * 256 + key_g k) * 256 + key_b k) * 2 + (if key_background k then 1 else 0).

(** ** Checks by enumeration *)

(** What [gray_index] is checked against, value by value. *)
Definition gray_index_check (v : Z) : bool :=
  let i := gray_index v in
  ((i =? 16) || (i =? 231) || ((232 <=? i) && (i <=? 255)))
  && (if v <? 8 then i =? 16
      else if 248 <? v then i =? 231
      else i =? 232 + (v - 8) * 24 / 247).

(** ** The speed range *)

(** A [double] between 0.2 and 5.0. *)
Definition speed_ok (v : spec_float) : bool :=
  B64.valid v && B64.leb (B64.lit 2 10) v && B64.leb v (B64.of_int 5).

(** The same, on mantissa and exponent. *)
Definition speed_range (m : positive) (e : Z) : Prop :=
  2 ^ 52 ≤ Zpos m < 2 ^ 53 ∧ -55 ≤ e ≤ -50
  ∧ (e = -55 → 7205759403792794 ≤ Zpos m)
  ∧ (e = -50 → Zpos m ≤ 5629499534213120).

(** The four keys that change the speed. *)
Definition speed_keys : list ascii := ["+"; "="; "-"; "_"]%char.

(** ** Characters of a text *)

(** How often a character occurs in a text. *)
Fixpoint count_char (c : ascii) (s : string) : nat :=
  match s with
  | EmptyString => 0
  | String x s' => (if Ascii.eqb x c then 1 else 0) + count_char c s'
  end.

(** The newline character. *)
Definition NL_CHAR : ascii := Ascii.ascii_of_nat 10.

(** A decimal digit. *)
Definition is_digit (c : ascii) : bool :=
  (48 <=? Z.of_nat (nat_of_ascii c)) && (Z.of_nat (nat_of_ascii c) <=? 57).

(** A text made of decimal digits only. *)
Fixpoint all_digits (s : string) : bool :=
  match s with
  | EmptyString => true
  | String c s' => is_digit c && all_digits s'
  end.

(** ** Statistics and modes *)

(** The [cache_size] statistic is the number of entries held. *)
Definition stats_synced (st : Player) : Prop :=
  cache_size (cache_stats st) = total_cache_size st.

(** Only the caches of the current mode hold entries. *)
Definition other_modes_empty (st : Player) : Prop :=
  (current_color_mode st ≠ COLOR_8BIT →
   color_cache_8bit st = ∅ ∧ rgb_to_8bit_cache st = ∅)
  ∧ (current_color_mode st ≠ COLOR_24BIT → color_cache_24bit st = ∅).

(** The three caches, together. *)
Definition caches (st : Player) : gmap ColorKey string * gmap ColorKey string * gmap Z Z :=
  (color_cache_8bit st, color_cache_24bit st, rgb_to_8bit_cache st).

(** The states the player reaches: a new player, changed by lookups of
    pixel colours, mode switches and cache clears. *)
Inductive reachable : Player → Prop :=
  | reach_init : reachable Player_init
  | reach_lookup (st : Player) (r g b : Z) (background : bool) :
      reachable st → is_byte r → is_byte g → is_byte b →
      reachable (snd (getColorCodeCached r g b background st))
  | reach_mode (st : Player) (mode : ColorMode) :
      reachable st → reachable (setColorMode mode st)
  | reach_clear (st : Player) :
      reachable st → reachable (clearColorCaches st).

(** Two accumulators of the colour loops that differ at most in what
    their caches and counters hold. *)
Definition scan_agree (s s' : Scan) : Prop :=
  ascii_frame s = ascii_frame s' ∧ lastColorCode s = lastColorCode s'
  ∧ lastPixel s = lastPixel s'
  ∧ current_color_mode (sc_player s) = current_color_mode (sc_player s')
  ∧ caches_ok (sc_player s) ∧ caches_ok (sc_player s').

(** A resampler that delivers byte pixels when it is given byte pixels. *)
Definition resize_ok (resize : Mat → Z → Z → Mat) : Prop :=
  ∀ m w h, Forall (Forall pixel_ok) m → Forall (Forall pixel_ok) (resize m w h).

(** A loop whose player is a reachable one and whose held frame has
    byte pixels. *)
Definition loop_ok (s : VideoLoop) : Prop :=
  reachable (player s) ∧ Forall (Forall pixel_ok) (frame s).

(** ** The lookups of a rendering *)

(** The pixels for which the colour loops ask for an escape code: those
    that differ from the pixel before them, the first one being compared
    with [last]. *)
Fixpoint looked_up (last : Vec3b) (pixels : list Vec3b) : list Vec3b :=
  match pixels with
  | [] => []
  | p :: rest =>
      if decide (p ≠ last) then p :: looked_up p rest else looked_up last rest
  end.

(** The player after the lookup for one pixel. *)
Definition lookup_pixel (background : bool) (st : Player) (p : Vec3b) : Player :=
  snd (getColorCodeCached (ch2 p) (ch1 p) (ch0 p) background st).

(** The escape code of a pixel is in the cache of the current mode
    (monochrome mode has no codes). *)
Definition code_cached (background : bool) (st : Player) (p : Vec3b) : Prop :=
  let key := mkColorKey (wrap8 (ch2 p)) (wrap8 (ch1 p)) (wrap8 (ch0 p)) background in
  match current_color_mode st with
  | MONO => True
  | COLOR_8BIT => is_Some (color_cache_8bit st !! key)
  | COLOR_24BIT => is_Some (color_cache_24bit st !! key)
  end.

(** ** What an iteration draws *)

(** The text an iteration of the loops writes for the frame [f]: the
    expression [(block_mode && current_color_mode != MONO) ?
    frameToColorBlocks(frame, width, height) : frameToAscii(frame, width,
    height)] with the style, the box and the player of [s]. *)
Definition drawn_text (resize : Mat → Z → Z → Mat)
    (equalized_gray : Mat → list (list Z)) (term : TerminalSize) (s : VideoLoop)
    (f : Mat) : string :=
  fst (if block_mode s && negb (is_mono (current_color_mode (player s)))
       then frameToColorBlocks resize equalized_gray term f
              (box_width s) (box_height s) (player s)
       else frameToAscii resize equalized_gray term f
              (box_width s) (box_height s) (player s)).

(** The size computed for the frame [f] in the box of [s] has both sides
    at least 1; [cv::resize] throws on any other size. *)
Definition frame_fits (term : TerminalSize) (s : VideoLoop) (f : Mat) : Prop :=
  let '(tw, th) := target_box term (box_width s) (box_height s) in
  let '(new_width, new_height) := new_size (mat_cols f) (mat_rows f) tw th in
  1 ≤ new_width ∧ 1 ≤ new_height.

(** ** Values of binary32 numbers *)






(** ** Command-line options *)

(** An option as the user writes it; the flag says whether the short
    spelling is used. *)
Inductive CliOption :=
  | OptColor (short : bool)
  | OptTrueColor (short : bool)
  | OptWidth (short : bool) (value : string)
  | OptHeight (short : bool) (value : string)
  | OptLoop (short : bool)
  | OptBlock (short : bool).

(** The arguments an option contributes to [argv]. *)
Definition option_args (o : CliOption) : list string :=
  match o with
  | OptColor short => [if short then "-c" else "--color"]
  | OptTrueColor short => [if short then "-t" else "--truecolor"]
  | OptWidth short value => [if short then "-w" else "--width"; value]
  | OptHeight short value => [if short then "-h" else "--height"; value]
  | OptLoop short => [if short then "-l" else "--loop"]
  | OptBlock short => [if short then "-b" else "--block"]
  end.

(** What an option means for [main]. *)
Definition main_option (atoi : string → Z) (a : MainArgs) (o : CliOption) : MainArgs :=
  match o with
  | OptColor _ => mkMainArgs (main_videoPath a) (main_width a) (main_height a) COLOR_8BIT
  | OptTrueColor _ => mkMainArgs (main_videoPath a) (main_width a) (main_height a) COLOR_24BIT
  | OptWidth _ value =>
      mkMainArgs (main_videoPath a) (atoi value) (main_height a) (main_color_mode a)
  | OptHeight _ value =>
      mkMainArgs (main_videoPath a) (main_width a) (atoi value) (main_color_mode a)
  | OptLoop _ | OptBlock _ => a
  end.

(** The values of a [PlayerConfig] that [main] computes as well. *)
Definition config_view (c : PlayerConfig.t) : string * Z * Z * Z :=
  (PlayerConfig.videoPath c, PlayerConfig.width c, PlayerConfig.height c,
   match PlayerConfig.colorMode c with
   | PlayerConfig.MONO => 0
   | PlayerConfig.COLOR_8BIT => 1
   | PlayerConfig.COLOR_24BIT => 2
   end).

Definition main_view (a : MainArgs) : string * Z * Z * Z :=
  (main_videoPath a, main_width a, main_height a, ColorMode_to_Z (main_color_mode a)).

(** ** Events of a run *)

(** The frames drawn, in order. *)
Definition shown_frames (events : list Event) : list string :=
  omap (fun e => match e with EvShowFrame text => Some text | _ => None end) events.

(* ===================================================================== *)
(** * Basic facts: texts, ranges, packing *)
(* ===================================================================== *)

Lemma string_app_cons (x : ascii) (a b : string) : String x a +:+ b = String x (a +:+ b).
Proof. reflexivity. Qed.

Lemma string_app_nil_l (a : string) : EmptyString +:+ a = a.
Proof. reflexivity. Qed.

Lemma string_app_assoc (a b c : string) : (a +:+ b) +:+ c = a +:+ (b +:+ c).
Proof.
  induction a as [|x a IH]; [reflexivity |].
  rewrite !string_app_cons. by rewrite IH.
Qed.

Lemma string_app_nil_r (a : string) : a +:+ EmptyString = a.
Proof.
  induction a as [|x a IH]; [reflexivity |].
  rewrite string_app_cons. by rewrite IH.
Qed.

Lemma forallb_seqZ (P : Z → bool) (n : Z) :
  forallb P (seqZ 0 n) = true → ∀ v, 0 ≤ v < n → P v = true.
Proof.
  intros H v Hv. rewrite forallb_forall in H. apply H.
  apply list_elem_of_In, elem_of_seqZ. lia.
Qed.

Lemma wrap8_byte (z : Z) : is_byte z → wrap8 z = z.
Proof. intros [? ?]. unfold wrap8. apply Z.mod_small. lia. Qed.

Lemma lor_low_byte (a b : Z) : 0 ≤ b < 256 → Z.lor (a * 256) b = a * 256 + b.
Proof.
  intros Hb.
  assert (Hland : Z.land (a * 256) b = 0).
  { apply Z.bits_inj'. intros n Hn.
    rewrite Z.land_spec, Z.bits_0.
    destruct (Z.lt_ge_cases n 8) as [Hlt | Hge].
    - change (a * 256) with (a * 2 ^ 8).
      rewrite Z.mul_pow2_bits_low by lia. reflexivity.
    - destruct (Z.eq_dec b 0) as [-> | Hnz].
      + rewrite Z.bits_0. apply andb_false_r.
      + rewrite (Z.bits_above_log2 b n); [apply andb_false_r | lia |].
        assert (Z.log2 b < 8) by (apply Z.log2_lt_pow2; lia). lia. }
  rewrite <- Z.lxor_lor by exact Hland.
  symmetry. apply Z.add_nocarry_lxor. exact Hland.
Qed.

Lemma packRGB_bytes (r g b : Z) :
  is_byte r → is_byte g → is_byte b → packRGB r g b = r * 65536 + g * 256 + b.
Proof.
  unfold is_byte, packRGB, wrap32. intros Hr Hg Hb.
  rewrite (Z.mod_small r), (Z.mod_small g), (Z.mod_small b) by lia.
  rewrite !Z.shiftl_mul_pow2 by lia.
  rewrite (Z.mod_small (r * 2 ^ 16)), (Z.mod_small (g * 2 ^ 8)) by lia.
  replace (r * 2 ^ 16) with ((r * 256) * 256) by lia.
  change (2 ^ 8) with 256.
  replace (Z.lor (r * 256 * 256) (g * 256)) with ((r * 256 + g) * 256).
  - rewrite lor_low_byte by lia. lia.
  - rewrite <- (lor_low_byte r g) by lia.
    change 256 with (2 ^ 8). rewrite <- !Z.shiftl_mul_pow2 by lia.
    apply Z.shiftl_lor.
Qed.

Lemma packRGB_inj (r g b r' g' b' : Z) :
  is_byte r → is_byte g → is_byte b → is_byte r' → is_byte g' → is_byte b' →
  packRGB r g b = packRGB r' g' b' → r = r' ∧ g = g' ∧ b = b'.
Proof.
  intros Hr Hg Hb Hr' Hg' Hb'. rewrite !packRGB_bytes by assumption.
  unfold is_byte in *. lia.
Qed.

(* ===================================================================== *)
(** * Cache consistency *)
(* ===================================================================== *)

Lemma caches_ok_empty (m : ColorMode) (s : CacheStats) : caches_ok (mkPlayer m ∅ ∅ ∅ s).
Proof. split; simpl; intros; simplify_map_eq. Qed.

Lemma caches_ok_clear (st : Player) : caches_ok (clearColorCaches st).
Proof. apply caches_ok_empty. Qed.

Lemma caches_ok_stats (st : Player) (s : CacheStats) :
  caches_ok st → caches_ok (with_stats st s).
Proof. intros [H1 H2 H3]. split; simpl; eauto. Qed.

Lemma caches_ok_setColorMode (mode : ColorMode) (st : Player) :
  caches_ok st → caches_ok (setColorMode mode st).
Proof.
  intros Hok. unfold setColorMode. case_decide; [exact Hok |].
  destruct Hok as [H1 H2 H3].
  apply caches_ok_stats. split; simpl; intros r g b;
    repeat case_decide; intros; simplify_map_eq; eauto.
Qed.

Lemma rgbTo8BitColorCached_value (r g b : Z) (st : Player) :
  caches_ok st → is_byte r → is_byte g → is_byte b →
  fst (rgbTo8BitColorCached r g b st) = rgbTo8BitColor r g b.
Proof.
  intros Hok Hr Hg Hb. unfold rgbTo8BitColorCached.
  destruct (rgb_to_8bit_cache st !! packRGB r g b) as [c|] eqn:E; simpl; [| reflexivity].
  exact (ok_rgb st Hok r g b c Hr Hg Hb E).
Qed.

Lemma rgbTo8BitColorCached_ok (r g b : Z) (st : Player) :
  caches_ok st → is_byte r → is_byte g → is_byte b →
  caches_ok (snd (rgbTo8BitColorCached r g b st)).
Proof.
  intros Hok Hr Hg Hb. unfold rgbTo8BitColorCached.
  destruct (rgb_to_8bit_cache st !! packRGB r g b) as [c|] eqn:E; simpl.
  - by apply caches_ok_stats.
  - destruct Hok as [H1 H2 H3]. split; simpl; eauto.
    intros r' g' b' c Hr' Hg' Hb' Hl.
    destruct (decide (packRGB r g b = packRGB r' g' b')) as [Heq | Hne].
    + rewrite Heq, lookup_insert_eq in Hl.
      apply packRGB_inj in Heq as (-> & -> & ->); try assumption. congruence.
    + rewrite lookup_insert_ne in Hl by exact Hne. eauto.
Qed.

Lemma rgbTo8BitColorCached_mode (r g b : Z) (st : Player) :
  current_color_mode (snd (rgbTo8BitColorCached r g b st)) = current_color_mode st.
Proof.
  unfold rgbTo8BitColorCached.
  destruct (rgb_to_8bit_cache st !! packRGB r g b); reflexivity.
Qed.

Lemma getColorCodeCached_mode (r g b : Z) (bg : bool) (st : Player) :
  current_color_mode (snd (getColorCodeCached r g b bg st)) = current_color_mode st.
Proof.
  unfold getColorCodeCached.
  destruct (current_color_mode st) eqn:Em; simpl; [done | |].
  - destruct (color_cache_8bit st !! _); simpl; [done |].
    destruct (rgbTo8BitColorCached r g b (miss st)) as [c st2] eqn:E. simpl.
    pose proof (rgbTo8BitColorCached_mode r g b (miss st)) as Hm.
    rewrite E in Hm. simpl in Hm. congruence.
  - destruct (color_cache_24bit st !! _); simpl; done.
Qed.

Lemma getColorCodeCached_value (r g b : Z) (bg : bool) (st : Player) :
  caches_ok st → is_byte r → is_byte g → is_byte b →
  fst (getColorCodeCached r g b bg st) = color_code (current_color_mode st) bg r g b.
Proof.
  intros Hok Hr Hg Hb. unfold getColorCodeCached, color_code.
  rewrite !wrap8_byte by assumption.
  destruct (current_color_mode st); simpl; [done | |].
  - destruct (color_cache_8bit st !! _) as [code|] eqn:E; simpl.
    + exact (ok_8bit st Hok r g b bg code Hr Hg Hb E).
    + pose proof (rgbTo8BitColorCached_value r g b (miss st)
                    (caches_ok_stats _ _ Hok) Hr Hg Hb) as Hv.
      destruct (rgbTo8BitColorCached r g b (miss st)) as [c st2]. simpl in *.
      by rewrite Hv.
  - destruct (color_cache_24bit st !! _) as [code|] eqn:E; simpl; [| done].
    exact (ok_24bit st Hok r g b bg code Hr Hg Hb E).
Qed.

Lemma getColorCodeCached_ok (r g b : Z) (bg : bool) (st : Player) :
  caches_ok st → is_byte r → is_byte g → is_byte b →
  caches_ok (snd (getColorCodeCached r g b bg st)).
Proof.
  intros Hok Hr Hg Hb. unfold getColorCodeCached.
  rewrite !wrap8_byte by assumption.
  destruct (current_color_mode st); simpl; [done | |].
  - destruct (color_cache_8bit st !! _) as [code|] eqn:E; simpl.
    + by apply caches_ok_stats.
    + pose proof (rgbTo8BitColorCached_value r g b (miss st)
                    (caches_ok_stats _ _ Hok) Hr Hg Hb) as Hv.
      pose proof (rgbTo8BitColorCached_ok r g b (miss st)
                    (caches_ok_stats _ _ Hok) Hr Hg Hb) as Hk.
      destruct (rgbTo8BitColorCached r g b (miss st)) as [c st2]. simpl in *.
      subst c. destruct Hk as [H1 H2 H3]. split; simpl; eauto.
      intros r' g' b' bg' code Hr' Hg' Hb' Hl.
      destruct (decide (mkColorKey r g b bg = mkColorKey r' g' b' bg')) as [Heq | Hne].
      * rewrite Heq, lookup_insert_eq in Hl. injection Heq as -> -> -> ->. congruence.
      * rewrite lookup_insert_ne in Hl by exact Hne. eauto.
  - destruct (color_cache_24bit st !! _) as [code|] eqn:E; simpl.
    + by apply caches_ok_stats.
    + destruct Hok as [H1 H2 H3]. split; simpl; eauto.
      intros r' g' b' bg' code Hr' Hg' Hb' Hl.
      destruct (decide (mkColorKey r g b bg = mkColorKey r' g' b' bg')) as [Heq | Hne].
      * rewrite Heq, lookup_insert_eq in Hl. injection Heq as -> -> -> ->. congruence.
      * rewrite lookup_insert_ne in Hl by exact Hne. eauto.
Qed.

Lemma color_code_nonempty (mode : ColorMode) (bg : bool) (r g b : Z) :
  is_mono mode = false → color_code mode bg r g b ≠ EmptyString.
Proof. destruct mode; simpl; [discriminate | |]; intros _; discriminate. Qed.

(* ===================================================================== *)
(** * The colour loops on runs of equal pixels *)
(* ===================================================================== *)

Section Scanning.

Variable background : bool.
Variable cell : Vec3b → string.

(** A pixel equal to [lastPixel] only appends its cell. *)
Lemma scan_pixel_same (s : Scan) (p : Vec3b) :
  lastPixel s = p →
  scan_pixel background cell s p =
  mkScan (sc_player s) (ascii_frame s +:+ cell p) (lastColorCode s) p.
Proof. intros <-. unfold scan_pixel. case_decide; [congruence | reflexivity]. Qed.

Lemma scan_run_same (n : nat) (s : Scan) (p : Vec3b) :
  lastPixel s = p →
  foldl (scan_pixel background cell) s (replicate n p) =
  mkScan (sc_player s) (ascii_frame s +:+ text_repeat n (cell p)) (lastColorCode s) p.
Proof.
  revert s. induction n as [|n IH]; intros s Hp; simpl.
  - rewrite string_app_nil_r. destruct s; simpl in *; congruence.
  - rewrite scan_pixel_same by exact Hp.
    rewrite IH by reflexivity. simpl. by rewrite string_app_assoc.
Qed.

(** A row made of [lastPixel] only: its cells, the reset sequence and
    the newline; no colour code, and the player is not touched. *)
Lemma scan_row_same (n : nat) (s : Scan) (p : Vec3b) :
  lastPixel s = p →
  scan_row background cell s (replicate n p) =
  mkScan (sc_player s)
         (ascii_frame s +:+ (text_repeat n (cell p) +:+ resetColor (sc_player s) +:+ NL))
         EmptyString p.
Proof.
  intros Hp. unfold scan_row. rewrite scan_run_same by exact Hp.
  simpl. by rewrite string_app_assoc.
Qed.

Lemma scan_rows_same (k n : nat) (s : Scan) (p : Vec3b) :
  lastPixel s = p → lastColorCode s = EmptyString →
  foldl (scan_row background cell) s (replicate k (replicate n p)) =
  mkScan (sc_player s)
         (ascii_frame s +:+
            text_repeat k (text_repeat n (cell p) +:+ resetColor (sc_player s) +:+ NL))
         EmptyString p.
Proof.
  revert s. induction k as [|k IH]; intros s Hp Hl; simpl.
  - rewrite string_app_nil_r. destruct s; simpl in *; congruence.
  - rewrite scan_row_same by exact Hp.
    rewrite IH by reflexivity. simpl.
    by rewrite !string_app_assoc.
Qed.

(** A pixel that differs from [lastPixel], met while no code is pending
    on the row: its escape code is emitted before its cell. *)
Lemma scan_pixel_new (s : Scan) (p : Vec3b) :
  caches_ok (sc_player s) → pixel_ok p →
  is_mono (current_color_mode (sc_player s)) = false →
  lastColorCode s = EmptyString → p ≠ lastPixel s →
  let code := pixel_code (current_color_mode (sc_player s)) background p in
  let st' := snd (getColorCodeCached (ch2 p) (ch1 p) (ch0 p) background (sc_player s)) in
  scan_pixel background cell s p =
  mkScan st' ((ascii_frame s +:+ code) +:+ cell p) code p.
Proof.
  intros Hok (H0 & H1 & H2) Hmode Hlast Hne. simpl.
  unfold scan_pixel. case_decide; [| congruence].
  pose proof (getColorCodeCached_value _ _ _ background _ Hok H2 H1 H0) as Hv.
  destruct (getColorCodeCached (ch2 p) (ch1 p) (ch0 p) background (sc_player s))
    as [code st'] eqn:E.
  simpl in Hv. subst code. rewrite Hlast.
  case_decide as Hc; [reflexivity |].
  exfalso. revert Hc. by apply color_code_nonempty.
Qed.

(** The text only grows. *)
Lemma scan_pixel_extends (s : Scan) (p : Vec3b) :
  ∃ t, ascii_frame (scan_pixel background cell s p) = ascii_frame s +:+ t.
Proof.
  unfold scan_pixel. case_decide.
  - destruct (getColorCodeCached _ _ _ _ _) as [code st'].
    case_decide; simpl.
    + eexists. by rewrite string_app_assoc.
    + by eexists.
  - by eexists.
Qed.

Lemma scan_pixels_extend (row : list Vec3b) (s : Scan) :
  ∃ t, ascii_frame (foldl (scan_pixel background cell) s row) = ascii_frame s +:+ t.
Proof.
  revert s. induction row as [|p row IH]; intros s; simpl.
  - exists EmptyString. by rewrite string_app_nil_r.
  - destruct (IH (scan_pixel background cell s p)) as [t Ht].
    destruct (scan_pixel_extends s p) as [u Hu].
    exists (u +:+ t). by rewrite Ht, Hu, string_app_assoc.
Qed.

Lemma scan_row_extends (s : Scan) (row : list Vec3b) :
  ∃ t, ascii_frame (scan_row background cell s row) = ascii_frame s +:+ t.
Proof.
  unfold scan_row. simpl.
  destruct (scan_pixels_extend row s) as [t Ht].
  eexists. by rewrite Ht, string_app_assoc.
Qed.

Lemma scan_rows_extend (rows : list (list Vec3b)) (s : Scan) :
  ∃ t, ascii_frame (foldl (scan_row background cell) s rows) = ascii_frame s +:+ t.
Proof.
  revert s. induction rows as [|row rows IH]; intros s; simpl.
  - exists EmptyString. by rewrite string_app_nil_r.
  - destruct (IH (scan_row background cell s row)) as [t Ht].
    destruct (scan_row_extends s row) as [u Hu].
    exists (u +:+ t). by rewrite Ht, Hu, string_app_assoc.
Qed.

(** Leading white pixels, whole rows of them and then the start of a
    row, produce no colour code; the first code is the one of the first
    pixel that is not white. *)
Lemma scan_rows_leading_white (st : Player) (k w j : nat) (p : Vec3b)
    (tl : list Vec3b) (rest : list (list Vec3b)) :
  caches_ok st → pixel_ok p → p ≠ white →
  is_mono (current_color_mode st) = false →
  ∃ suffix,
    ascii_frame (scan_rows background cell st
                   (replicate k (replicate w white) ++
                    (replicate j white ++ p :: tl) :: rest)) =
    text_repeat k (text_repeat w (cell white) +:+ resetColor st +:+ NL) +:+
    text_repeat j (cell white) +:+
    pixel_code (current_color_mode st) background p +:+ cell p +:+ suffix.
Proof.
  intros Hok Hp Hne Hmode. unfold scan_rows.
  rewrite foldl_app.
  rewrite (scan_rows_same k w (scan_init st) white) by reflexivity. simpl.
  set (s1 := mkScan _ _ _ _).
  destruct (scan_rows_extend rest
              (scan_row background cell s1 (replicate j white ++ p :: tl)))
    as [t1 Ht1].
  rewrite Ht1. unfold scan_row at 1. simpl.
  rewrite foldl_app.
  rewrite (scan_run_same j s1 white) by reflexivity. simpl.
  set (s2 := mkScan _ _ _ _).
  rewrite (scan_pixel_new s2 p) by (subst s2; simpl; auto).
  set (s3 := mkScan _ _ _ _).
  destruct (scan_pixels_extend tl s3) as [t2 Ht2].
  rewrite Ht2. subst s3 s2 s1. simpl.
  eexists. rewrite !string_app_assoc. reflexivity.
Qed.

End Scanning.

Section Uniform.

Variable background : bool.
Variable cell : Vec3b → string.

(** The first row of a raster of one colour other than white. *)
Lemma scan_row_first (st : Player) (w : nat) (p : Vec3b) :
  caches_ok st → pixel_ok p → p ≠ white →
  is_mono (current_color_mode st) = false →
  let st' := snd (getColorCodeCached (ch2 p) (ch1 p) (ch0 p) background st) in
  scan_row background cell (scan_init st) (replicate (S w) p) =
  mkScan st'
    (pixel_code (current_color_mode st) background p +:+
     text_repeat (S w) (cell p) +:+ resetColor st +:+ NL)
    EmptyString p.
Proof.
  intros Hok Hp Hne Hmode st'.
  assert (Hm : current_color_mode st' = current_color_mode st)
    by apply getColorCodeCached_mode.
  unfold scan_row.
  change (replicate (S w) p) with (p :: replicate w p). cbn [foldl].
  rewrite (scan_pixel_new background cell (scan_init st) p) by (simpl; auto).
  rewrite (scan_run_same background cell w _ p) by reflexivity.
  cbn [sc_player ascii_frame lastColorCode lastPixel scan_init].
  fold st'. unfold resetColor. rewrite Hm.
  cbn [text_repeat]. rewrite !string_app_assoc. reflexivity.
Qed.

(** A raster of one colour other than white: the code is fetched and
    emitted for the very first pixel only.  [lastColorCode] is cleared
    at the end of each row but [lastPixel] is not, so the first pixel
    of every later row compares equal to [lastPixel] and the row is
    written after the reset sequence without any code. *)
Lemma scan_rows_uniform (st : Player) (k w : nat) (p : Vec3b) :
  caches_ok st → pixel_ok p → p ≠ white →
  is_mono (current_color_mode st) = false →
  ascii_frame (scan_rows background cell st (replicate (S k) (replicate (S w) p))) =
  pixel_code (current_color_mode st) background p +:+
  (text_repeat (S w) (cell p) +:+ resetColor st +:+ NL) +:+
  text_repeat k (text_repeat (S w) (cell p) +:+ resetColor st +:+ NL).
Proof.
  intros Hok Hp Hne Hmode. unfold scan_rows.
  change (replicate (S k) (replicate (S w) p))
    with (replicate (S w) p :: replicate k (replicate (S w) p)).
  cbn [foldl]. rewrite scan_row_first by assumption.
  rewrite (scan_rows_same background cell k (S w) _ p) by reflexivity.
  cbn [sc_player ascii_frame lastColorCode lastPixel].
  unfold resetColor. rewrite getColorCodeCached_mode.
  rewrite !string_app_assoc. reflexivity.
Qed.

(** A raster that is white all over: no code at all. *)
Lemma scan_rows_white (st : Player) (k w : nat) :
  ascii_frame (scan_rows background cell st (replicate k (replicate w white))) =
  text_repeat k (text_repeat w (cell white) +:+ resetColor st +:+ NL).
Proof.
  unfold scan_rows.
  by rewrite (scan_rows_same background cell k w (scan_init st) white).
Qed.

End Uniform.

(** Rendering keeps the caches consistent and the mode as it is. *)
Lemma scan_pixel_ok (background : bool) (cell : Vec3b → string) (s : Scan) (p : Vec3b) :
  caches_ok (sc_player s) → pixel_ok p →
  caches_ok (sc_player (scan_pixel background cell s p))
  ∧ current_color_mode (sc_player (scan_pixel background cell s p))
    = current_color_mode (sc_player s).
Proof.
  intros Hok (H0 & H1 & H2). unfold scan_pixel.
  case_decide; [| done].
  pose proof (getColorCodeCached_ok _ _ _ background _ Hok H2 H1 H0) as Hok'.
  pose proof (getColorCodeCached_mode (ch2 p) (ch1 p) (ch0 p) background (sc_player s))
    as Hm.
  destruct (getColorCodeCached _ _ _ _ _) as [code st'].
  case_decide; simpl in *; done.
Qed.

Lemma scan_rows_ok (background : bool) (cell : Vec3b → string) (st : Player)
    (resized : Mat) :
  caches_ok st → Forall (Forall pixel_ok) resized →
  caches_ok (sc_player (scan_rows background cell st resized))
  ∧ current_color_mode (sc_player (scan_rows background cell st resized))
    = current_color_mode st.
Proof.
  intros Hok Hpx. unfold scan_rows.
  assert (Hgen : ∀ s, caches_ok (sc_player s) →
            caches_ok (sc_player (foldl (scan_row background cell) s resized))
            ∧ current_color_mode (sc_player (foldl (scan_row background cell) s resized))
              = current_color_mode (sc_player s)); [| by apply Hgen].
  induction Hpx as [|row rows Hrow _ IH]; intros s Hs; [done |].
  cbn [foldl].
  assert (Hr : ∀ s0, caches_ok (sc_player s0) →
            caches_ok (sc_player (foldl (scan_pixel background cell) s0 row))
            ∧ current_color_mode (sc_player (foldl (scan_pixel background cell) s0 row))
              = current_color_mode (sc_player s0)).
  { clear IH s Hs. induction Hrow as [|p row Hp _ IHr]; intros s0 Hs0; [done |].
    cbn [foldl]. destruct (scan_pixel_ok background cell s0 p Hs0 Hp) as [Hk Hm].
    destruct (IHr _ Hk) as [Hk' Hm']. split; [done | congruence]. }
  destruct (Hr s Hs) as [Hk Hm].
  destruct (IH (scan_row background cell s row)) as [Hk' Hm']; [exact Hk |].
  split; [done |]. rewrite Hm'. exact Hm.
Qed.

(* ===================================================================== *)
(** * The properties *)
(* ===================================================================== *)

(** ** Colour elision across rows *)

(** C1 (the code departs from it).  A 2 x 2 raster of pure red rendered in
    256-colour mode from empty caches, in both styles: the escape code is
    written once, at the start of the first row; the second row follows
    the reset sequence with no escape code, so the rows do not carry one
    code each. *)
Theorem C1_uniform_raster_second_row_has_no_code :
  let st := setColorMode COLOR_8BIT Player_init in
  let reset := ESC +:+ "[0m" in
  fst (render_color_glyphs st [[red; red]; [red; red]]) =
    (code_8bit false 196 +:+ "]]" +:+ reset +:+ NL) +:+ ("]]" +:+ reset +:+ NL)
  ∧ fst (render_color_blocks st [[red; red]; [red; red]]) =
    (code_8bit true 196 +:+ "  " +:+ reset +:+ NL) +:+ ("  " +:+ reset +:+ NL).
Proof. split; vm_compute; reflexivity. Qed.

(** ** The white sentinel *)

(** C9.  In a coloured mode, with consistent caches, a raster that starts
    with white pixels ([k] whole rows of [w] of them, then [j] more at the
    start of the next row) followed by a pixel [p] that is not white is
    rendered as the cells of the white pixels, each full row closed by the
    reset sequence and a newline, then the escape code of [p], then the
    cell of [p]: no escape code comes before the first pixel that is not
    white.  With [k = 0] and [j = 0] the raster starts with [p], and the
    text starts with the code of [p].  A raster that is white all over is
    rendered with no escape code at all.  This holds for the glyph style
    and for the block style. *)
Theorem C9_white_sentinel (st : Player) (k w j : nat) (p : Vec3b)
    (tl : list Vec3b) (rest : list (list Vec3b)) :
  caches_ok st → pixel_ok p → p ≠ white →
  is_mono (current_color_mode st) = false →
  let raster := replicate k (replicate w white) ++ (replicate j white ++ p :: tl) :: rest in
  (∃ suffix,
     fst (render_color_glyphs st raster) =
     text_repeat k (text_repeat w (glyph_at (brightness white)) +:+ resetColor st +:+ NL) +:+
     text_repeat j (glyph_at (brightness white)) +:+
     pixel_code (current_color_mode st) false p +:+ glyph_at (brightness p) +:+ suffix)
  ∧
  (∃ suffix,
     fst (render_color_blocks st raster) =
     text_repeat k (text_repeat w " " +:+ resetColor st +:+ NL) +:+
     text_repeat j " " +:+
     pixel_code (current_color_mode st) true p +:+ " " +:+ suffix)
  ∧ fst (render_color_glyphs st (replicate k (replicate w white))) =
    text_repeat k (text_repeat w (glyph_at (brightness white)) +:+ resetColor st +:+ NL)
  ∧ fst (render_color_blocks st (replicate k (replicate w white))) =
    text_repeat k (text_repeat w " " +:+ resetColor st +:+ NL).
Proof.
  intros Hok Hp Hne Hmode raster. split_and!.
  - exact (scan_rows_leading_white false (fun q => glyph_at (brightness q))
             st k w j p tl rest Hok Hp Hne Hmode).
  - exact (scan_rows_leading_white true (fun _ => " ")
             st k w j p tl rest Hok Hp Hne Hmode).
  - exact (scan_rows_white false (fun q => glyph_at (brightness q)) st k w).
  - exact (scan_rows_white true (fun _ => " ") st k w).
Qed.

Lemma pixel_ok_red : pixel_ok red.
Proof. unfold pixel_ok, is_byte, red; simpl; lia. Qed.

Lemma C9_white_sentinel_witness :
  (∃ suffix,
     fst (render_color_glyphs (setColorMode COLOR_24BIT Player_init)
            [[white; white]; [white; red]]) =
     text_repeat 1 (text_repeat 2 (glyph_at (brightness white)) +:+
                    resetColor (setColorMode COLOR_24BIT Player_init) +:+ NL) +:+
     text_repeat 1 (glyph_at (brightness white)) +:+
     pixel_code COLOR_24BIT false red +:+ glyph_at (brightness red) +:+ suffix)
  ∧
  (∃ suffix,
     fst (render_color_blocks (setColorMode COLOR_24BIT Player_init)
            [[white; white]; [white; red]]) =
     text_repeat 1 (text_repeat 2 " " +:+
                    resetColor (setColorMode COLOR_24BIT Player_init) +:+ NL) +:+
     text_repeat 1 " " +:+
     pixel_code COLOR_24BIT true red +:+ " " +:+ suffix)
  ∧ fst (render_color_glyphs (setColorMode COLOR_24BIT Player_init)
           (replicate 1 (replicate 2 white))) =
    text_repeat 1 (text_repeat 2 (glyph_at (brightness white)) +:+
                   resetColor (setColorMode COLOR_24BIT Player_init) +:+ NL)
  ∧ fst (render_color_blocks (setColorMode COLOR_24BIT Player_init)
           (replicate 1 (replicate 2 white))) =
    text_repeat 1 (text_repeat 2 " " +:+
                   resetColor (setColorMode COLOR_24BIT Player_init) +:+ NL).
Proof.
  apply (C9_white_sentinel (setColorMode COLOR_24BIT Player_init) 1 2 1 red [] []).
  - apply caches_ok_setColorMode, caches_ok_empty.
  - exact pixel_ok_red.
  - discriminate.
  - reflexivity.
Defined.

(** ** The empty raster *)

(** C10.  On an empty raster [frameToAscii] returns the empty text at
    once and [frameToColorBlocks] hands over to [frameToAscii]; both
    return the empty text and the player they were given: mode, caches
    and counters are the same. *)
Theorem C10_empty_raster_renders_nothing
    (resize : Mat → Z → Z → Mat) (equalized_gray : Mat → list (list Z))
    (term : TerminalSize) (frame : Mat) (target_width target_height : Z) (st : Player) :
  mat_empty frame = true →
  frameToAscii resize equalized_gray term frame target_width target_height st
    = (EmptyString, st)
  ∧ frameToColorBlocks resize equalized_gray term frame target_width target_height st
    = frameToAscii resize equalized_gray term frame target_width target_height st
  ∧ frameToColorBlocks resize equalized_gray term frame target_width target_height st
    = (EmptyString, st).
Proof.
  intros He. unfold frameToColorBlocks, frameToAscii. rewrite He. simpl. done.
Qed.

Lemma C10_empty_raster_renders_nothing_witness :
  let st := setColorMode COLOR_8BIT Player_init in
  let term := mkTerminalSize 80 24 in
  frameToAscii nearest_resize plain_gray term [] 80 24 st = (EmptyString, st)
  ∧ frameToColorBlocks nearest_resize plain_gray term [] 80 24 st
    = frameToAscii nearest_resize plain_gray term [] 80 24 st
  ∧ frameToColorBlocks nearest_resize plain_gray term [] 80 24 st = (EmptyString, st).
Proof.
  apply (C10_empty_raster_renders_nothing nearest_resize plain_gray
           (mkTerminalSize 80 24) [] 80 24 (setColorMode COLOR_8BIT Player_init)).
  reflexivity.
Defined.

(** ** Fullscreen and the caches *)

(** C3 (the code departs from it).  In [playVideoAscii] the block under
    [case 'f'] runs on into [case 'r'], so the key also empties the caches
    and zeroes the counters; in [playFromCamera] the same key leaves the
    player as it was. *)
Theorem C3_video_fullscreen_key_clears_caches :
  let term := mkTerminalSize 100 30 in
  let s := loop_after_two_lookups in
  cache_stats (player s) = mkCacheStats 1 1 1
  ∧ size (color_cache_24bit (player s)) = 1%nat
  ∧ (fun s' => (fullscreen_mode s', box_width s', box_height s')) <$> video_key term "f" s
    = Some (true, 98, 26)
  ∧ (fun s' => cache_stats (player s')) <$> video_key term "f" s
    = Some (mkCacheStats 0 0 0)
  ∧ (fun s' => size (color_cache_24bit (player s'))) <$> video_key term "f" s
    = Some 0%nat
  ∧ (fun s' => (fullscreen_mode s', box_width s', box_height s')) <$> camera_key term "f" s
    = Some (true, 98, 26)
  ∧ player <$> camera_key term "f" s = Some (player s).
Proof. cbv zeta. repeat split; reflexivity. Qed.

(** For every state, what the two handlers do with the fullscreen key. *)
Lemma video_key_fullscreen (term : TerminalSize) (s : VideoLoop) (key : ascii) :
  key = "f"%char ∨ key = "F"%char →
  video_key term key s =
    Some (with_player (toggle_fullscreen term s) (clearColorCaches (player s)))
  ∧ camera_key term key s = Some (toggle_fullscreen term s).
Proof.
  intros [-> | ->]; split; unfold video_key, camera_key, toggle_fullscreen; simpl;
    destruct (fullscreen_mode s); reflexivity.
Qed.

(** ** A paused iteration *)

Lemma show_keeps (resize : Mat → Z → Z → Mat) (equalized_gray : Mat → list (list Z))
    (term : TerminalSize) (s : VideoLoop) :
  let s' := fst (show resize equalized_gray term s) in
  frame_number s' = frame_number s ∧ frame s' = frame s ∧ paused s' = paused s
  ∧ base_delay s' = base_delay s ∧ speed_multiplier s' = speed_multiplier s.
Proof.
  unfold show. destruct (mat_empty (frame s)); simpl; [done |].
  destruct (if block_mode s && negb (is_mono (current_color_mode (player s)))
            then _ else _) as [ascii st']. simpl. done.
Qed.





(** ** The target size *)


(** C6 (the code departs from it).  A 1920 x 1080 frame in an 80 x 24 box:
    the frame aspect 1.78 is not above [80 * 2.2 / 24 = 7.33], so the
    second branch is taken and the width is [24 * 1.78 * 2.2], truncated
    to 93, which is wider than the box.  The same happens with the box
    the player derives from an 80 x 24 terminal. *)
Theorem C6_wide_frame_overflows_box :
  new_size 1920 1080 80 24 = (93, 24)
  ∧ 80 < fst (new_size 1920 1080 80 24)
  ∧ target_box (mkTerminalSize 80 24) 0 0 = (78, 21)
  ∧ new_size 1920 1080 78 21 = (82, 21).
Proof. repeat split; vm_compute; reflexivity. Qed.

(** ** Grayscale quantisation *)

Lemma rgbTo8BitColor_gray (v : Z) : rgbTo8BitColor v v v = gray_index v.
Proof. unfold rgbTo8BitColor. by rewrite Z.eqb_refl. Qed.

Lemma gray_index_checked : forallb gray_index_check (seqZ 0 256) = true.
Proof. vm_compute. reflexivity. Qed.

Lemma gray_index_spec (v : Z) :
  is_byte v →
  (gray_index v = 16 ∨ gray_index v = 231 ∨ 232 ≤ gray_index v ≤ 255)
  ∧ (v < 8 → gray_index v = 16)
  ∧ (248 < v → gray_index v = 231)
  ∧ (8 ≤ v ≤ 248 → gray_index v = 232 + (v - 8) * 24 / 247).
Proof.
  intros [Hlo Hhi].
  pose proof (forallb_seqZ _ _ gray_index_checked v ltac:(lia)) as H.
  unfold gray_index_check in H. cbv zeta in H.
  apply andb_true_iff in H as [Hset Hval].
  split.
  - apply orb_true_iff in Hset as [Hset | Hset].
    + apply orb_true_iff in Hset as [Hset | Hset]; lia.
    + apply andb_true_iff in Hset. lia.
  - destruct (Z.ltb_spec v 8); [repeat split; lia |].
    destruct (Z.ltb_spec 248 v); repeat split; lia.
Qed.

(** C7, as stated, fails: the index is not monotone in [v]; it drops
    from 255 to 231 between 248 and 249. *)
Lemma C7_index_drops_after_248 :
  rgbTo8BitColor 248 248 248 = 255
  ∧ rgbTo8BitColor 249 249 249 = 231
  ∧ ¬ (rgbTo8BitColor 248 248 248 ≤ rgbTo8BitColor 249 249 249).
Proof.
  split; [vm_compute; reflexivity |]. split; [vm_compute; reflexivity |].
  vm_compute. intros H. by apply H.
Qed.

(** C7, amended.  For [r = g = b = v] with [v] in 0..255, on any player
    with consistent caches, the cached quantiser returns the same index
    when called again; the index lies in {16, 231} or in 232..255; it is
    16 for [v < 8] (so for black), 231 for [v > 248] (so for white), and
    [232 + floor((v - 8) * 24 / 247)] on the ramp in between; it is
    non-decreasing in [v] up to 248. *)
Theorem C7_gray_quantisation (v : Z) (st : Player) :
  is_byte v → caches_ok st →
  let i := fst (rgbTo8BitColorCached v v v st) in
  fst (rgbTo8BitColorCached v v v (snd (rgbTo8BitColorCached v v v st))) = i
  ∧ i = rgbTo8BitColor v v v
  ∧ (i = 16 ∨ i = 231 ∨ 232 ≤ i ≤ 255)
  ∧ (v < 8 → i = 16)
  ∧ (248 < v → i = 231)
  ∧ (8 ≤ v ≤ 248 → i = 232 + (v - 8) * 24 / 247)
  ∧ (∀ u, 0 ≤ u ≤ v → v ≤ 248 → rgbTo8BitColor u u u ≤ i).
Proof.
  intros Hv Hok i.
  assert (Hi : i = rgbTo8BitColor v v v)
    by (subst i; by apply rgbTo8BitColorCached_value).
  assert (Hok' : caches_ok (snd (rgbTo8BitColorCached v v v st)))
    by (by apply rgbTo8BitColorCached_ok).
  split; [rewrite Hi; by apply rgbTo8BitColorCached_value |].
  split; [exact Hi |].
  rewrite Hi, rgbTo8BitColor_gray.
  destruct (gray_index_spec v Hv) as (Hset & Hlow & Hhigh & Hramp).
  repeat split; try assumption; try tauto.
  intros u Hu Hv248. rewrite rgbTo8BitColor_gray.
  assert (Hub : is_byte u) by (unfold is_byte in *; lia).
  destruct (gray_index_spec u Hub) as (Huset & Hulow & _ & Huramp).
  destruct (Z.lt_ge_cases u 8) as [Hu8 | Hu8].
  - rewrite (Hulow Hu8). lia.
  - rewrite Huramp, Hramp by lia.
    apply Z.add_le_mono_l, Z.div_le_mono; lia.
Qed.

Lemma C7_gray_quantisation_witness :
  let st := setColorMode COLOR_8BIT Player_init in
  let i := fst (rgbTo8BitColorCached 128 128 128 st) in
  fst (rgbTo8BitColorCached 128 128 128 (snd (rgbTo8BitColorCached 128 128 128 st))) = i
  ∧ i = rgbTo8BitColor 128 128 128
  ∧ (i = 16 ∨ i = 231 ∨ 232 ≤ i ≤ 255)
  ∧ (128 < 8 → i = 16)
  ∧ (248 < 128 → i = 231)
  ∧ (8 ≤ 128 ≤ 248 → i = 232 + (128 - 8) * 24 / 247)
  ∧ (∀ u, 0 ≤ u ≤ 128 → 128 ≤ 248 → rgbTo8BitColor u u u ≤ i).
Proof.
  apply (C7_gray_quantisation 128 (setColorMode COLOR_8BIT Player_init)).
  - unfold is_byte. lia.
  - apply caches_ok_setColorMode, caches_ok_empty.
Defined.

(** ** Cache counters *)

Lemma key_ok_normal (k : ColorKey) :
  key_ok k →
  mkColorKey (wrap8 (key_r k)) (wrap8 (key_g k)) (wrap8 (key_b k)) (key_background k) = k.
Proof. intros (Hr & Hg & Hb). rewrite !wrap8_byte by assumption. by destruct k. Qed.

Lemma lookup_key_mode (st : Player) (k : ColorKey) :
  current_color_mode (lookup_key st k) = current_color_mode st.
Proof. apply getColorCodeCached_mode. Qed.

(** A lookup that finds its key, in either coloured mode, counts one hit
    and changes nothing else. *)
Lemma lookup_key_hit (st : Player) (k : ColorKey) :
  key_ok k →
  (current_color_mode st = COLOR_8BIT ∧ is_Some (color_cache_8bit st !! k))
  ∨ (current_color_mode st = COLOR_24BIT ∧ is_Some (color_cache_24bit st !! k)) →
  lookup_key st k = hit st.
Proof.
  intros Hk H. unfold lookup_key, getColorCodeCached.
  rewrite (key_ok_normal k Hk).
  destruct H as [[-> [c Hc]] | [-> [c Hc]]]; by rewrite Hc.
Qed.

(** A true-colour lookup that misses. *)
Lemma lookup_key_24bit_miss (st : Player) (k : ColorKey) :
  key_ok k → current_color_mode st = COLOR_24BIT → color_cache_24bit st !! k = None →
  let st' := lookup_key st k in
  color_cache_24bit st' =
    <[k := code_24bit (key_background k) (key_r k) (key_g k) (key_b k)]>
      (color_cache_24bit st)
  ∧ hits (cache_stats st') = hits (cache_stats st)
  ∧ misses (cache_stats st') = wrap64 (misses (cache_stats st) + 1).
Proof.
  intros Hk Hm Hc. unfold lookup_key, getColorCodeCached.
  rewrite (key_ok_normal k Hk), Hm, Hc. simpl. done.
Qed.

(** A 256-colour lookup that misses: one miss for the escape code, then
    the palette lookup counts a miss or a hit of its own. *)
Lemma lookup_key_8bit_miss (st : Player) (k : ColorKey) :
  key_ok k → current_color_mode st = COLOR_8BIT → color_cache_8bit st !! k = None →
  let st' := lookup_key st k in
  (∃ code, color_cache_8bit st' = <[k := code]> (color_cache_8bit st))
  ∧ match rgb_to_8bit_cache st !! key_rgb k with
    | None =>
        (∃ c, rgb_to_8bit_cache st' = <[key_rgb k := c]> (rgb_to_8bit_cache st))
        ∧ hits (cache_stats st') = hits (cache_stats st)
        ∧ misses (cache_stats st') = wrap64 (wrap64 (misses (cache_stats st) + 1) + 1)
    | Some _ =>
        rgb_to_8bit_cache st' = rgb_to_8bit_cache st
        ∧ hits (cache_stats st') = wrap64 (hits (cache_stats st) + 1)
        ∧ misses (cache_stats st') = wrap64 (misses (cache_stats st) + 1)
    end.
Proof.
  intros Hk Hm Hc. unfold lookup_key, getColorCodeCached.
  rewrite (key_ok_normal k Hk), Hm, Hc.
  unfold rgbTo8BitColorCached, key_rgb. simpl.
  destruct (rgb_to_8bit_cache st !! packRGB (key_r k) (key_g k) (key_b k));
    simpl; eauto 10.
Qed.

Lemma wrap64_small (z : Z) : 0 ≤ z < 2 ^ 64 → wrap64 z = z.
Proof. intros H. unfold wrap64. by apply Z.mod_small. Qed.

(** A pass over keys that are all cached: only hits. *)
Lemma lookups_all_hit (keys : list ColorKey) (st : Player) :
  Forall key_ok keys →
  (current_color_mode st = COLOR_8BIT ∧ ∀ k, k ∈ keys → is_Some (color_cache_8bit st !! k))
  ∨ (current_color_mode st = COLOR_24BIT
     ∧ ∀ k, k ∈ keys → is_Some (color_cache_24bit st !! k)) →
  0 ≤ hits (cache_stats st) →
  hits (cache_stats st) + Z.of_nat (length keys) < 2 ^ 64 →
  lookups keys st =
  with_stats st (mkCacheStats (hits (cache_stats st) + Z.of_nat (length keys))
                              (misses (cache_stats st)) (cache_size (cache_stats st))).
Proof.
  revert st. induction keys as [|k keys IH]; intros st Hok Hin H0 Hb.
  - simpl. rewrite Z.add_0_r. by destruct st as [? ? ? ? []].
  - apply Forall_cons in Hok as [Hk Hok].
    change (lookups (k :: keys) st) with (lookups keys (lookup_key st k)).
    rewrite lookup_key_hit; [| exact Hk |].
    2:{ destruct Hin as [[Hm Hin] | [Hm Hin]]; [left | right];
        (split; [exact Hm | apply Hin; left]). }
    rewrite length_cons in Hb.
    rewrite IH; [| exact Hok | | |].
    + unfold hit, with_stats. simpl. rewrite wrap64_small by lia.
      f_equal. f_equal. lia.
    + destruct Hin as [[Hm Hin] | [Hm Hin]]; [left | right];
        (split; [exact Hm | intros k' Hk'; apply Hin; by right]).
    + unfold hit. simpl. rewrite wrap64_small by lia. lia.
    + unfold hit. simpl. rewrite wrap64_small by lia. lia.
Qed.

(** A first pass in true-colour mode over distinct keys not yet cached:
    one miss each. *)
Lemma lookups_24bit_fresh (keys : list ColorKey) (st : Player) :
  current_color_mode st = COLOR_24BIT → NoDup keys → Forall key_ok keys →
  (∀ k, k ∈ keys → color_cache_24bit st !! k = None) →
  0 ≤ misses (cache_stats st) →
  misses (cache_stats st) + Z.of_nat (length keys) < 2 ^ 64 →
  let st' := lookups keys st in
  current_color_mode st' = COLOR_24BIT
  ∧ hits (cache_stats st') = hits (cache_stats st)
  ∧ misses (cache_stats st') = misses (cache_stats st) + Z.of_nat (length keys)
  ∧ (∀ k, is_Some (color_cache_24bit st' !! k) ↔
          is_Some (color_cache_24bit st !! k) ∨ k ∈ keys).
Proof.
  revert st. induction keys as [|k keys IH]; intros st Hm Hnd Hok Hfresh H0 Hb; cbv zeta.
  - simpl. repeat split; try done; try lia.
    + by left.
    + intros [? | H]; [done | by apply elem_of_nil in H].
  - apply Forall_cons in Hok as [Hk Hok].
    apply NoDup_cons in Hnd as [Hnk Hnd].
    change (lookups (k :: keys) st) with (lookups keys (lookup_key st k)).
    rewrite length_cons in *.
    destruct (lookup_key_24bit_miss st k Hk Hm (Hfresh k ltac:(left)))
      as (Hc & Hh & Hmi).
    rewrite wrap64_small in Hmi by lia.
    destruct (IH (lookup_key st k)) as (Hm' & Hh' & Hmi' & Hdom).
    + by rewrite lookup_key_mode.
    + exact Hnd.
    + exact Hok.
    + intros k' Hk'. rewrite Hc, lookup_insert_ne by (intros ->; done).
      apply Hfresh. by right.
    + lia.
    + lia.
    + repeat split; try done; try lia.
      * intros H. apply Hdom in H as [H | H]; [| right; by right].
        rewrite Hc in H. destruct (decide (k = k0)) as [-> | Hne].
        -- right. by left.
        -- rewrite lookup_insert_ne in H by done. by left.
      * intros H. apply Hdom. rewrite Hc.
        destruct (decide (k = k0)) as [-> | Hne].
        -- left. rewrite lookup_insert_eq. by eexists.
        -- rewrite lookup_insert_ne by done.
           destruct H as [H | H]; [by left |].
           apply elem_of_cons in H as [-> | H]; [done | by right].
Qed.

(** A first pass in 256-colour mode over distinct keys not yet cached:
    one miss each for the escape code, and for the palette index a miss
    when the packed colour is new ([d] of them) and a hit otherwise. *)
Lemma lookups_8bit_fresh (keys : list ColorKey) (st : Player) :
  current_color_mode st = COLOR_8BIT → NoDup keys → Forall key_ok keys →
  (∀ k, k ∈ keys → color_cache_8bit st !! k = None) →
  0 ≤ hits (cache_stats st) → 0 ≤ misses (cache_stats st) →
  hits (cache_stats st) + Z.of_nat (length keys) < 2 ^ 64 →
  misses (cache_stats st) + 2 * Z.of_nat (length keys) < 2 ^ 64 →
  let st' := lookups keys st in
  ∃ d : nat,
    (d ≤ length keys)%nat
    ∧ size (rgb_to_8bit_cache st') = (size (rgb_to_8bit_cache st) + d)%nat
    ∧ dom (rgb_to_8bit_cache st') =
        dom (rgb_to_8bit_cache st) ∪ list_to_set (key_rgb <$> keys)
    ∧ current_color_mode st' = COLOR_8BIT
    ∧ hits (cache_stats st') =
        hits (cache_stats st) + Z.of_nat (length keys) - Z.of_nat d
    ∧ misses (cache_stats st') =
        misses (cache_stats st) + Z.of_nat (length keys) + Z.of_nat d
    ∧ (∀ k, is_Some (color_cache_8bit st' !! k) ↔
            is_Some (color_cache_8bit st !! k) ∨ k ∈ keys).
Proof.
  revert st. induction keys as [|k keys IH];
    intros st Hm Hnd Hok Hfresh Hh0 Hm0 Hhb Hmb; cbv zeta.
  - exists 0%nat. simpl. split_and!; try done; try lia.
    + set_solver.
    + intros k. rewrite elem_of_nil. tauto.
  - apply Forall_cons in Hok as [Hk Hok].
    apply NoDup_cons in Hnd as [Hnk Hnd].
    change (lookups (k :: keys) st) with (lookups keys (lookup_key st k)).
    rewrite length_cons in *.
    destruct (lookup_key_8bit_miss st k Hk Hm (Hfresh k ltac:(left)))
      as ([code Hc] & Hrgb).
    assert (Hfresh' : ∀ k', k' ∈ keys → color_cache_8bit (lookup_key st k) !! k' = None).
    { intros k' Hk'. rewrite Hc, lookup_insert_ne by (intros ->; done).
      apply Hfresh. by right. }
    assert (Hdom8 : ∀ k0 (A : Prop),
      (A ↔ is_Some (color_cache_8bit (lookup_key st k) !! k0) ∨ k0 ∈ keys) →
      (A ↔ is_Some (color_cache_8bit st !! k0) ∨ k0 ∈ k :: keys)).
    { intros k0 A Hd. rewrite Hd, Hc, elem_of_cons.
      destruct (decide (k = k0)) as [-> | Hne].
      - rewrite lookup_insert_eq. split; [intros _; right; by left | intros _; left; by eexists].
      - rewrite lookup_insert_ne by done. naive_solver. }
    destruct (rgb_to_8bit_cache st !! key_rgb k) as [c0|] eqn:Ergb.
    + destruct Hrgb as (Hr & Hh & Hmi).
      rewrite wrap64_small in Hh, Hmi by lia.
      destruct (IH (lookup_key st k)) as (d & Hd & Hsz & Hdom & Hm' & Hh' & Hmi' & Hc8);
        [by rewrite lookup_key_mode | done | done | done | lia | lia | lia | lia |].
      exists d. rewrite Hr in Hsz, Hdom.
      split_and!; try done; try lia.
      * rewrite Hdom, fmap_cons, list_to_set_cons.
        assert (key_rgb k ∈ dom (rgb_to_8bit_cache st)) by (apply elem_of_dom; by eexists).
        set_solver.
      * intros k0. apply Hdom8, Hc8.
    + destruct Hrgb as ([c Hr] & Hh & Hmi).
      rewrite (wrap64_small (misses (cache_stats st) + 1)) in Hmi by lia.
      rewrite wrap64_small in Hmi by lia.
      destruct (IH (lookup_key st k)) as (d & Hd & Hsz & Hdom & Hm' & Hh' & Hmi' & Hc8);
        [by rewrite lookup_key_mode | done | done | done | lia | lia | lia | lia |].
      exists (S d). rewrite Hr in Hsz, Hdom.
      rewrite map_size_insert_None in Hsz by done.
      split_and!; try done; try lia.
      * rewrite Hdom, dom_insert_L, fmap_cons, list_to_set_cons. set_solver.
      * intros k0. apply Hdom8, Hc8.
Qed.

(** Distinct keys with byte channels are at most [2^25]. *)
Lemma distinct_keys_bound (keys : list ColorKey) :
  NoDup keys → Forall key_ok keys → Z.of_nat (length keys) ≤ 33554432.
Proof.
  intros Hnd Hok. rewrite Forall_forall in Hok.
  assert (Hnd' : NoDup (key_code <$> keys)).
  { apply NoDup_fmap_2_strong; [| exact Hnd].
    intros [r g b bg] [r' g' b' bg'] Hx Hy Heq.
    apply Hok in Hx as (? & ? & ?). apply Hok in Hy as (? & ? & ?).
    unfold key_code, is_byte in *. simpl in *.
    assert (bg = bg') by (destruct bg, bg'; try done; lia). subst bg'.
    f_equal; destruct bg; lia. }
  assert (Hsub : key_code <$> keys ⊆+ seqZ 0 33554432).
  { apply NoDup_submseteq; [exact Hnd' |].
    intros x Hx. apply list_elem_of_fmap in Hx as (k & -> & Hk).
    apply Hok in Hk as (? & ? & ?). apply elem_of_seqZ.
    unfold key_code, is_byte in *. destruct (key_background k); lia. }
  apply submseteq_length in Hsub.
  rewrite length_fmap, length_seqZ in Hsub. lia.
Qed.

(** The number of distinct elements of a list, as the size of its set. *)
Lemma size_list_to_set_remove_dups (l : list Z) :
  size (list_to_set l : gset Z) = length (remove_dups l).
Proof.
  rewrite <- (size_list_to_set (C := gset Z) (remove_dups l)) by apply NoDup_remove_dups.
  f_equal. apply set_eq. intros x.
  by rewrite !elem_of_list_to_set, elem_of_remove_dups.
Qed.

(** C2, as stated, fails: in 256-colour mode a single lookup from empty
    caches already counts two misses, one for the escape code and one
    for the palette index it needs. *)
Lemma C2_one_lookup_two_misses :
  let st1 := lookups [mkColorKey 255 0 0 false] (fresh COLOR_8BIT) in
  misses (cache_stats st1) = 2
  ∧ hits (cache_stats (lookups [mkColorKey 255 0 0 false] st1)) = 1.
Proof. split; vm_compute; reflexivity. Qed.

(** C2, amended.  Take [M] pairwise distinct keys with byte channels and
    look them up twice, starting from empty caches and zeroed counters.
    In true-colour mode the first pass counts [M] misses and no hit, the
    second pass [M] hits and no further miss.  In 256-colour mode every
    escape-code miss is followed by a palette lookup that is counted in
    the same two counters: with [D] the number of distinct packed colours
    among the keys, the first pass counts [M + D] misses and [M - D]
    hits, and the second pass adds exactly [M] hits and no miss.  In
    monochrome nothing is counted.  Clearing the caches zeroes the three
    statistics and empties the three caches. *)
Theorem C2_cache_counters (keys : list ColorKey) :
  NoDup keys → Forall key_ok keys →
  let M := Z.of_nat (length keys) in
  let D := Z.of_nat (length (remove_dups (key_rgb <$> keys))) in
  (let st1 := lookups keys (fresh COLOR_24BIT) in
   let st2 := lookups keys st1 in
   misses (cache_stats st1) = M ∧ hits (cache_stats st1) = 0
   ∧ hits (cache_stats st2) = M ∧ misses (cache_stats st2) = M)
  ∧ (let st1 := lookups keys (fresh COLOR_8BIT) in
     let st2 := lookups keys st1 in
     misses (cache_stats st1) = M + D ∧ hits (cache_stats st1) = M - D
     ∧ hits (cache_stats st2) = (M - D) + M ∧ misses (cache_stats st2) = M + D)
  ∧ lookups keys (fresh MONO) = fresh MONO
  ∧ (∀ st, cache_stats (clearColorCaches st) = mkCacheStats 0 0 0
           ∧ total_cache_size (clearColorCaches st) = 0
           ∧ color_cache_8bit (clearColorCaches st) = ∅
           ∧ color_cache_24bit (clearColorCaches st) = ∅
           ∧ rgb_to_8bit_cache (clearColorCaches st) = ∅).
Proof.
  intros Hnd Hok M D.
  pose proof (distinct_keys_bound keys Hnd Hok) as Hbound.
  split_and!.
  - destruct (lookups_24bit_fresh keys (fresh COLOR_24BIT)) as (Hm & Hh & Hmi & Hdom);
      [done | done | done | intros; apply lookup_empty | simpl; lia | simpl; lia |].
    set (st1 := lookups keys (fresh COLOR_24BIT)) in *.
    change (hits (cache_stats (fresh COLOR_24BIT))) with 0 in Hh.
    change (misses (cache_stats (fresh COLOR_24BIT))) with 0 in Hmi.
    cbv zeta. rewrite lookups_all_hit; [| done | | |].
    + unfold with_stats. cbn [cache_stats hits misses]. subst M. split_and!; lia.
    + right. split; [exact Hm |]. intros k Hk. apply Hdom. by right.
    + lia.
    + lia.
  - destruct (lookups_8bit_fresh keys (fresh COLOR_8BIT))
      as (d & Hd & Hsz & Hdom & Hm & Hh & Hmi & Hc8);
      [done | done | done | intros; apply lookup_empty | simpl; lia | simpl; lia
      | simpl; lia | simpl; lia |].
    set (st1 := lookups keys (fresh COLOR_8BIT)) in *.
    change (hits (cache_stats (fresh COLOR_8BIT))) with 0 in Hh.
    change (misses (cache_stats (fresh COLOR_8BIT))) with 0 in Hmi.
    change (rgb_to_8bit_cache (fresh COLOR_8BIT)) with (∅ : gmap Z Z) in Hsz, Hdom.
    assert (HD : D = Z.of_nat d).
    { subst D. f_equal. rewrite <- size_list_to_set_remove_dups.
      rewrite map_size_empty in Hsz. simpl in Hsz. rewrite <- Hsz.
      rewrite <- size_dom, Hdom, dom_empty_L.
      f_equal. set_solver. }
    cbv zeta. rewrite lookups_all_hit; [| done | | |].
    + unfold with_stats. cbn [cache_stats hits misses]. subst M. split_and!; lia.
    + left. split; [exact Hm |]. intros k Hk. apply Hc8. by right.
    + lia.
    + lia.
  - clear. induction keys as [|k keys IH]; [reflexivity | exact IH].
  - intros st. split_and!; reflexivity.
Qed.

Lemma C2_cache_counters_witness :
  let keys := [mkColorKey 255 0 0 false; mkColorKey 255 0 0 true; mkColorKey 0 0 255 false] in
  let M := Z.of_nat (length keys) in
  let D := Z.of_nat (length (remove_dups (key_rgb <$> keys))) in
  (let st1 := lookups keys (fresh COLOR_24BIT) in
   let st2 := lookups keys st1 in
   misses (cache_stats st1) = M ∧ hits (cache_stats st1) = 0
   ∧ hits (cache_stats st2) = M ∧ misses (cache_stats st2) = M)
  ∧ (let st1 := lookups keys (fresh COLOR_8BIT) in
     let st2 := lookups keys st1 in
     misses (cache_stats st1) = M + D ∧ hits (cache_stats st1) = M - D
     ∧ hits (cache_stats st2) = (M - D) + M ∧ misses (cache_stats st2) = M + D)
  ∧ lookups keys (fresh MONO) = fresh MONO
  ∧ (∀ st, cache_stats (clearColorCaches st) = mkCacheStats 0 0 0
           ∧ total_cache_size (clearColorCaches st) = 0
           ∧ color_cache_8bit (clearColorCaches st) = ∅
           ∧ color_cache_24bit (clearColorCaches st) = ∅
           ∧ rgb_to_8bit_cache (clearColorCaches st) = ∅).
Proof.
  apply (C2_cache_counters
           [mkColorKey 255 0 0 false; mkColorKey 255 0 0 true; mkColorKey 0 0 255 false]).
  - repeat (apply NoDup_cons; split; [set_solver |]). apply NoDup_nil_2.
  - repeat (apply Forall_cons; split; [unfold key_ok, is_byte; simpl; lia |]).
    apply Forall_nil_2.
Defined.

(* ===================================================================== *)
(** * Binary64 arithmetic on the speed range *)
(* ===================================================================== *)

Lemma digits2_pos_size (p : positive) : digits2_pos p = Pos.size p.
Proof. induction p as [p IH | p IH |]; simpl; by rewrite ?IH. Qed.

(** [p] has [digits2_pos p] binary digits. *)
Lemma digits2_pos_bounds (p : positive) :
  2 ^ (Zpos (digits2_pos p) - 1) ≤ Zpos p < 2 ^ Zpos (digits2_pos p).
Proof.
  induction p as [p IH | p IH |].
  - cbn [digits2_pos]. rewrite Pos2Z.inj_succ.
    replace (Z.succ (Zpos (digits2_pos p)) - 1) with (Zpos (digits2_pos p) - 1 + 1) by lia.
    rewrite Z.pow_succ_r, Z.pow_add_r by lia. lia.
  - cbn [digits2_pos]. rewrite Pos2Z.inj_succ.
    replace (Z.succ (Zpos (digits2_pos p)) - 1) with (Zpos (digits2_pos p) - 1 + 1) by lia.
    rewrite Z.pow_succ_r, Z.pow_add_r by lia. lia.
  - simpl. lia.
Qed.

Lemma digits2_pos_unique (p : positive) (k : Z) :
  2 ^ (k - 1) ≤ Zpos p < 2 ^ k → Zpos (digits2_pos p) = k.
Proof.
  intros [Hlo Hhi]. pose proof (digits2_pos_bounds p) as [Hlo' Hhi'].
  assert (0 < k).
  { destruct (Z.lt_ge_cases 0 k); [done |].
    assert (2 ^ k ≤ 2 ^ 0) by (destruct (Z.eq_dec k 0) as [-> |];
      [lia | rewrite (Z.pow_neg_r 2 k) by lia; simpl; lia]).
    simpl in *. lia. }
  destruct (Z.lt_trichotomy (Zpos (digits2_pos p)) k) as [Hlt | [Heq | Hgt]]; [| done |].
  - assert (2 ^ Zpos (digits2_pos p) ≤ 2 ^ (k - 1)) by (apply Z.pow_le_mono_r; lia). lia.
  - assert (2 ^ k ≤ 2 ^ (Zpos (digits2_pos p) - 1)) by (apply Z.pow_le_mono_r; lia). lia.
Qed.

(** One right shift halves the mantissa. *)
Lemma shr_1_m (mrs : shr_record) : 0 ≤ shr_m mrs → shr_m (shr_1 mrs) = shr_m mrs / 2.
Proof.
  destruct mrs as [m r s]. simpl. intros Hm.
  destruct m as [|[p|p|]|p]; cbn [shr_m]; try lia; try reflexivity.
  - apply (Z.div_unique _ _ _ 1); lia.
  - apply (Z.div_unique _ _ _ 0); lia.
Qed.

Lemma iter_pos_nat {A : Type} (f : A → A) (n : positive) (x : A) :
  SpecFloat.iter_pos f n x = Nat.iter (Pos.to_nat n) f x.
Proof.
  revert x. induction n as [n IH | n IH |]; intros x; cbn [SpecFloat.iter_pos].
  - rewrite !IH, Pos2Nat.inj_xI, Nat.iter_succ_r.
    replace (2 * Pos.to_nat n)%nat with (Pos.to_nat n + Pos.to_nat n)%nat by lia.
    by rewrite Nat.iter_add.
  - rewrite !IH, Pos2Nat.inj_xO.
    replace (2 * Pos.to_nat n)%nat with (Pos.to_nat n + Pos.to_nat n)%nat by lia.
    by rewrite Nat.iter_add.
  - reflexivity.
Qed.

Lemma iter_shr_1_m (n : nat) (mrs : shr_record) :
  0 ≤ shr_m mrs →
  shr_m (Nat.iter n shr_1 mrs) = shr_m mrs / 2 ^ Z.of_nat n
  ∧ 0 ≤ shr_m (Nat.iter n shr_1 mrs).
Proof.
  intros Hm. induction n as [|n [IH IH0]].
  - simpl. rewrite Z.div_1_r. done.
  - rewrite Nat.iter_succ. rewrite shr_1_m by exact IH0. rewrite IH.
    assert (0 < 2 ^ Z.of_nat n) by (apply Z.pow_pos_nonneg; lia).
    rewrite Nat2Z.inj_succ, Z.pow_succ_r by lia.
    rewrite Z.div_div by lia.
    split; [f_equal; lia | apply Z.div_pos; lia].
Qed.

(** The mantissa after [shr] by [n] places. *)
Lemma shr_m_shift (mrs : shr_record) (e n : Z) :
  0 ≤ shr_m mrs → 0 ≤ n →
  shr_m (fst (shr mrs e n)) = shr_m mrs / 2 ^ n ∧ snd (shr mrs e n) = e + n.
Proof.
  intros Hm Hn. unfold shr. destruct n as [|p|p]; simpl; [| | lia].
  - rewrite Z.div_1_r. split; [done | lia].
  - rewrite iter_pos_nat.
    destruct (iter_shr_1_m (Pos.to_nat p) mrs Hm) as [H _].
    rewrite H, positive_nat_Z. done.
Qed.

Lemma shr_record_of_loc_m (m : Z) (l : location) : shr_m (shr_record_of_loc m l) = m.
Proof. destruct l as [|[]]; reflexivity. Qed.

(** Rounding to nearest keeps the truncated mantissa or adds one. *)
Lemma round_nearest_even_bounds (mx : Z) (lx : location) :
  mx ≤ round_nearest_even mx lx ≤ mx + 1.
Proof.
  unfold round_nearest_even. destruct lx as [|[]]; try lia.
  destruct (Z.even mx); lia.
Qed.

Lemma fexp64 (x : Z) : -1021 ≤ x → fexp B64.prec B64.emax x = x - 53.
Proof. unfold fexp, emin, B64.prec, B64.emax. lia. Qed.

(** Rounding a positive mantissa of [53 + n] digits in binary64, away
    from the subnormal and overflow ranges: the result is finite with a
    53-digit mantissa; either the exponent grows by [n] and the mantissa
    is the truncated one or its successor, or the successor carried into
    a 54th digit and the result is the next power of two. *)
Lemma round_aux64 (mx : positive) (ex n : Z) (lx : location) :
  0 ≤ n → 2 ^ (52 + n) ≤ Zpos mx < 2 ^ (53 + n) →
  -1074 ≤ ex + n → ex + n + 1 ≤ 971 →
  ∃ (m' : positive) (e' : Z),
    binary_round_aux B64.prec B64.emax false (Zpos mx) ex lx = S754_finite false m' e'
    ∧ 2 ^ 52 ≤ Zpos m' < 2 ^ 53
    ∧ ((e' = ex + n ∧ Zpos mx / 2 ^ n ≤ Zpos m' ≤ Zpos mx / 2 ^ n + 1)
       ∨ (e' = ex + n + 1 ∧ Zpos m' = 2 ^ 52)).
Proof.
  intros Hn Hmx Hlo Hhi.
  assert (Hd : Zdigits2 (Zpos mx) = 53 + n).
  { simpl. apply digits2_pos_unique.
    replace (53 + n - 1) with (52 + n) by lia. exact Hmx. }
  assert (Hpow : 0 < 2 ^ n) by (apply Z.pow_pos_nonneg; lia).
  assert (Hq : 2 ^ 52 ≤ Zpos mx / 2 ^ n < 2 ^ 53).
  { rewrite !Z.pow_add_r in Hmx by lia. split.
    - apply Z.div_le_lower_bound; lia.
    - apply Z.div_lt_upper_bound; lia. }
  unfold binary_round_aux, shr_fexp. rewrite Hd, fexp64 by lia.
  replace (53 + n + ex - 53 - ex) with n by lia.
  destruct (shr_m_shift (shr_record_of_loc (Zpos mx) lx) ex n) as [Hm He];
    [rewrite shr_record_of_loc_m; lia | lia |].
  rewrite shr_record_of_loc_m in Hm.
  destruct (shr (shr_record_of_loc (Zpos mx) lx) ex n) as [mrs' e1].
  simpl in Hm, He. subst e1.
  pose proof (round_nearest_even_bounds (shr_m mrs') (loc_of_shr_record mrs')) as Hr.
  set (m1 := round_nearest_even (shr_m mrs') (loc_of_shr_record mrs')) in *.
  rewrite Hm in Hr.
  destruct (Z.lt_ge_cases m1 (2 ^ 53)) as [Hlt | Hge].
  - destruct m1 as [|p1|p1] eqn:E1; [lia | | lia].
    assert (Hd1 : Zdigits2 (Zpos p1) = 53)
      by (simpl; apply digits2_pos_unique; simpl; lia).
    rewrite Hd1, fexp64 by lia.
    replace (53 + (ex + n) - 53 - (ex + n)) with 0 by lia.
    cbn [shr shr_record_of_loc shr_m].
    destruct (Z.leb_spec (ex + n) (B64.emax - B64.prec));
      [| unfold B64.emax, B64.prec in *; lia].
    exists p1, (ex + n). split; [reflexivity |]. split; [lia |]. left. lia.
  - assert (E1 : m1 = 9007199254740992) by lia. rewrite E1.
    change (Zdigits2 9007199254740992) with 54. rewrite fexp64 by lia.
    replace (54 + (ex + n) - 53 - (ex + n)) with 1 by lia.
    cbn [shr shr_record_of_loc shr_m SpecFloat.iter_pos shr_1].
    destruct (Z.leb_spec (ex + n + 1) (B64.emax - B64.prec));
      [| unfold B64.emax, B64.prec in *; lia].
    exists 4503599627370496%positive, (ex + n + 1).
    split; [reflexivity |]. split; [lia |]. right. lia.
Qed.

(** Order on positive finite numbers: exponents first, then mantissas. *)
Lemma leb_finite_pos (m1 : positive) (e1 : Z) (m2 : positive) (e2 : Z) :
  SFleb (S754_finite false m1 e1) (S754_finite false m2 e2) = true
  ↔ e1 < e2 ∨ (e1 = e2 ∧ Zpos m1 ≤ Zpos m2).
Proof.
  unfold SFleb, SFcompare.
  destruct (Z.compare_spec e1 e2) as [He | He | He].
  - change (Pos.compare_cont Eq m1 m2) with (Pos.compare m1 m2).
    destruct (Pos.compare_spec m1 m2); split; intros Hx; try done; lia.
  - split; [intros _; by left | done].
  - split; [done | lia].
Qed.

Lemma ltb_finite_pos (m1 : positive) (e1 : Z) (m2 : positive) (e2 : Z) :
  SFltb (S754_finite false m1 e1) (S754_finite false m2 e2) = true
  ↔ e1 < e2 ∨ (e1 = e2 ∧ Zpos m1 < Zpos m2).
Proof.
  unfold SFltb, SFcompare.
  destruct (Z.compare_spec e1 e2) as [He | He | He].
  - change (Pos.compare_cont Eq m1 m2) with (Pos.compare m1 m2).
    destruct (Pos.compare_spec m1 m2); split; intros Hx; try done; lia.
  - split; [intros _; by left | done].
  - split; [done | lia].
Qed.

(** The three constants of the speed keys. *)
Lemma lit_1_5 : B64.lit 15 10 = S754_finite false 6755399441055744 (-52).
Proof. vm_compute. reflexivity. Qed.

Lemma lit_0_2 : B64.lit 2 10 = S754_finite false 7205759403792794 (-55).
Proof. vm_compute. reflexivity. Qed.

Lemma lit_5 : B64.of_int 5 = S754_finite false 5629499534213120 (-50).
Proof. vm_compute. reflexivity. Qed.

Lemma valid64_normal (m : positive) (e : Z) :
  -1000 ≤ e ≤ 971 →
  B64.valid (S754_finite false m e) = true ↔ 2 ^ 52 ≤ Zpos m < 2 ^ 53.
Proof.
  intros He. unfold B64.valid, valid_binary, bounded, canonical_mantissa.
  pose proof (digits2_pos_bounds m) as Hb.
  assert (Hd : 0 < Zpos (digits2_pos m)) by lia.
  rewrite fexp64 by lia.
  rewrite andb_true_iff, Z.eqb_eq, Z.leb_le. unfold B64.emax, B64.prec.
  split.
  - intros [Hc _]. assert (Zpos (digits2_pos m) = 53) as Hd53 by lia.
    rewrite Hd53 in Hb. simpl in Hb. lia.
  - intros Hm. rewrite (digits2_pos_unique m 53) by (simpl; lia). lia.
Qed.

Lemma speed_ok_range (v : spec_float) :
  speed_ok v = true ↔ ∃ m e, v = S754_finite false m e ∧ speed_range m e.
Proof.
  unfold speed_ok, B64.leb. rewrite lit_0_2, lit_5. split.
  - intros H. apply andb_true_iff in H as [H H5].
    apply andb_true_iff in H as [Hv H2].
    destruct v as [[] | [] | | [] m e]; try discriminate.
    apply leb_finite_pos in H2, H5.
    assert (He : -55 ≤ e ≤ -50) by lia.
    apply valid64_normal in Hv; [| lia].
    exists m, e. split; [done |]. unfold speed_range. lia.
  - intros (m & e & -> & Hm & He & Hlo & Hhi).
    rewrite !andb_true_iff. split_and!.
    + apply valid64_normal; lia.
    + apply leb_finite_pos. lia.
    + apply leb_finite_pos. lia.
Qed.

(** [v * 1.5] for [v] in the range: a normal number that is not below [v]. *)
Lemma mul_1_5_range (m : positive) (e : Z) :
  speed_range m e →
  ∃ (m' : positive) (e' : Z),
    B64.mul (S754_finite false m e) (B64.lit 15 10) = S754_finite false m' e'
    ∧ 2 ^ 52 ≤ Zpos m' < 2 ^ 53
    ∧ e ≤ e' ≤ e + 2
    ∧ (e' = e → Zpos m ≤ Zpos m').
Proof.
  intros (Hm & He & _ & _). rewrite lit_1_5.
  unfold B64.mul, SFmul. cbn [xorb].
  set (M := (m * 6755399441055744)%positive).
  assert (HM : Zpos M = Zpos m * 6755399441055744) by (subst M; apply Pos2Z.inj_mul).
  change (2 ^ 52) with 4503599627370496 in Hm.
  change (2 ^ 53) with 9007199254740992 in Hm.
  destruct (Z.lt_ge_cases (Zpos M) (2 ^ 105)) as [Hlt | Hge].
  - destruct (round_aux64 M (e + -52) 52 loc_Exact) as (m' & e' & Hr & Hm' & Hcase);
      [lia | | lia | lia |].
    { change (2 ^ (52 + 52)) with 20282409603651670423947251286016.
      change (2 ^ (53 + 52)) with (2 ^ 105). lia. }
    exists m', e'. split; [exact Hr |]. split; [exact Hm' |].
    destruct Hcase as [[He' Hq] | [He' Hq]]; [| lia].
    split; [lia |]. intros _.
    assert (Zpos m ≤ Zpos M / 2 ^ 52); [| lia].
    apply Z.div_le_lower_bound; [lia |].
    change (2 ^ 52) with 4503599627370496. lia.
  - destruct (round_aux64 M (e + -52) 53 loc_Exact) as (m' & e' & Hr & Hm' & Hcase);
      [lia | | lia | lia |].
    { change (2 ^ (52 + 53)) with (2 ^ 105).
      change (2 ^ (53 + 53)) with 81129638414606681695789005144064. lia. }
    exists m', e'. split; [exact Hr |]. split; [exact Hm' |].
    destruct Hcase as [[He' Hq] | [He' Hq]]; lia.
Qed.

(** [SFdiv_core_binary] for a normal dividend and the divisor 1.5. *)
Lemma div_core_1_5 (m : positive) (e : Z) :
  2 ^ 52 ≤ Zpos m < 2 ^ 53 → -1000 ≤ e ≤ 900 →
  SFdiv_core_binary B64.prec B64.emax (Zpos m) e 6755399441055744 (-52)
  = (Zpos m * 2 ^ 53 / 6755399441055744, e - 1,
     new_location 6755399441055744 (Zpos m * 2 ^ 53 mod 6755399441055744)).
Proof.
  intros Hm He. unfold SFdiv_core_binary.
  assert (Hd : Zdigits2 (Zpos m) = 53) by (simpl; apply digits2_pos_unique; simpl; lia).
  rewrite Hd. change (Zdigits2 6755399441055744) with 53.
  rewrite fexp64 by lia.
  replace (Z.min (53 + e - (53 + -52) - 53) (e - -52)) with (e - 1) by lia.
  replace (e - -52 - (e - 1)) with 53 by lia.
  rewrite Z.shiftl_mul_pow2 by lia.
  unfold Z.div, Z.modulo.
  destruct (Z.div_eucl (Zpos m * 2 ^ 53) 6755399441055744) as [q r]. reflexivity.
Qed.

(** [v / 1.5] for [v] in the range: a normal number that is not above 5.0. *)
Lemma div_1_5_range (m : positive) (e : Z) :
  speed_range m e →
  ∃ (m' : positive) (e' : Z),
    B64.div (S754_finite false m e) (B64.lit 15 10) = S754_finite false m' e'
    ∧ 2 ^ 52 ≤ Zpos m' < 2 ^ 53
    ∧ e - 1 ≤ e' ≤ -50
    ∧ (e' = -50 → Zpos m' ≤ 5629499534213120).
Proof.
  intros (Hm & He & _ & Hhi). rewrite lit_1_5.
  unfold B64.div, SFdiv. cbn [xorb].
  rewrite div_core_1_5 by (try exact Hm; lia).
  change (2 ^ 52) with 4503599627370496 in Hm.
  change (2 ^ 53) with 9007199254740992 in Hm.
  set (q := Zpos m * 2 ^ 53 / 6755399441055744).
  set (l := new_location _ _).
  assert (Hq : 2 ^ 52 ≤ q < 2 ^ 54).
  { subst q. change (2 ^ 52) with 4503599627370496.
    change (2 ^ 53) with 9007199254740992.
    change (2 ^ 54) with 18014398509481984. split.
    - apply Z.div_le_lower_bound; lia.
    - apply Z.div_lt_upper_bound; lia. }
  assert (Hq50 : e = -50 → q < 2 ^ 53).
  { intros E. specialize (Hhi E). subst q.
    change (2 ^ 53) with 9007199254740992.
    apply Z.div_lt_upper_bound; lia. }
  destruct q as [|qp|qp] eqn:Eq; [simpl in Hq; lia | | simpl in Hq; lia].
  destruct (Z.lt_ge_cases (Zpos qp) (2 ^ 53)) as [Hlt | Hge].
  - destruct (round_aux64 qp (e - 1) 0 l) as (m' & e' & Hr & Hm' & Hcase);
      [lia | | lia | lia |].
    { change (2 ^ (52 + 0)) with (2 ^ 52). change (2 ^ (53 + 0)) with (2 ^ 53). lia. }
    exists m', e'. split; [exact Hr |]. split; [exact Hm' |].
    change (2 ^ 52) with 4503599627370496 in Hcase.
    destruct Hcase as [[He' _] | [He' Hq']]; lia.
  - destruct (round_aux64 qp (e - 1) 1 l) as (m' & e' & Hr & Hm' & Hcase);
      [lia | | lia | lia |].
    { change (2 ^ (52 + 1)) with (2 ^ 53). change (2 ^ (53 + 1)) with (2 ^ 54). lia. }
    exists m', e'. split; [exact Hr |]. split; [exact Hm' |].
    change (2 ^ 52) with 4503599627370496 in Hcase.
    destruct Hcase as [[He' _] | [He' Hq']]; lia.
Qed.

(** ** The speed keys *)

(** [std::min(speed_multiplier * 1.5, 5.0)] stays in the range. *)
Lemma speed_up_ok (v : spec_float) :
  speed_ok v = true →
  speed_ok (std_min (B64.mul v (B64.lit 15 10)) (B64.of_int 5)) = true.
Proof.
  intros Hv. apply speed_ok_range in Hv as (m & e & -> & Hr).
  destruct (mul_1_5_range m e Hr) as (m' & e' & Hmul & Hm' & He' & Hsame).
  destruct Hr as (Hm & He & Hlo & Hhi).
  rewrite Hmul. unfold std_min, B64.ltb. rewrite lit_5.
  destruct (SFltb _ _) eqn:Hlt.
  - rewrite <- lit_5. vm_compute. reflexivity.
  - apply speed_ok_range. exists m', e'. split; [done |].
    assert (Hnlt : ¬ (-50 < e' ∨ -50 = e' ∧ 5629499534213120 < Zpos m')).
    { intros H. apply ltb_finite_pos in H. congruence. }
    unfold speed_range. split_and!; try lia.
Qed.

(** [std::max(speed_multiplier / 1.5, 0.2)] stays in the range. *)
Lemma slow_down_ok (v : spec_float) :
  speed_ok v = true →
  speed_ok (std_max (B64.div v (B64.lit 15 10)) (B64.lit 2 10)) = true.
Proof.
  intros Hv. apply speed_ok_range in Hv as (m & e & -> & Hr).
  destruct (div_1_5_range m e Hr) as (m' & e' & Hdiv & Hm' & He' & Hfive).
  destruct Hr as (Hm & He & Hlo & Hhi).
  rewrite Hdiv. unfold std_max, B64.ltb. rewrite lit_0_2.
  destruct (SFltb _ _) eqn:Hlt.
  - rewrite <- lit_0_2. vm_compute. reflexivity.
  - apply speed_ok_range. exists m', e'. split; [done |].
    assert (Hnlt : ¬ (e' < -55 ∨ e' = -55 ∧ Zpos m' < 7205759403792794)).
    { intros H. apply ltb_finite_pos in H. congruence. }
    unfold speed_range. split_and!; try lia.
Qed.

(** No key takes the speed out of the range. *)
Lemma video_key_speed_ok (term : TerminalSize) (key : ascii) (s s' : VideoLoop) :
  speed_ok (speed_multiplier s) = true → video_key term key s = Some s' →
  speed_ok (speed_multiplier s') = true.
Proof.
  intros Hs. unfold video_key.
  repeat (destruct (key_in key _); [intros [= <-] || intros [=] |]);
    try done; simpl.
  - by apply speed_up_ok.
  - by apply slow_down_ok.
  - unfold toggle_fullscreen. by destruct (negb (fullscreen_mode s)).
  - by intros [= <-].
Qed.

Lemma video_keys_speed_ok (term : TerminalSize) (keys : list ascii) (s s' : VideoLoop) :
  speed_ok (speed_multiplier s) = true → video_keys term keys s = Some s' →
  speed_ok (speed_multiplier s') = true.
Proof.
  revert s. induction keys as [|key keys IH]; intros s Hs; simpl.
  - by intros [= <-].
  - destruct (video_key term key s) as [s1|] eqn:E; [| done].
    apply IH. by apply (video_key_speed_ok term key s s1).
Qed.

(** The speed keys never end the loop. *)
Lemma video_key_speed_total (term : TerminalSize) (key : ascii) (s : VideoLoop) :
  key ∈ speed_keys → is_Some (video_key term key s).
Proof.
  intros H. unfold speed_keys in H.
  repeat (apply elem_of_cons in H as [-> | H]; [by eexists |]).
  by apply elem_of_nil in H.
Qed.

(** C8.  Starting from a [double] speed between 0.2 and 5.0, any finite
    sequence of '+', '=', '-' and '_' keystrokes is processed to the end
    and leaves a speed between 0.2 and 5.0: [min(speed * 1.5, 5.0)] never
    exceeds 5.0 nor falls below 0.2, and [max(speed / 1.5, 0.2)] never
    falls below 0.2 nor exceeds 5.0, in binary64 arithmetic. *)
Theorem C8_speed_stays_in_range (term : TerminalSize) (keys : list ascii) (s : VideoLoop) :
  B64.valid (speed_multiplier s) = true →
  B64.leb (B64.lit 2 10) (speed_multiplier s) = true →
  B64.leb (speed_multiplier s) (B64.of_int 5) = true →
  Forall (fun key => key ∈ speed_keys) keys →
  ∃ s', video_keys term keys s = Some s'
        ∧ B64.valid (speed_multiplier s') = true
        ∧ B64.leb (B64.lit 2 10) (speed_multiplier s') = true
        ∧ B64.leb (speed_multiplier s') (B64.of_int 5) = true.
Proof.
  intros Hv Hlo Hhi Hkeys.
  assert (Hs : speed_ok (speed_multiplier s) = true)
    by (unfold speed_ok; by rewrite Hv, Hlo, Hhi).
  clear Hv Hlo Hhi.
  assert (Htotal : ∃ s', video_keys term keys s = Some s').
  { revert s Hs. induction Hkeys as [|key keys Hkey _ IH]; intros s Hs; simpl.
    - by eexists.
    - destruct (video_key_speed_total term key s Hkey) as [s1 E]. rewrite E.
      apply IH. by apply (video_key_speed_ok term key s s1). }
  destruct Htotal as [s' E]. exists s'. split; [exact E |].
  pose proof (video_keys_speed_ok term keys s s' Hs E) as H.
  unfold speed_ok in H. apply andb_true_iff in H as [H H5].
  apply andb_true_iff in H as [Hv H2]. done.
Qed.

Lemma C8_speed_stays_in_range_witness :
  ∃ s', video_keys (mkTerminalSize 80 24) ["+"; "+"; "+"; "+"; "+"; "-"; "="; "_"]%char
          loop_playing = Some s'
        ∧ B64.valid (speed_multiplier s') = true
        ∧ B64.leb (B64.lit 2 10) (speed_multiplier s') = true
        ∧ B64.leb (speed_multiplier s') (B64.of_int 5) = true.
Proof.
  apply (C8_speed_stays_in_range (mkTerminalSize 80 24)
           ["+"; "+"; "+"; "+"; "+"; "-"; "="; "_"]%char loop_playing).
  - reflexivity.
  - reflexivity.
  - reflexivity.
  - repeat (apply Forall_cons; split; [unfold speed_keys; set_solver |]).
    apply Forall_nil_2.
Defined.

(* ===================================================================== *)
(** * Further properties of the colour caches *)
(* ===================================================================== *)

(** ** Keys *)

Lemma ColorKeyHasher_value (k : ColorKey) :
  key_ok k →
  ColorKeyHasher k =
  ((key_r k * 256 + key_g k) * 256 + key_b k) * 256 + (if key_background k then 1 else 0).
Proof.
  intros (Hr & Hg & Hb). unfold is_byte in *. unfold ColorKeyHasher, wrap64.
  rewrite (Z.mod_small (key_r k)), (Z.mod_small (key_g k)), (Z.mod_small (key_b k)) by lia.
  rewrite !Z.shiftl_mul_pow2 by lia.
  rewrite !Z.mod_small by lia.
  replace (key_r k * 2 ^ 24) with (key_r k * 256 * 2 ^ 16) by lia.
  rewrite <- !Z.shiftl_mul_pow2 by lia.
  rewrite <- Z.shiftl_lor, lor_low_byte by lia.
  replace (Z.shiftl (key_r k * 256 + key_g k) 16)
    with (Z.shiftl ((key_r k * 256 + key_g k) * 256) 8)
    by (rewrite !Z.shiftl_mul_pow2 by lia; lia).
  rewrite <- Z.shiftl_lor, lor_low_byte by lia.
  rewrite Z.shiftl_mul_pow2 by lia. change (2 ^ 8) with 256.
  rewrite lor_low_byte by (destruct (key_background k); lia). reflexivity.
Qed.

(** X1.  On keys with byte channels the hash is the 32-bit number whose
    bytes are the three channels and the background flag: two keys have
    the same hash exactly when they are equal, and they are equal exactly
    when [operator==] says so. *)
Theorem X1_ColorKeyHasher_is_perfect (k k' : ColorKey) :
  key_ok k → key_ok k' →
  (ColorKeyHasher k = ColorKeyHasher k' ↔ k = k')
  ∧ (ColorKey_equal k k' = true ↔ k = k')
  ∧ 0 ≤ ColorKeyHasher k < 2 ^ 32.
Proof.
  intros Hk Hk'. rewrite !ColorKeyHasher_value by assumption.
  destruct Hk as (Hr & Hg & Hb), Hk' as (Hr' & Hg' & Hb').
  destruct k as [r g b bg], k' as [r' g' b' bg']. unfold is_byte in *. simpl in *.
  split_and!.
  - split; [| by intros [= -> -> -> ->]].
    intros H. assert (bg = bg') by (destruct bg, bg'; try done; lia). subst bg'.
    f_equal; destruct bg; lia.
  - unfold ColorKey_equal. simpl.
    rewrite !andb_true_iff, !Z.eqb_eq, eqb_true_iff.
    split; [intros [[[-> ->] ->] ->]; done | by intros [= -> -> -> ->]].
  - destruct bg; lia.
  - destruct bg; lia.
Qed.

Lemma X1_ColorKeyHasher_is_perfect_witness :
  (ColorKeyHasher (mkColorKey 255 0 0 false) = ColorKeyHasher (mkColorKey 255 0 0 true)
   ↔ mkColorKey 255 0 0 false = mkColorKey 255 0 0 true)
  ∧ (ColorKey_equal (mkColorKey 255 0 0 false) (mkColorKey 255 0 0 true) = true
     ↔ mkColorKey 255 0 0 false = mkColorKey 255 0 0 true)
  ∧ 0 ≤ ColorKeyHasher (mkColorKey 255 0 0 false) < 2 ^ 32.
Proof.
  apply (X1_ColorKeyHasher_is_perfect (mkColorKey 255 0 0 false) (mkColorKey 255 0 0 true));
    unfold key_ok, is_byte; simpl; lia.
Defined.

(** X2.  On byte channels [packRGB] is [r * 65536 + g * 256 + b], a
    24-bit number, and two triples are packed alike only when they are
    the same triple. *)
Theorem X2_packRGB_is_injective (r g b r' g' b' : Z) :
  is_byte r → is_byte g → is_byte b → is_byte r' → is_byte g' → is_byte b' →
  packRGB r g b = r * 65536 + g * 256 + b
  ∧ 0 ≤ packRGB r g b < 2 ^ 24
  ∧ (packRGB r g b = packRGB r' g' b' ↔ r = r' ∧ g = g' ∧ b = b').
Proof.
  intros Hr Hg Hb Hr' Hg' Hb'. split_and!.
  - by apply packRGB_bytes.
  - rewrite packRGB_bytes by assumption. unfold is_byte in *. lia.
  - rewrite packRGB_bytes by assumption. unfold is_byte in *. lia.
  - split; [by apply packRGB_inj | by intros (-> & -> & ->)].
Qed.

Lemma X2_packRGB_is_injective_witness :
  packRGB 1 2 3 = 1 * 65536 + 2 * 256 + 3
  ∧ 0 ≤ packRGB 1 2 3 < 2 ^ 24
  ∧ (packRGB 1 2 3 = packRGB 3 2 1 ↔ 1 = 3 ∧ 2 = 2 ∧ 3 = 1).
Proof.
  apply (X2_packRGB_is_injective 1 2 3 3 2 1); unfold is_byte; lia.
Defined.

(** ** The palette index *)

Lemma cube_level_checked : forallb (fun c => cube_level c =? c / 51) (seqZ 0 256) = true.
Proof. vm_compute. reflexivity. Qed.

Lemma cube_level_spec (c : Z) : is_byte c → cube_level c = c / 51.
Proof.
  intros [Hlo Hhi].
  pose proof (forallb_seqZ _ _ cube_level_checked c ltac:(lia)) as H.
  simpl in H. lia.
Qed.

(** X3.  Every colour with byte channels gets a palette index between 16
    and 255.  A colour whose channels are not all equal lands in the
    6 x 6 x 6 cube, at [16 + 36 * (r / 51) + 6 * (g / 51) + b / 51], which
    is at most 230; a channel reaches the top level 5 only at 255. *)
Theorem X3_palette_index_range (r g b : Z) :
  is_byte r → is_byte g → is_byte b →
  16 ≤ rgbTo8BitColor r g b ≤ 255
  ∧ (¬ (r = g ∧ g = b) →
     rgbTo8BitColor r g b = 16 + 36 * (r / 51) + 6 * (g / 51) + b / 51
     ∧ rgbTo8BitColor r g b ≤ 230)
  ∧ (cube_level r = 5 ↔ r = 255).
Proof.
  intros Hr Hg Hb.
  assert (Hdiv : ∀ c, is_byte c → 0 ≤ c / 51 ≤ 5 ∧ (c / 51 = 5 ↔ c = 255)).
  { intros c [Hc0 Hc1]. split; [split|split].
    - apply Z.div_pos; lia.
    - apply Z.div_le_upper_bound; lia.
    - intros H5. assert (51 * (c / 51) ≤ c) by (apply Z.mul_div_le; lia). lia.
    - intros ->. reflexivity. }
  destruct (Hdiv r Hr) as [Hr5 Hr255], (Hdiv g Hg) as [Hg5 Hg255],
    (Hdiv b Hb) as [Hb5 Hb255].
  unfold rgbTo8BitColor. rewrite !cube_level_spec by assumption.
  split_and!.
  - destruct ((r =? g) && (g =? b)) eqn:E.
    + destruct (gray_index_spec r Hr) as (Hset & _). lia.
    + lia.
  - destruct ((r =? g) && (g =? b)) eqn:E.
    + destruct (gray_index_spec r Hr) as (Hset & _). lia.
    + lia.
  - intros Hne.
    destruct ((r =? g) && (g =? b)) eqn:E.
    + apply andb_true_iff in E as [E1 E2]. apply Z.eqb_eq in E1, E2. tauto.
    + split; [reflexivity |].
      assert (¬ (r / 51 = 5 ∧ g / 51 = 5 ∧ b / 51 = 5)) by (intros (? & ? & ?); lia).
      lia.
  - exact Hr255.
Qed.

Lemma X3_palette_index_range_witness :
  16 ≤ rgbTo8BitColor 255 128 0 ≤ 255
  ∧ (¬ (255 = 128 ∧ 128 = 0) →
     rgbTo8BitColor 255 128 0 = 16 + 36 * (255 / 51) + 6 * (128 / 51) + 0 / 51
     ∧ rgbTo8BitColor 255 128 0 ≤ 230)
  ∧ (cube_level 255 = 5 ↔ 255 = 255).
Proof.
  apply (X3_palette_index_range 255 128 0); unfold is_byte; lia.
Defined.

(** ** Lookups *)

(** X4.  Looking a colour up twice in a row: the second lookup returns
    the text of the first and leaves the three caches as the first left
    them.  In a coloured mode the second lookup is a hit, whatever the
    first one was; in monochrome both return the empty text and nothing
    is counted. *)
Theorem X4_second_lookup_hits (r g b : Z) (background : bool) (st : Player) :
  let '(code1, st1) := getColorCodeCached r g b background st in
  let '(code2, st2) := getColorCodeCached r g b background st1 in
  code2 = code1
  ∧ caches st2 = caches st1
  ∧ (is_mono (current_color_mode st) = false → st2 = hit st1)
  ∧ (is_mono (current_color_mode st) = true → code1 = EmptyString ∧ st2 = st).
Proof.
  unfold getColorCodeCached.
  destruct (current_color_mode st) eqn:Em.
  - simpl. rewrite Em. simpl. done.
  - destruct (color_cache_8bit st !! _) as [code|] eqn:E.
    + cbn [hit with_stats current_color_mode color_cache_8bit]. rewrite Em, E.
      simpl. done.
    + pose proof (rgbTo8BitColorCached_mode r g b (miss st)) as Hm.
      destruct (rgbTo8BitColorCached r g b (miss st)) as [color st2].
      simpl in Hm. cbn [update_cache_size with_stats current_color_mode color_cache_8bit].
      rewrite Hm. cbn [miss with_stats current_color_mode]. rewrite Em.
      rewrite lookup_insert_eq. simpl. done.
  - destruct (color_cache_24bit st !! _) as [code|] eqn:E.
    + cbn [hit with_stats current_color_mode color_cache_24bit]. rewrite Em, E.
      simpl. done.
    + cbn [update_cache_size miss with_stats current_color_mode color_cache_24bit].
      rewrite Em, lookup_insert_eq. simpl. done.
Qed.

(** ** Reachable states *)

Lemma stats_synced_stats (st : Player) (h m : Z) :
  stats_synced st →
  stats_synced (with_stats st (mkCacheStats h m (cache_size (cache_stats st)))).
Proof. unfold stats_synced, total_cache_size. by destruct st. Qed.

Lemma stats_synced_update (st : Player) : stats_synced (update_cache_size st).
Proof. unfold stats_synced, update_cache_size, total_cache_size. by destruct st. Qed.

Lemma getColorCodeCached_synced (r g b : Z) (bg : bool) (st : Player) :
  stats_synced st → stats_synced (snd (getColorCodeCached r g b bg st)).
Proof.
  intros Hs. unfold getColorCodeCached.
  destruct (current_color_mode st); [done | |].
  - destruct (color_cache_8bit st !! _); [by apply stats_synced_stats |].
    destruct (rgbTo8BitColorCached r g b (miss st)) as [color st2].
    apply stats_synced_update.
  - destruct (color_cache_24bit st !! _); [by apply stats_synced_stats |].
    apply stats_synced_update.
Qed.

Lemma setColorMode_synced (mode : ColorMode) (st : Player) :
  stats_synced st → stats_synced (setColorMode mode st).
Proof.
  intros Hs. unfold setColorMode. case_decide; [done | apply stats_synced_update].
Qed.

Lemma rgbTo8BitColorCached_caches (r g b : Z) (st : Player) :
  color_cache_8bit (snd (rgbTo8BitColorCached r g b st)) = color_cache_8bit st
  ∧ color_cache_24bit (snd (rgbTo8BitColorCached r g b st)) = color_cache_24bit st.
Proof.
  unfold rgbTo8BitColorCached. by destruct (rgb_to_8bit_cache st !! _).
Qed.

Lemma getColorCodeCached_isolated (r g b : Z) (bg : bool) (st : Player) :
  other_modes_empty st → other_modes_empty (snd (getColorCodeCached r g b bg st)).
Proof.
  intros [H8 H24]. unfold other_modes_empty.
  rewrite getColorCodeCached_mode. unfold getColorCodeCached.
  destruct (current_color_mode st) eqn:Em; [done | |].
  - destruct (color_cache_8bit st !! _); [done |].
    destruct (rgbTo8BitColorCached_caches r g b (miss st)) as [_ Hc24].
    destruct (rgbTo8BitColorCached r g b (miss st)) as [color st2].
    simpl in *. split; [done |]. intros _. rewrite Hc24. by apply H24.
  - destruct (color_cache_24bit st !! _); [done |].
    simpl. split; [| done]. intros _. by apply H8.
Qed.

Lemma setColorMode_isolated (mode : ColorMode) (st : Player) :
  other_modes_empty st → other_modes_empty (setColorMode mode st).
Proof.
  intros Hi. unfold setColorMode. case_decide; [done |].
  unfold other_modes_empty. simpl. split; intros Hm; repeat case_decide; done.
Qed.

Lemma reachable_inv (st : Player) :
  reachable st → stats_synced st ∧ other_modes_empty st ∧ caches_ok st.
Proof.
  induction 1 as [| st r g b bg _ (Hs & Hi & Hok) Hr Hg Hb
                  | st mode _ (Hs & Hi & Hok) | st _ _].
  - split_and!; [reflexivity | done | apply caches_ok_empty].
  - split_and!.
    + by apply getColorCodeCached_synced.
    + by apply getColorCodeCached_isolated.
    + by apply getColorCodeCached_ok.
  - split_and!.
    + by apply setColorMode_synced.
    + by apply setColorMode_isolated.
    + by apply caches_ok_setColorMode.
  - split_and!; [reflexivity | done | apply caches_ok_clear].
Qed.

(** X5.  In every state the player reaches, the [cache_size] statistic
    is the total number of entries in the three caches, the caches that
    do not belong to the current mode are empty, and every cached entry
    is the value a miss computes for its key. *)
Theorem X5_reachable_invariants (st : Player) :
  reachable st → stats_synced st ∧ other_modes_empty st ∧ caches_ok st.
Proof. exact (reachable_inv st). Qed.

Lemma reachable_after_two_lookups : reachable player_after_two_lookups.
Proof.
  unfold player_after_two_lookups.
  repeat (apply reach_lookup; [| unfold is_byte; lia ..]).
  apply reach_mode, reach_init.
Qed.

Lemma X5_reachable_invariants_witness :
  stats_synced player_after_two_lookups
  ∧ other_modes_empty player_after_two_lookups
  ∧ caches_ok player_after_two_lookups.
Proof.
  apply (X5_reachable_invariants player_after_two_lookups).
  exact reachable_after_two_lookups.
Defined.

(** X6.  Switching a reached player to another mode leaves all three
    caches empty and the size statistic at 0, and keeps the hit and miss
    counters; asking for the mode it is in changes nothing. *)
Theorem X6_mode_switch_empties_caches (mode : ColorMode) (st : Player) :
  reachable st →
  (mode = current_color_mode st → setColorMode mode st = st)
  ∧ (mode ≠ current_color_mode st →
     setColorMode mode st =
     mkPlayer mode ∅ ∅ ∅
       (mkCacheStats (hits (cache_stats st)) (misses (cache_stats st)) 0)).
Proof.
  intros Hr. destruct (reachable_inv st Hr) as (_ & [H8 H24] & _).
  unfold setColorMode. split; intros Hm.
  - case_decide; [done | congruence].
  - case_decide; [congruence |].
    destruct st as [m c8 c24 rgb stats]. simpl in *.
    destruct mode, m; try done;
      repeat case_decide; try done;
      try (destruct H8 as [-> ->]; [done |]); try (rewrite H24 by done);
      reflexivity.
Qed.

Lemma X6_mode_switch_empties_caches_witness :
  (COLOR_8BIT = current_color_mode player_after_two_lookups →
   setColorMode COLOR_8BIT player_after_two_lookups = player_after_two_lookups)
  ∧ (COLOR_8BIT ≠ current_color_mode player_after_two_lookups →
     setColorMode COLOR_8BIT player_after_two_lookups =
     mkPlayer COLOR_8BIT ∅ ∅ ∅
       (mkCacheStats (hits (cache_stats player_after_two_lookups))
                     (misses (cache_stats player_after_two_lookups)) 0)).
Proof.
  apply (X6_mode_switch_empties_caches COLOR_8BIT player_after_two_lookups).
  exact reachable_after_two_lookups.
Defined.

(** X7.  Three presses of the colour key, in either loop and in either
    case, bring the mode back to what it was; on the way every cache is
    emptied, the size statistic ends at 0, and the hit and miss counters
    and the rest of the loop state are as before. *)
Theorem X7_three_colour_keys (term : TerminalSize) (k1 k2 k3 : ascii) (s : VideoLoop) :
  k1 ∈ ["c"; "C"]%char → k2 ∈ ["c"; "C"]%char → k3 ∈ ["c"; "C"]%char →
  let st' := mkPlayer (current_color_mode (player s)) ∅ ∅ ∅
               (mkCacheStats (hits (cache_stats (player s)))
                             (misses (cache_stats (player s))) 0) in
  video_keys term [k1; k2; k3] s = Some (with_player s st')
  ∧ camera_keys term [k1; k2; k3] s = Some (with_player s st').
Proof.
  intros H1 H2 H3.
  assert (Hk : ∀ k, k ∈ ["c"; "C"]%char → k = "c"%char ∨ k = "C"%char).
  { intros k H. apply elem_of_cons in H as [-> | H]; [by left |].
    apply elem_of_cons in H as [-> | H]; [by right | by apply elem_of_nil in H]. }
  destruct s as [[m c8 c24 rgb [h mi cs]] bd sp fr pa bl fs fn tf bw bh ow oh].
  destruct (Hk k1 H1) as [-> | ->], (Hk k2 H2) as [-> | ->], (Hk k3 H3) as [-> | ->];
    destruct m; split; reflexivity.
Qed.

Lemma X7_three_colour_keys_witness :
  let s := loop_after_two_lookups in
  let st' := mkPlayer (current_color_mode (player s)) ∅ ∅ ∅
               (mkCacheStats (hits (cache_stats (player s)))
                             (misses (cache_stats (player s))) 0) in
  video_keys (mkTerminalSize 80 24) ["c"; "C"; "c"]%char s = Some (with_player s st')
  ∧ camera_keys (mkTerminalSize 80 24) ["c"; "C"; "c"]%char s = Some (with_player s st').
Proof.
  apply (X7_three_colour_keys (mkTerminalSize 80 24) "c" "C" "c" loop_after_two_lookups);
    set_solver.
Defined.

(* ===================================================================== *)
(** * Further properties of the renderer *)
(* ===================================================================== *)

(** ** The brightness table *)

Lemma brightness_table_lookup (b : Z) :
  0 ≤ b ≤ 255 → brightness_to_char_idx !! Z.to_nat b = Some (b * 69 / 255).
Proof.
  intros Hb. unfold brightness_to_char_idx.
  rewrite list_lookup_fmap, lookup_seqZ_lt by lia. simpl.
  f_equal. rewrite Z2Nat.id by lia. reflexivity.
Qed.

Lemma string_get_some (n : nat) (s : string) :
  (n < String.length s)%nat → ∃ c, String.get n s = Some c.
Proof.
  revert n. induction s as [|x s IH]; intros n Hn; simpl in Hn; [lia |].
  destruct n as [|n]; simpl; [by eexists | apply IH; lia].
Qed.

(** X8.  The brightness table has 256 entries; entry [b] is
    [b * 69 / 255], so the entries grow with [b] from 0 to 69, never
    leave the 70 glyphs of the ramp, and every brightness 0..255 is drawn
    as exactly one glyph: a space for 0 and the densest glyph for 255. *)
Theorem X8_brightness_table (a b : Z) :
  0 ≤ a → a ≤ b → b ≤ 255 →
  length brightness_to_char_idx = 256%nat
  ∧ brightness_to_char_idx !! Z.to_nat a = Some (a * 69 / 255)
  ∧ brightness_to_char_idx !! Z.to_nat b = Some (b * 69 / 255)
  ∧ 0 ≤ a * 69 / 255 ∧ a * 69 / 255 ≤ b * 69 / 255
  ∧ b * 69 / 255 < Z.of_nat (String.length ASCII_CHARS)
  ∧ String.length (glyph_at b) = 1%nat
  ∧ glyph_at 0 = " " ∧ glyph_at 255 = "$".
Proof.
  intros Ha Hab Hb.
  assert (Hub : b * 69 / 255 ≤ 69) by (apply Z.div_le_upper_bound; lia).
  assert (Hlb : 0 ≤ b * 69 / 255) by (apply Z.div_pos; lia).
  split_and!.
  - reflexivity.
  - apply brightness_table_lookup. lia.
  - apply brightness_table_lookup. lia.
  - apply Z.div_pos; lia.
  - apply Z.div_le_mono; lia.
  - change (Z.of_nat (String.length ASCII_CHARS)) with 70. lia.
  - unfold glyph_at. rewrite brightness_table_lookup by lia. simpl default.
    destruct (string_get_some (Z.to_nat (b * 69 / 255)) ASCII_CHARS) as [c Hc].
    { change (String.length ASCII_CHARS) with 70%nat. lia. }
    by rewrite Hc.
  - reflexivity.
  - reflexivity.
Qed.

Lemma X8_brightness_table_witness :
  length brightness_to_char_idx = 256%nat
  ∧ brightness_to_char_idx !! Z.to_nat 76 = Some (76 * 69 / 255)
  ∧ brightness_to_char_idx !! Z.to_nat 200 = Some (200 * 69 / 255)
  ∧ 0 ≤ 76 * 69 / 255 ∧ 76 * 69 / 255 ≤ 200 * 69 / 255
  ∧ 200 * 69 / 255 < Z.of_nat (String.length ASCII_CHARS)
  ∧ String.length (glyph_at 200) = 1%nat
  ∧ glyph_at 0 = " " ∧ glyph_at 255 = "$".
Proof. apply (X8_brightness_table 76 200); lia. Defined.

(** ** Escape codes *)

Lemma to_string_inj (z z' : Z) : to_string z = to_string z' → z = z'.
Proof.
  unfold to_string. intros H.
  assert (Hn : ∀ x, Z.to_int x ≠ Decimal.Pos Decimal.Nil ∧ Z.to_int x ≠ Decimal.Neg Decimal.Nil).
  { intros [|p|p]; simpl; split; try discriminate;
      intros [= Hp]; by apply DecimalPos.Unsigned.to_uint_nonnil in Hp. }
  assert (Hi : Z.to_int z = Z.to_int z').
  { destruct (Hn z) as [? ?], (Hn z') as [? ?].
    assert (Some (Z.to_int z) = Some (Z.to_int z')) as [= ->]; [| done].
    rewrite <- (NilZero.isi (Z.to_int z)), <- (NilZero.isi (Z.to_int z')) by done.
    by rewrite H. }
  rewrite <- (DecimalZ.of_to z), <- (DecimalZ.of_to z'). by rewrite Hi.
Qed.

Lemma to_string_byte_digits : forallb (fun z => all_digits (to_string z)) (seqZ 0 256) = true.
Proof. vm_compute. reflexivity. Qed.

Lemma to_string_digits (z : Z) : 0 ≤ z ≤ 255 → all_digits (to_string z) = true.
Proof. intros Hz. apply (forallb_seqZ _ _ to_string_byte_digits z). lia. Qed.

(** Two digit texts followed by the same separator: they end at the
    same place. *)
Lemma digits_separator_inj (a a' x x' : string) (c : ascii) :
  all_digits a = true → all_digits a' = true → is_digit c = false →
  a +:+ String c x = a' +:+ String c x' → a = a' ∧ x = x'.
Proof.
  revert a'. induction a as [|d a IH]; intros [|d' a'] Ha Ha' Hc H.
  - rewrite !string_app_nil_l in H. by injection H as ->.
  - rewrite string_app_nil_l, string_app_cons in H. injection H as -> _.
    simpl in Ha'. by rewrite Hc in Ha'.
  - rewrite string_app_nil_l, string_app_cons in H. injection H as <- _.
    simpl in Ha. by rewrite Hc in Ha.
  - rewrite !string_app_cons in H. injection H as -> H.
    simpl in Ha, Ha'. apply andb_true_iff in Ha as [_ Ha], Ha' as [_ Ha'].
    destruct (IH a' Ha Ha' Hc H) as [-> ->]. done.
Qed.

Lemma sgr_selector_text (bg bg' : bool) (x x' : string) :
  to_string (sgr_selector bg) +:+ x = to_string (sgr_selector bg') +:+ x' →
  bg = bg' ∧ x = x'.
Proof.
  destruct bg, bg'; unfold sgr_selector;
    change (to_string 48) with "48"; change (to_string 38) with "38";
    rewrite !string_app_cons, !string_app_nil_l; intros H;
    try discriminate; injection H as H; by subst.
Qed.

(** X9.  The escape code names its colour.  In true-colour mode two
    codes are the same text only for the same ground and the same three
    channels; in 256-colour mode only for the same ground and the same
    palette index.  So in true-colour mode the comparison of the code
    with the last one emitted never hides a change of colour. *)
Theorem X9_escape_codes_are_injective (bg bg' : bool) (r g b r' g' b' c c' : Z) :
  is_byte r → is_byte g → is_byte b → is_byte r' → is_byte g' → is_byte b' →
  is_byte c → is_byte c' →
  (code_24bit bg r g b = code_24bit bg' r' g' b' ↔ bg = bg' ∧ r = r' ∧ g = g' ∧ b = b')
  ∧ (code_8bit bg c = code_8bit bg' c' ↔ bg = bg' ∧ c = c')
  ∧ code_24bit bg r g b ≠ code_8bit bg' c.
Proof.
  intros Hr Hg Hb Hr' Hg' Hb' Hc Hc'. unfold is_byte in *.
  split_and!.
  - split; [| by intros (-> & -> & -> & ->)].
    unfold code_24bit, ESC. rewrite !string_app_cons, !string_app_nil_l.
    intros [= H].
    apply sgr_selector_text in H as [-> H].
    injection H as H.
    apply digits_separator_inj in H as [Hrr H]; [| by apply to_string_digits .. | done].
    apply digits_separator_inj in H as [Hgg H]; [| by apply to_string_digits .. | done].
    apply digits_separator_inj in H as [Hbb _]; [| by apply to_string_digits .. | done].
    apply to_string_inj in Hrr, Hgg, Hbb. done.
  - split; [| by intros (-> & ->)].
    unfold code_8bit, ESC. rewrite !string_app_cons, !string_app_nil_l.
    intros [= H].
    apply sgr_selector_text in H as [-> H].
    injection H as H.
    apply digits_separator_inj in H as [Hcc _]; [| by apply to_string_digits .. | done].
    apply to_string_inj in Hcc. done.
  - unfold code_24bit, code_8bit, ESC. rewrite !string_app_cons, !string_app_nil_l.
    intros [= H].
    apply sgr_selector_text in H as [_ H]. discriminate.
Qed.

Lemma X9_escape_codes_are_injective_witness :
  (code_24bit false 255 0 0 = code_24bit true 255 0 0
   ↔ false = true ∧ 255 = 255 ∧ 0 = 0 ∧ 0 = 0)
  ∧ (code_8bit false 196 = code_8bit true 196 ↔ false = true ∧ 196 = 196)
  ∧ code_24bit false 255 0 0 ≠ code_8bit true 196.
Proof.
  apply (X9_escape_codes_are_injective false true 255 0 0 255 0 0 196 196);
    unfold is_byte; lia.
Defined.

(** ** Characters of the rendered text *)

Lemma count_char_app (c : ascii) (a b : string) :
  count_char c (a +:+ b) = (count_char c a + count_char c b)%nat.
Proof.
  induction a as [|x a IH]; [reflexivity |].
  rewrite string_app_cons. cbn [count_char]. rewrite IH. lia.
Qed.

Lemma count_char_digits (c : ascii) (s : string) :
  all_digits s = true → is_digit c = false → count_char c s = 0%nat.
Proof.
  intros Hs Hc. induction s as [|x s IH]; [reflexivity |].
  cbn [all_digits] in Hs. apply andb_true_iff in Hs as [Hx Hs].
  cbn [count_char]. rewrite IH by exact Hs.
  destruct (Ascii.eqb_spec x c) as [-> | _]; [congruence | reflexivity].
Qed.

Lemma count_char_get (c : ascii) (n : nat) (s : string) (x : ascii) :
  count_char c s = 0%nat → String.get n s = Some x → Ascii.eqb x c = false.
Proof.
  revert n. induction s as [|y s IH]; intros n Hs Hg; [discriminate |].
  cbn [count_char] in Hs.
  destruct n as [|n]; simpl in Hg.
  - injection Hg as ->. destruct (Ascii.eqb x c); [lia | reflexivity].
  - apply (IH n); [lia | exact Hg].
Qed.

(** A character that is not on the ramp is not in any glyph. *)
Lemma count_char_glyph (c : ascii) (b : Z) :
  count_char c ASCII_CHARS = 0%nat → count_char c (glyph_at b) = 0%nat.
Proof.
  intros Hc. unfold glyph_at.
  destruct (String.get _ ASCII_CHARS) as [x|] eqn:E; [| reflexivity].
  cbn [count_char]. by rewrite (count_char_get c _ _ x Hc E).
Qed.

Lemma count_char_text_repeat (c : ascii) (n : nat) (t : string) :
  count_char c (text_repeat n t) = (n * count_char c t)%nat.
Proof.
  induction n as [|n IH]; [reflexivity |].
  cbn [text_repeat]. rewrite count_char_app, IH. lia.
Qed.

Lemma rgbTo8BitColor_byte (r g b : Z) :
  is_byte r → is_byte g → is_byte b → is_byte (rgbTo8BitColor r g b).
Proof.
  intros Hr Hg Hb. unfold rgbTo8BitColor.
  destruct ((r =? g) && (g =? b)).
  - destruct (gray_index_spec r Hr) as (Hset & _). unfold is_byte. lia.
  - rewrite !cube_level_spec by assumption. unfold is_byte in *.
    assert (0 ≤ r / 51 ≤ 5) by (split; [apply Z.div_pos | apply Z.div_le_upper_bound]; lia).
    assert (0 ≤ g / 51 ≤ 5) by (split; [apply Z.div_pos | apply Z.div_le_upper_bound]; lia).
    assert (0 ≤ b / 51 ≤ 5) by (split; [apply Z.div_pos | apply Z.div_le_upper_bound]; lia).
    lia.
Qed.

(** An escape code is made of the escape character, a bracket, digits,
    semicolons and the letter m. *)
Lemma count_char_color_code (c : ascii) (mode : ColorMode) (bg : bool) (r g b : Z) :
  is_byte r → is_byte g → is_byte b →
  is_digit c = false → c ≠ ESC_KEY → c ≠ "["%char → c ≠ ";"%char → c ≠ "m"%char →
  count_char c (color_code mode bg r g b) = 0%nat.
Proof.
  intros Hr Hg Hb Hd He Hbr Hsc Hm.
  assert (Hsel : count_char c (to_string (sgr_selector bg)) = 0%nat).
  { apply count_char_digits; [| exact Hd]. by destruct bg. }
  destruct mode; [reflexivity | |].
  - unfold color_code, code_8bit, ESC.
    rewrite !count_char_app, Hsel.
    rewrite (count_char_digits c (to_string (rgbTo8BitColor r g b)))
      by (try apply to_string_digits; try apply rgbTo8BitColor_byte; assumption).
    cbn [count_char]. change (Ascii.ascii_of_nat 27) with ESC_KEY.
    repeat match goal with
           | |- context [Ascii.eqb ?x c] =>
               destruct (Ascii.eqb_spec x c) as [Heq | _];
               [subst c; try done; cbv in Hd; discriminate |]
           end.
    reflexivity.
  - unfold color_code, code_24bit, ESC.
    rewrite !count_char_app, Hsel.
    rewrite !(count_char_digits c (to_string _))
      by (try apply to_string_digits; assumption).
    cbn [count_char]. change (Ascii.ascii_of_nat 27) with ESC_KEY.
    repeat match goal with
           | |- context [Ascii.eqb ?x c] =>
               destruct (Ascii.eqb_spec x c) as [Heq | _];
               [subst c; try done; cbv in Hd; discriminate |]
           end.
    reflexivity.
Qed.

Section Counting.

Variable background : bool.
Variable cell : Vec3b → string.
Variable c : ascii.
Variable k : nat.

Hypothesis cell_count : ∀ p, count_char c (cell p) = k.
Hypothesis c_not_digit : is_digit c = false.
Hypothesis c_not_esc : c ≠ ESC_KEY.
Hypothesis c_not_bracket : c ≠ "["%char.
Hypothesis c_not_semicolon : c ≠ ";"%char.
Hypothesis c_not_m : c ≠ "m"%char.

(** A character that no escape code contains is added by a pixel only
    through its cell. *)
Lemma scan_pixel_count (s : Scan) (p : Vec3b) :
  caches_ok (sc_player s) → pixel_ok p →
  count_char c (ascii_frame (scan_pixel background cell s p)) =
  (count_char c (ascii_frame s) + k)%nat.
Proof.
  intros Hok Hp. pose proof Hp as (H0 & H1 & H2).
  unfold scan_pixel. case_decide.
  - pose proof (getColorCodeCached_value _ _ _ background _ Hok H2 H1 H0) as Hv.
    destruct (getColorCodeCached _ _ _ _ _) as [code st']. simpl in Hv. subst code.
    case_decide; simpl; rewrite !count_char_app, ?cell_count; [| done].
    rewrite count_char_color_code by assumption. lia.
  - simpl. by rewrite count_char_app, cell_count.
Qed.

Lemma scan_pixels_count (row : list Vec3b) (s : Scan) :
  caches_ok (sc_player s) → Forall pixel_ok row →
  count_char c (ascii_frame (foldl (scan_pixel background cell) s row)) =
  (count_char c (ascii_frame s) + k * length row)%nat.
Proof.
  intros Hok Hrow. revert s Hok.
  induction Hrow as [|p row Hp _ IH]; intros s Hok; simpl; [lia |].
  destruct (scan_pixel_ok background cell s p Hok Hp) as [Hok' _].
  rewrite IH by exact Hok'. rewrite scan_pixel_count by assumption. lia.
Qed.

Lemma scan_rows_count (raster : list (list Vec3b)) (st : Player) :
  caches_ok st → Forall (Forall pixel_ok) raster →
  count_char c (ascii_frame (scan_rows background cell st raster)) =
  (k * length (concat raster)
   + length raster * count_char c (resetColor st +:+ NL))%nat.
Proof.
  intros Hok Hr. unfold scan_rows.
  assert (Hgen : ∀ s, caches_ok (sc_player s) →
            current_color_mode (sc_player s) = current_color_mode st →
            count_char c (ascii_frame (foldl (scan_row background cell) s raster)) =
            (count_char c (ascii_frame s) + k * length (concat raster)
             + length raster * count_char c (resetColor st +:+ NL))%nat).
  { induction Hr as [|row rows Hrow Hrows IH]; intros s Hs Hm; [simpl; lia |].
    cbn [foldl concat]. rewrite length_app, length_cons.
    assert (Hrow' : caches_ok (sc_player (foldl (scan_pixel background cell) s row))
              ∧ current_color_mode (sc_player (foldl (scan_pixel background cell) s row))
                = current_color_mode (sc_player s)).
    { clear IH Hm. revert s Hs. induction Hrow as [|p row Hp _ IHr]; intros s Hs; [done |].
      cbn [foldl]. destruct (scan_pixel_ok background cell s p Hs Hp) as [Hk Hmk].
      destruct (IHr _ Hk) as [Hk' Hm']. split; [done | congruence]. }
    destruct Hrow' as [Hk Hmk].
    rewrite IH; [| exact Hk | unfold scan_row; cbn [sc_player]; by rewrite Hmk].
    unfold scan_row at 1. cbn [ascii_frame].
    rewrite count_char_app, scan_pixels_count by assumption.
    assert (Hreset : resetColor (sc_player (foldl (scan_pixel background cell) s row))
                     = resetColor st) by (unfold resetColor; by rewrite Hmk, Hm).
    rewrite Hreset. lia. }
  rewrite Hgen by done. simpl. lia.
Qed.

End Counting.

Lemma render_mono_count (c : ascii) (gray : list (list Z)) :
  count_char c ASCII_CHARS = 0%nat →
  count_char c (render_mono gray) = (length gray * count_char c NL)%nat.
Proof.
  intros Hc. unfold render_mono.
  assert (Hrow : ∀ row out,
            count_char c (foldl (fun o v => o +:+ glyph_at v) out row) = count_char c out).
  { induction row as [|v row IH]; intros out; simpl; [done |].
    rewrite IH, count_char_app, count_char_glyph by exact Hc. lia. }
  assert (Hgen : ∀ out,
            count_char c (foldl (fun out row =>
                                   foldl (fun o v => o +:+ glyph_at v) out row +:+ NL)
                                out gray)
            = (count_char c out + length gray * count_char c NL)%nat).
  { induction gray as [|row rows IH]; intros out; cbn [foldl length]; [lia |].
    rewrite IH, count_char_app, Hrow. lia. }
  by rewrite Hgen.
Qed.

Lemma render_mono_length (gray : list (list Z)) :
  Forall (Forall is_byte) gray →
  String.length (render_mono gray) = sum_list ((fun row => S (length row)) <$> gray).
Proof.
  intros Hg. unfold render_mono.
  assert (Happ : ∀ a b, String.length (a +:+ b) = (String.length a + String.length b)%nat).
  { induction a as [|x a IH]; intros b; [done |].
    rewrite string_app_cons. simpl. by rewrite IH. }
  assert (Hglyph : ∀ v, is_byte v → String.length (glyph_at v) = 1%nat).
  { intros v [Hv0 Hv1]. unfold glyph_at.
    rewrite brightness_table_lookup by lia. simpl default.
    destruct (string_get_some (Z.to_nat (v * 69 / 255)) ASCII_CHARS) as [x Hx].
    { change (String.length ASCII_CHARS) with 70%nat.
      assert (v * 69 / 255 ≤ 69) by (apply Z.div_le_upper_bound; lia).
      assert (0 ≤ v * 69 / 255) by (apply Z.div_pos; lia). lia. }
    by rewrite Hx. }
  assert (Hrow : ∀ row out, Forall is_byte row →
            String.length (foldl (fun o v => o +:+ glyph_at v) out row)
            = (String.length out + length row)%nat).
  { intros row out Hr. revert out.
    induction Hr as [|v row Hv _ IH]; intros out; simpl; [lia |].
    rewrite IH, Happ, Hglyph by exact Hv. lia. }
  assert (Hgen : ∀ out,
            String.length (foldl (fun out row =>
                                    foldl (fun o v => o +:+ glyph_at v) out row +:+ NL)
                                 out gray)
            = (String.length out + sum_list ((fun row => S (length row)) <$> gray))%nat).
  { induction Hg as [|row rows Hrow' _ IH]; intros out;
      cbn [foldl fmap list_fmap sum_list sum_list_with]; [lia |].
    rewrite IH, Happ, Hrow by exact Hrow'.
    change (String.length NL) with 1%nat. unfold id. lia. }
  by rewrite Hgen.
Qed.

(** X10.  In monochrome mode both render entry points return the same
    text and the player they were given.  The text holds no escape
    character; for a frame that is not empty it has one newline per row
    of the gray raster and, the gray values being bytes, one glyph per
    gray value. *)
Theorem X10_monochrome_rendering
    (resize : Mat → Z → Z → Mat) (equalized_gray : Mat → list (list Z))
    (term : TerminalSize) (frame : Mat) (target_width target_height : Z) (st : Player) :
  current_color_mode st = MONO →
  let out := frameToAscii resize equalized_gray term frame target_width target_height st in
  let box := target_box term target_width target_height in
  let size := new_size (mat_cols frame) (mat_rows frame) (fst box) (snd box) in
  let gray := equalized_gray (resize frame (fst size) (snd size)) in
  snd out = st
  ∧ frameToColorBlocks resize equalized_gray term frame target_width target_height st = out
  ∧ count_char ESC_KEY (fst out) = 0%nat
  ∧ (mat_empty frame = false →
     fst out = render_mono gray
     ∧ count_char NL_CHAR (fst out) = length gray
     ∧ (Forall (Forall is_byte) gray →
        String.length (fst out) = sum_list ((fun row => S (length row)) <$> gray))).
Proof.
  intros Hm. cbv zeta.
  unfold frameToColorBlocks, frameToAscii. rewrite Hm. cbn [is_mono].
  rewrite orb_true_r.
  destruct (target_box term target_width target_height) as [tw th].
  destruct (new_size (mat_cols frame) (mat_rows frame) tw th) as [w h] eqn:Es.
  cbn [fst snd]. rewrite Es. cbn [fst snd].
  destruct (mat_empty frame); cbn [fst snd].
  - split_and!; try done.
  - split_and!; try done.
    + rewrite render_mono_count by reflexivity. simpl. lia.
    + intros _. split_and!; [done | |].
      * rewrite render_mono_count by reflexivity. simpl. lia.
      * apply render_mono_length.
Qed.

Lemma X10_monochrome_rendering_witness :
  let st := Player_init in
  let term := mkTerminalSize 80 24 in
  let frame := [[red; white]; [white; red]] in
  let out := frameToAscii nearest_resize plain_gray term frame 4 2 st in
  let box := target_box term 4 2 in
  let size := new_size (mat_cols frame) (mat_rows frame) (fst box) (snd box) in
  let gray := plain_gray (nearest_resize frame (fst size) (snd size)) in
  snd out = st
  ∧ frameToColorBlocks nearest_resize plain_gray term frame 4 2 st = out
  ∧ count_char ESC_KEY (fst out) = 0%nat
  ∧ (mat_empty frame = false →
     fst out = render_mono gray
     ∧ count_char NL_CHAR (fst out) = length gray
     ∧ (Forall (Forall is_byte) gray →
        String.length (fst out) = sum_list ((fun row => S (length row)) <$> gray))).
Proof.
  apply (X10_monochrome_rendering nearest_resize plain_gray (mkTerminalSize 80 24)
           [[red; white]; [white; red]] 4 2 Player_init).
  reflexivity.
Defined.

(** X11.  In a coloured mode, with consistent caches and byte pixels,
    the text has exactly one newline per row of the raster in both
    styles, and in block style exactly one space per pixel: escape codes
    and reset sequences add neither. *)
Theorem X11_coloured_text_shape (st : Player) (raster : list (list Vec3b)) :
  caches_ok st → is_mono (current_color_mode st) = false →
  Forall (Forall pixel_ok) raster →
  count_char NL_CHAR (fst (render_color_glyphs st raster)) = length raster
  ∧ count_char NL_CHAR (fst (render_color_blocks st raster)) = length raster
  ∧ count_char " " (fst (render_color_blocks st raster)) = length (concat raster).
Proof.
  intros Hok Hm Hr.
  assert (Hreset : resetColor st = ESC +:+ "[0m")
    by (unfold resetColor; by rewrite Hm).
  unfold render_color_glyphs, render_color_blocks. cbn [fst].
  split_and!.
  - rewrite (scan_rows_count false _ NL_CHAR 0); try done.
    + rewrite Hreset. simpl. lia.
    + intros p. by apply count_char_glyph.
  - rewrite (scan_rows_count true _ NL_CHAR 0); try done.
    rewrite Hreset. simpl. lia.
  - rewrite (scan_rows_count true _ " "%char 1); try done.
    rewrite Hreset. simpl. lia.
Qed.

Lemma X11_coloured_text_shape_witness :
  let st := setColorMode COLOR_8BIT Player_init in
  let raster := [[red; white]; [white; red]] in
  count_char NL_CHAR (fst (render_color_glyphs st raster)) = length raster
  ∧ count_char NL_CHAR (fst (render_color_blocks st raster)) = length raster
  ∧ count_char " " (fst (render_color_blocks st raster)) = length (concat raster).
Proof.
  apply (X11_coloured_text_shape (setColorMode COLOR_8BIT Player_init)
           [[red; white]; [white; red]]).
  - apply caches_ok_setColorMode, caches_ok_empty.
  - reflexivity.
  - repeat (apply Forall_cons; split;
            [repeat (apply Forall_cons; split;
                     [unfold pixel_ok, is_byte; simpl; lia |]); apply Forall_nil_2 |]).
    apply Forall_nil_2.
Defined.

(* ===================================================================== *)
(** * Further properties of the playback loops *)
(* ===================================================================== *)

(** ** Leaving the loop *)

Lemma key_in_elem (key : ascii) (cases : list ascii) :
  key_in key cases = true ↔ key ∈ cases.
Proof.
  unfold key_in. rewrite existsb_exists. split.
  - intros (x & Hx & He). apply Ascii.eqb_eq in He as ->. by apply list_elem_of_In.
  - intros H. exists key. split; [by apply list_elem_of_In | apply Ascii.eqb_refl].
Qed.

Lemma video_key_none (term : TerminalSize) (key : ascii) (s : VideoLoop) :
  video_key term key s = None ↔ key ∈ ["q"; "Q"; ESC_KEY]%char.
Proof.
  rewrite <- key_in_elem. unfold video_key.
  destruct (key_in key ["q"; "Q"; ESC_KEY]%char); [done |].
  repeat (destruct (key_in key _); [done |]). done.
Qed.

Lemma camera_key_none (term : TerminalSize) (key : ascii) (s : VideoLoop) :
  camera_key term key s = None ↔ key ∈ ["q"; "Q"]%char.
Proof.
  rewrite <- key_in_elem. unfold camera_key.
  destruct (key_in key ["q"; "Q"]%char); [done |].
  repeat (destruct (key_in key _); [done |]). done.
Qed.

(** X12.  The pending keys end the video loop exactly when one of them
    is q, Q or Esc, and the camera loop exactly when one of them is q or
    Q: Esc does not end the camera loop.  No other key ends either loop. *)
Theorem X12_quit_keys (term : TerminalSize) (keys : list ascii) (s : VideoLoop) :
  (video_keys term keys s = None ↔ Exists (fun key => key ∈ ["q"; "Q"; ESC_KEY]%char) keys)
  ∧ (camera_keys term keys s = None ↔ Exists (fun key => key ∈ ["q"; "Q"]%char) keys)
  ∧ camera_keys term [ESC_KEY] s = Some s.
Proof.
  split_and!.
  - revert s. induction keys as [|key keys IH]; intros s; cbn [video_keys].
    + rewrite Exists_nil. done.
    + rewrite Exists_cons, <- (video_key_none term key s).
      destruct (video_key term key s) as [s'|]; [| tauto].
      rewrite IH. split; [tauto | intros [? | ?]; done].
  - revert s. induction keys as [|key keys IH]; intros s; cbn [camera_keys].
    + rewrite Exists_nil. done.
    + rewrite Exists_cons, <- (camera_key_none term key s).
      destruct (camera_key term key s) as [s'|]; [| tauto].
      rewrite IH. split; [tauto | intros [? | ?]; done].
  - reflexivity.
Qed.

(** ** Frames and the frame counter *)

Lemma video_key_keeps (term : TerminalSize) (key : ascii) (s s' : VideoLoop) :
  video_key term key s = Some s' →
  frame_number s' = frame_number s ∧ frame s' = frame s
  ∧ base_delay s' = base_delay s ∧ total_frames s' = total_frames s
  ∧ original_width s' = original_width s ∧ original_height s' = original_height s.
Proof.
  unfold video_key.
  repeat (destruct (key_in key _); [intros [= <-] || intros [=] |]);
    try done; try (by intros [= <-]).
  unfold toggle_fullscreen. by destruct (negb (fullscreen_mode s)).
Qed.

Lemma video_keys_keeps (term : TerminalSize) (keys : list ascii) (s s' : VideoLoop) :
  video_keys term keys s = Some s' →
  frame_number s' = frame_number s ∧ frame s' = frame s
  ∧ base_delay s' = base_delay s ∧ total_frames s' = total_frames s
  ∧ original_width s' = original_width s ∧ original_height s' = original_height s.
Proof.
  revert s. induction keys as [|key keys IH]; intros s; cbn [video_keys].
  - by intros [= <-].
  - destruct (video_key term key s) as [s1|] eqn:E; [| done].
    intros H. apply IH in H. apply video_key_keeps in E.
    destruct H as (-> & -> & -> & -> & -> & ->). exact E.
Qed.

Lemma show_keeps_all (resize : Mat → Z → Z → Mat) (equalized_gray : Mat → list (list Z))
    (term : TerminalSize) (s : VideoLoop) :
  let s' := fst (show resize equalized_gray term s) in
  total_frames s' = total_frames s
  ∧ original_width s' = original_width s ∧ original_height s' = original_height s.
Proof.
  unfold show. destruct (mat_empty (frame s)); simpl; [done |].
  destruct (if block_mode s && negb (is_mono (current_color_mode (player s)))
            then _ else _) as [ascii st']. simpl. done.
Qed.

(** One iteration takes at most one frame, counts it, and holds it. *)
Lemma video_tick_frames (resize : Mat → Z → Z → Mat)
    (equalized_gray : Mat → list (list Z)) (term : TerminalSize) (keys : list ascii)
    (source source' : list Mat) (elapsed : Z) (s s' : VideoLoop) (events : list Event) :
  video_tick resize equalized_gray term keys source elapsed s = Continue s' source' events →
  base_delay s' = base_delay s ∧ total_frames s' = total_frames s
  ∧ original_width s' = original_width s ∧ original_height s' = original_height s
  ∧ ((source' = source ∧ frame_number s' = frame_number s ∧ frame s' = frame s)
     ∨ (∃ f, source = f :: source' ∧ frame_number s' = frame_number s + 1
             ∧ frame s' = f)).
Proof.
  unfold video_tick.
  destruct (video_keys term keys s) as [s1|] eqn:Ek; [| done].
  apply video_keys_keeps in Ek as (Hn & Hf & Hb & Ht & Hw & Hh).
  destruct (paused s1).
  - pose proof (show_keeps resize equalized_gray term s1) as Hs.
    pose proof (show_keeps_all resize equalized_gray term s1) as Ha.
    destruct (show resize equalized_gray term s1) as [s3 ev]. simpl in Hs, Ha.
    intros [= <- <- _].
    destruct Hs as (? & ? & _ & ? & _), Ha as (? & ? & ?).
    split_and!; try congruence. left. split_and!; congruence.
  - destruct source as [|f rest]; [done |].
    destruct (mat_empty f); [done |].
    set (s2 := mkVideoLoop _ _ _ _ _ _ _ _ _ _ _ _ _).
    pose proof (show_keeps resize equalized_gray term s2) as Hs.
    pose proof (show_keeps_all resize equalized_gray term s2) as Ha.
    destruct (show resize equalized_gray term s2) as [s3 ev]. simpl in Hs, Ha.
    intros [= <- <- _].
    destruct Hs as (? & ? & _ & ? & _), Ha as (? & ? & ?).
    split_and!; try congruence. right. exists f. split_and!; [done | lia | done].
Qed.

(** X13.  However the keys fall and whether or not the loop is paused,
    as long as the loop runs the frame counter has grown by exactly the
    number of frames taken from the source, at most one per iteration and
    in order; the frame held is the last one taken; and the base delay,
    the frame total and the configured box stay what they were. *)
Theorem X13_frame_counter_counts_frames
    (resize : Mat → Z → Z → Mat) (equalized_gray : Mat → list (list Z))
    (inputs : list TickInput) (source : list Mat) (s : VideoLoop) :
  match video_run resize equalized_gray inputs source s with
  | (Running s' source', _) =>
      ∃ pulled,
        source = pulled ++ source'
        ∧ frame_number s' = frame_number s + Z.of_nat (length pulled)
        ∧ (length pulled ≤ length inputs)%nat
        ∧ frame s' = default (frame s) (last pulled)
        ∧ base_delay s' = base_delay s ∧ total_frames s' = total_frames s
        ∧ original_width s' = original_width s
        ∧ original_height s' = original_height s
  | (Finished, _) => True
  end.
Proof.
  revert source s. induction inputs as [|i inputs IH]; intros source s; cbn [video_run].
  - exists []. simpl. split_and!; try done; lia.
  - destruct (video_tick _ _ _ _ _ _ _) as [ev | s1 source1 ev] eqn:Et; [done |].
    specialize (IH source1 s1).
    destruct (video_run resize equalized_gray inputs source1 s1) as [[|s' source'] ev'];
      [done |].
    destruct IH as (pulled & Hsrc & Hn & Hlen & Hfr & Hb & Ht & Hw & Hh).
    apply video_tick_frames in Et as (Hb1 & Ht1 & Hw1 & Hh1 & Hcase).
    destruct Hcase as [(-> & Hn1 & Hf1) | (f & -> & Hn1 & Hf1)].
    + exists pulled. split_and!; try congruence; try lia; try (simpl length; lia).
    + exists (f :: pulled). rewrite Hsrc.
      split_and!; try congruence; try done; try (simpl length; lia).
      rewrite Hfr, Hf1. destruct pulled as [|g pulled]; [done |].
      rewrite last_cons_cons.
      destruct (proj2 (last_is_Some (g :: pulled)) ltac:(done)) as [x ->]. done.
Qed.

(** ** A read that delivers nothing *)

(** X15.  When the source delivers no frame, or an empty one, to an
    iteration that is not paused, the video loop ends without drawing,
    while the camera loop goes on: it draws nothing, does not sleep, and
    keeps the player and the box it had after the keys. *)
Theorem X15_read_without_frame
    (resize : Mat → Z → Z → Mat) (equalized_gray : Mat → list (list Z))
    (term : TerminalSize) (keys : list ascii) (elapsed : Z) (s s1 s2 : VideoLoop)
    (f : Mat) (rest : list Mat) :
  mat_empty f = true →
  video_keys term keys s = Some s1 → paused s1 = false →
  camera_keys term keys s = Some s2 →
  video_tick resize equalized_gray term keys [] elapsed s
    = Stopped [EvPollInput; EvPullFrame]
  ∧ video_tick resize equalized_gray term keys (f :: rest) elapsed s
    = Stopped [EvPollInput; EvPullFrame]
  ∧ camera_tick resize equalized_gray term keys None elapsed s
    = CameraContinue s2 [CamPollInput; CamReadFrame]
  ∧ ∃ s3, camera_tick resize equalized_gray term keys (Some f) elapsed s
          = CameraContinue s3 [CamPollInput; CamReadFrame]
          ∧ player s3 = player s2 ∧ box_width s3 = box_width s2
          ∧ box_height s3 = box_height s2 ∧ block_mode s3 = block_mode s2
          ∧ fullscreen_mode s3 = fullscreen_mode s2.
Proof.
  intros Hf Hv Hp Hc. unfold video_tick, camera_tick. rewrite Hv, Hp, Hc, Hf.
  split_and!; try reflexivity.
  eexists. split; [reflexivity |]. done.
Qed.

Lemma X15_read_without_frame_witness :
  let term := mkTerminalSize 80 24 in
  video_tick nearest_resize plain_gray term ["b"]%char [] 0 loop_playing
    = Stopped [EvPollInput; EvPullFrame]
  ∧ video_tick nearest_resize plain_gray term ["b"]%char ([] :: [[[red]]]) 0 loop_playing
    = Stopped [EvPollInput; EvPullFrame]
  ∧ camera_tick nearest_resize plain_gray term ["b"]%char None 0 loop_playing
    = CameraContinue
        (mkVideoLoop (player loop_playing) (base_delay loop_playing)
           (speed_multiplier loop_playing) (frame loop_playing) false true false 0 100
           80 24 80 24)
        [CamPollInput; CamReadFrame]
  ∧ ∃ s3, camera_tick nearest_resize plain_gray term ["b"]%char (Some []) 0 loop_playing
          = CameraContinue s3 [CamPollInput; CamReadFrame]
          ∧ player s3 = player (mkVideoLoop (player loop_playing) (base_delay loop_playing)
                                  (speed_multiplier loop_playing) (frame loop_playing)
                                  false true false 0 100 80 24 80 24)
          ∧ box_width s3 = 80 ∧ box_height s3 = 24 ∧ block_mode s3 = true
          ∧ fullscreen_mode s3 = false.
Proof.
  apply (X15_read_without_frame nearest_resize plain_gray (mkTerminalSize 80 24)
           ["b"]%char 0 loop_playing
           (mkVideoLoop (player loop_playing) (base_delay loop_playing)
              (speed_multiplier loop_playing) (frame loop_playing) false true false 0 100
              80 24 80 24)
           (mkVideoLoop (player loop_playing) (base_delay loop_playing)
              (speed_multiplier loop_playing) (frame loop_playing) false true false 0 100
              80 24 80 24)
           [] [[[red]]]); reflexivity.
Defined.

(** ** Fullscreen *)

(** X16.  Entering fullscreen takes the box from the terminal, two
    columns and four rows smaller; leaving it brings back the configured
    box, whatever the terminal sizes were at the two key presses and
    whichever case the key has.  In the camera loop the two presses
    together change nothing else. *)
Theorem X16_fullscreen_there_and_back (term1 term2 : TerminalSize) (k1 k2 : ascii)
    (s : VideoLoop) :
  k1 ∈ ["f"; "F"]%char → k2 ∈ ["f"; "F"]%char → fullscreen_mode s = false →
  let box s' := (fullscreen_mode s', box_width s', box_height s') in
  camera_key term1 k1 s
    = Some (with_fullscreen s true (width term1 - 2) (height term1 - 4))
  ∧ camera_key term1 k1 s ≫= camera_key term2 k2
    = Some (with_fullscreen s false (original_width s) (original_height s))
  ∧ box <$> video_key term1 k1 s = Some (true, width term1 - 2, height term1 - 4)
  ∧ box <$> (video_key term1 k1 s ≫= video_key term2 k2)
    = Some (false, original_width s, original_height s).
Proof.
  intros H1 H2 Hfs.
  assert (Hk : ∀ k, k ∈ ["f"; "F"]%char → k = "f"%char ∨ k = "F"%char).
  { intros k H. apply elem_of_cons in H as [-> | H]; [by left |].
    apply elem_of_cons in H as [-> | H]; [by right | by apply elem_of_nil in H]. }
  destruct s as [st bd sp fr pa bl fs fn tf bw bh ow oh]. simpl in Hfs. subst fs.
  destruct (Hk k1 H1) as [-> | ->], (Hk k2 H2) as [-> | ->];
    split_and!; reflexivity.
Qed.

Lemma X16_fullscreen_there_and_back_witness :
  let s := loop_after_two_lookups in
  let term1 := mkTerminalSize 100 30 in
  let term2 := mkTerminalSize 120 50 in
  let box s' := (fullscreen_mode s', box_width s', box_height s') in
  camera_key term1 "f" s
    = Some (with_fullscreen s true (width term1 - 2) (height term1 - 4))
  ∧ camera_key term1 "f" s ≫= camera_key term2 "F"
    = Some (with_fullscreen s false (original_width s) (original_height s))
  ∧ box <$> video_key term1 "f" s = Some (true, width term1 - 2, height term1 - 4)
  ∧ box <$> (video_key term1 "f" s ≫= video_key term2 "F")
    = Some (false, original_width s, original_height s).
Proof.
  apply (X16_fullscreen_there_and_back (mkTerminalSize 100 30) (mkTerminalSize 120 50)
           "f" "F" loop_after_two_lookups); [set_solver | set_solver | reflexivity].
Defined.

(* ===================================================================== *)
(** * Properties of the command line *)
(* ===================================================================== *)

Lemma flags_agree (atoi : string → Z) (n : nat) (args : list string)
    (c : PlayerConfig.t) (a : MainArgs) :
  (length args ≤ n)%nat → config_view c = main_view a →
  config_view (PlayerConfig.flags atoi args c) = main_view (main_flags atoi args a).
Proof.
  revert args c a. induction n as [|n IH]; intros args c a Hn Hv.
  - destruct args; [exact Hv | simpl in Hn; lia].
  - destruct args as [|arg rest]; [exact Hv |].
    simpl in Hn. injection Hv as Hp Hw Hh Hm.
    cbn [PlayerConfig.flags main_flags].
    destruct (String.eqb arg "--color" || String.eqb arg "-c").
    { apply IH; [lia |]. unfold config_view, main_view. simpl. congruence. }
    destruct (String.eqb arg "--truecolor" || String.eqb arg "-t").
    { apply IH; [lia |]. unfold config_view, main_view. simpl. congruence. }
    destruct (String.eqb arg "--width" || String.eqb arg "-w").
    { destruct rest as [|value rest'].
      - unfold config_view, main_view. congruence.
      - apply IH; [simpl in Hn; lia |]. unfold config_view, main_view. simpl. congruence. }
    destruct (String.eqb arg "--height" || String.eqb arg "-h").
    { destruct rest as [|value rest'].
      - unfold config_view, main_view. congruence.
      - apply IH; [simpl in Hn; lia |]. unfold config_view, main_view. simpl. congruence. }
    destruct (String.eqb arg "--loop" || String.eqb arg "-l").
    { apply IH; [lia |]. unfold config_view, main_view. simpl. congruence. }
    destruct (String.eqb arg "--block" || String.eqb arg "-b").
    { apply IH; [lia |]. unfold config_view, main_view. simpl. congruence. }
    apply IH; [lia |]. unfold config_view, main_view. congruence.
Qed.

Lemma flags_keeps (atoi : string → Z) (n : nat) (args : list string)
    (c : PlayerConfig.t) :
  (length args ≤ n)%nat →
  PlayerConfig.videoPath (PlayerConfig.flags atoi args c) = PlayerConfig.videoPath c
  ∧ PlayerConfig.speedMultiplier (PlayerConfig.flags atoi args c)
    = PlayerConfig.speedMultiplier c
  ∧ PlayerConfig.bufferSize (PlayerConfig.flags atoi args c) = PlayerConfig.bufferSize c.
Proof.
  revert args c. induction n as [|n IH]; intros args c Hn.
  - destruct args; [done | simpl in Hn; lia].
  - destruct args as [|arg rest]; [done |].
    simpl in Hn. cbn [PlayerConfig.flags].
    assert (Hstep : ∀ l c', (length l ≤ length rest)%nat →
              PlayerConfig.videoPath c' = PlayerConfig.videoPath c →
              PlayerConfig.speedMultiplier c' = PlayerConfig.speedMultiplier c →
              PlayerConfig.bufferSize c' = PlayerConfig.bufferSize c →
              PlayerConfig.videoPath (PlayerConfig.flags atoi l c')
              = PlayerConfig.videoPath c
              ∧ PlayerConfig.speedMultiplier (PlayerConfig.flags atoi l c')
                = PlayerConfig.speedMultiplier c
              ∧ PlayerConfig.bufferSize (PlayerConfig.flags atoi l c')
                = PlayerConfig.bufferSize c).
    { intros l c' Hl H1 H2 H3. destruct (IH l c' ltac:(lia)) as (-> & -> & ->). done. }
    repeat (destruct (_ || _);
            [first [ by apply Hstep
                   | destruct rest as [|value rest'];
                     [done | apply Hstep; [simpl; lia | done ..]] ] |]).
    by apply Hstep.
Qed.

(** X17.  On every command line that names a path, the argument loop of
    [main] and [PlayerConfig::fromCommandLine] read alike, whatever
    [atoi] makes of the values: the same path, which is [argv[1]]
    whatever follows it, the same width, height and colour mode.  The
    two flags only the second one knows do not shift what the first one
    reads, and no argument changes the speed 1.0 and the buffer size 16
    of the configuration. *)
Theorem X17_parsers_agree (atoi : string → Z) (argv0 argv1 : string)
    (args : list string) :
  let config := PlayerConfig.fromCommandLine atoi argv0 argv1 args in
  main_view <$> main_args atoi (argv0 :: argv1 :: args) = Some (config_view config)
  ∧ PlayerConfig.videoPath config = argv1
  ∧ PlayerConfig.speedMultiplier config = B64.of_int 1
  ∧ PlayerConfig.bufferSize config = 16.
Proof.
  cbv zeta. unfold PlayerConfig.fromCommandLine.
  cbn [main_args fmap option_fmap option_map PlayerConfig.init PlayerConfig.width
       PlayerConfig.height PlayerConfig.autoLoop PlayerConfig.blockMode
       PlayerConfig.colorMode PlayerConfig.speedMultiplier PlayerConfig.bufferSize].
  split.
  - f_equal. symmetry. by apply (flags_agree atoi (length args)).
  - by apply (flags_keeps atoi (length args)).
Qed.

Lemma main_flags_option (atoi : string → Z) (o : CliOption) (rest : list string)
    (a : MainArgs) :
  main_flags atoi (option_args o ++ rest) a = main_flags atoi rest (main_option atoi a o).
Proof. destruct o as [[] | [] | [] v | [] v | [] | []]; reflexivity. Qed.

(** X18.  A command line written as a sequence of options is read
    option by option, the last word on each setting winning: the text
    after a width or height flag is always taken as its value, never as
    a flag, and the loop and block flags are skipped by [main].  A width
    or height flag left without a value at the very end is ignored. *)
Theorem X18_options_are_read_in_order (atoi : string → Z) (opts : list CliOption)
    (a : MainArgs) :
  main_flags atoi (concat (option_args <$> opts)) a = foldl (main_option atoi) a opts
  ∧ Forall (fun flag =>
              main_flags atoi (concat (option_args <$> opts) ++ [flag]) a
              = foldl (main_option atoi) a opts)
           ["--width"; "-w"; "--height"; "-h"].
Proof.
  split.
  - revert a. induction opts as [|o opts IH]; intros a; [reflexivity |].
    cbn [fmap list_fmap concat foldl]. by rewrite main_flags_option, IH.
  - repeat (apply Forall_cons; split; [| ]); try apply Forall_nil_2;
      (revert a; induction opts as [|o opts IH]; intros a;
       [reflexivity
       | cbn [fmap list_fmap concat foldl];
         rewrite <- app_assoc, main_flags_option; apply IH]).
Qed.

(* ===================================================================== *)
(** * Properties of the terminal guard *)
(* ===================================================================== *)

Lemma wrap32_lnot_bits (m n : Z) :
  0 ≤ n → Z.testbit (wrap32 (Z.lnot m)) n = (n <? 32) && negb (Z.testbit m n).
Proof.
  intros Hn. unfold wrap32.
  destruct (Z.ltb_spec n 32).
  - rewrite Z.mod_pow2_bits_low, Z.lnot_spec by lia. reflexivity.
  - rewrite Z.mod_pow2_bits_high by lia. reflexivity.
Qed.

Lemma uint32_high_bits (l n : Z) : 0 ≤ l < 2 ^ 32 → 32 ≤ n → Z.testbit l n = false.
Proof.
  intros Hl Hn. destruct (Z.eq_dec l 0) as [-> | Hnz]; [apply Z.bits_0 |].
  apply Z.bits_above_log2; [lia |].
  assert (Z.log2 l < 32) by (apply Z.log2_lt_pow2; lia). lia.
Qed.

(** X19.  The guard's constructor and destructor, on a terminal that no
    guard has modified yet: inside the guard the two mode bits are
    cleared and every other bit of the local flags is as before, the two
    control characters are 0, the other flag words are untouched, and the
    attributes found are remembered; leaving the guard puts back exactly
    the attributes that were found.  A second guard inside the first
    changes nothing on entry, and is left with nothing more to undo once
    the first destructor has run. *)
Theorem X19_terminal_guard_round_trip (ICANON ECHO : Z) (VMIN VTIME : nat) (w : GuardWorld) :
  terminal_modified w = false → 0 ≤ c_lflag (tty w) < 2 ^ 32 →
  let w1 := TerminalGuard_enter ICANON ECHO VMIN VTIME w in
  let w2 := TerminalGuard_exit w1 in
  tty w2 = tty w ∧ terminal_modified w2 = false
  ∧ terminal_modified w1 = true ∧ original_termios w1 = tty w
  ∧ Z.land (c_lflag (tty w1)) (Z.lor ICANON ECHO) = 0
  ∧ (∀ n, 0 ≤ n → Z.testbit (Z.lor ICANON ECHO) n = false →
          Z.testbit (c_lflag (tty w1)) n = Z.testbit (c_lflag (tty w)) n)
  ∧ (c_iflag (tty w1), c_oflag (tty w1), c_cflag (tty w1))
    = (c_iflag (tty w), c_oflag (tty w), c_cflag (tty w))
  ∧ (∀ i, (i < length (c_cc (tty w)))%nat →
          c_cc (tty w1) !! i = if decide (i = VMIN ∨ i = VTIME) then Some 0
                               else c_cc (tty w) !! i)
  ∧ TerminalGuard_enter ICANON ECHO VMIN VTIME w1 = w1
  ∧ TerminalGuard_exit w2 = w2.
Proof.
  intros Hm Hl. cbv zeta.
  unfold TerminalGuard_enter, TerminalGuard_exit. rewrite Hm. cbn.
  split_and!; try reflexivity.
  - apply Z.bits_inj'. intros n Hn.
    rewrite !Z.land_spec, wrap32_lnot_bits, Z.bits_0 by lia.
    destruct (Z.ltb_spec n 32).
    + destruct (Z.testbit (Z.lor ICANON ECHO) n);
        [by rewrite andb_false_r | apply andb_false_r].
    + by rewrite uint32_high_bits by lia.
  - intros n Hn Hbit.
    rewrite Z.land_spec, wrap32_lnot_bits, Hbit by lia.
    destruct (Z.ltb_spec n 32); [by rewrite andb_true_r |].
    rewrite uint32_high_bits by lia. reflexivity.
  - intros i Hi. case_decide as Hd.
    + destruct (decide (i = VTIME)) as [-> | Hne].
      * apply list_lookup_insert_eq. by rewrite length_insert.
      * rewrite list_lookup_insert_ne by done.
        destruct Hd as [-> | ->]; [| done]. by apply list_lookup_insert_eq.
    + rewrite !list_lookup_insert_ne by (intros Heq; apply Hd; subst; tauto). reflexivity.
Qed.

Lemma X19_terminal_guard_round_trip_witness :
  let w := mkGuardWorld (mkTermios 1280 5 191 35387 [3; 28; 127; 21; 4; 0; 1; 0])
             (mkTermios 0 0 0 0 []) false [] in
  let w1 := TerminalGuard_enter 2 8 6 5 w in
  let w2 := TerminalGuard_exit w1 in
  tty w2 = tty w ∧ terminal_modified w2 = false
  ∧ terminal_modified w1 = true ∧ original_termios w1 = tty w
  ∧ Z.land (c_lflag (tty w1)) (Z.lor 2 8) = 0
  ∧ (∀ n, 0 ≤ n → Z.testbit (Z.lor 2 8) n = false →
          Z.testbit (c_lflag (tty w1)) n = Z.testbit (c_lflag (tty w)) n)
  ∧ (c_iflag (tty w1), c_oflag (tty w1), c_cflag (tty w1))
    = (c_iflag (tty w), c_oflag (tty w), c_cflag (tty w))
  ∧ (∀ i, (i < length (c_cc (tty w)))%nat →
          c_cc (tty w1) !! i = if decide (i = 6%nat ∨ i = 5%nat) then Some 0
                               else c_cc (tty w) !! i)
  ∧ TerminalGuard_enter 2 8 6 5 w1 = w1
  ∧ TerminalGuard_exit w2 = w2.
Proof.
  apply (X19_terminal_guard_round_trip 2 8 6 5
           (mkGuardWorld (mkTermios 1280 5 191 35387 [3; 28; 127; 21; 4; 0; 1; 0])
              (mkTermios 0 0 0 0 []) false [])).
  - reflexivity.
  - simpl. lia.
Defined.

(* ===================================================================== *)
(** * The caches do not show in the text *)
(* ===================================================================== *)

Lemma scan_pixel_agree (background : bool) (cell : Vec3b → string) (s s' : Scan)
    (p : Vec3b) :
  scan_agree s s' → pixel_ok p →
  scan_agree (scan_pixel background cell s p) (scan_pixel background cell s' p).
Proof.
  intros (Ha & Hc & Hl & Hm & Hok & Hok') Hp. pose proof Hp as (H0 & H1 & H2).
  destruct (scan_pixel_ok background cell s p Hok Hp) as [Hk Hmk].
  destruct (scan_pixel_ok background cell s' p Hok' Hp) as [Hk' Hmk'].
  unfold scan_agree. split_and!; try done; try congruence; clear Hk Hk' Hmk Hmk';
    unfold scan_pixel; rewrite <- Hl;
    (case_decide; [| simpl; congruence]);
    pose proof (getColorCodeCached_value _ _ _ background _ Hok H2 H1 H0) as Hv;
    pose proof (getColorCodeCached_value _ _ _ background _ Hok' H2 H1 H0) as Hv';
    destruct (getColorCodeCached _ _ _ _ (sc_player s)) as [code st1];
    destruct (getColorCodeCached _ _ _ _ (sc_player s')) as [code' st1'];
    simpl in Hv, Hv'; subst code code'; rewrite <- Hm, <- Hc;
    case_decide; simpl; congruence.
Qed.

Lemma scan_rows_agree (background : bool) (cell : Vec3b → string)
    (raster : list (list Vec3b)) (s s' : Scan) :
  scan_agree s s' → Forall (Forall pixel_ok) raster →
  scan_agree (foldl (scan_row background cell) s raster)
             (foldl (scan_row background cell) s' raster).
Proof.
  intros Hs Hr. revert s s' Hs.
  induction Hr as [|row rows Hrow _ IH]; intros s s' Hs; [done |].
  cbn [foldl]. apply IH. unfold scan_row.
  assert (Hrow' : scan_agree (foldl (scan_pixel background cell) s row)
                             (foldl (scan_pixel background cell) s' row)).
  { clear IH. revert s s' Hs. induction Hrow as [|p row Hp _ IHr]; intros s s' Hs; [done |].
    cbn [foldl]. apply IHr. by apply scan_pixel_agree. }
  destruct Hrow' as (Ha & Hc & Hl & Hm & Hok & Hok').
  unfold scan_agree, resetColor. cbn. rewrite Ha, Hl, Hm. done.
Qed.

(** X20.  The caches are transparent: two players in the same mode,
    each with consistent caches, render a raster of byte pixels to the
    same text in both styles, whatever their caches and counters hold.
    In particular the text of a frame does not depend on the frames
    rendered before it. *)
Theorem X20_caches_do_not_show (st st' : Player) (raster : list (list Vec3b)) :
  caches_ok st → caches_ok st' →
  current_color_mode st = current_color_mode st' →
  Forall (Forall pixel_ok) raster →
  fst (render_color_glyphs st raster) = fst (render_color_glyphs st' raster)
  ∧ fst (render_color_blocks st raster) = fst (render_color_blocks st' raster)
  ∧ fst (render_color_glyphs (snd (render_color_glyphs st raster)) raster)
    = fst (render_color_glyphs st raster).
Proof.
  intros Hok Hok' Hm Hr.
  assert (Hinit : ∀ a b, caches_ok a → caches_ok b →
            current_color_mode a = current_color_mode b →
            scan_agree (scan_init a) (scan_init b))
    by (intros a b Ha Hb Hab; unfold scan_agree; simpl; done).
  unfold render_color_glyphs, render_color_blocks, scan_rows. cbn [fst snd].
  split_and!.
  - by destruct (scan_rows_agree false (fun pixel => glyph_at (brightness pixel)) raster
                   _ _ (Hinit st st' Hok Hok' Hm) Hr) as (-> & _).
  - by destruct (scan_rows_agree true (fun _ => " ") raster
                   _ _ (Hinit st st' Hok Hok' Hm) Hr) as (-> & _).
  - destruct (scan_rows_ok false (fun pixel => glyph_at (brightness pixel)) st raster
                Hok Hr) as [Hk Hmk].
    unfold scan_rows in Hk, Hmk.
    by destruct (scan_rows_agree false (fun pixel => glyph_at (brightness pixel)) raster
                   _ _ (Hinit _ st Hk Hok Hmk) Hr) as (-> & _).
Qed.

Lemma X20_caches_do_not_show_witness :
  let st := setColorMode COLOR_24BIT Player_init in
  let st' := player_after_two_lookups in
  let raster := [[red; white]; [white; red]] in
  fst (render_color_glyphs st raster) = fst (render_color_glyphs st' raster)
  ∧ fst (render_color_blocks st raster) = fst (render_color_blocks st' raster)
  ∧ fst (render_color_glyphs (snd (render_color_glyphs st raster)) raster)
    = fst (render_color_glyphs st raster).
Proof.
  apply (X20_caches_do_not_show (setColorMode COLOR_24BIT Player_init)
           player_after_two_lookups [[red; white]; [white; red]]).
  - apply caches_ok_setColorMode, caches_ok_empty.
  - apply (reachable_inv _ reachable_after_two_lookups).
  - reflexivity.
  - repeat (apply Forall_cons; split;
            [repeat (apply Forall_cons; split;
                     [unfold pixel_ok, is_byte; simpl; lia |]); apply Forall_nil_2 |]).
    apply Forall_nil_2.
Defined.

(* ===================================================================== *)
(** * The player during playback *)
(* ===================================================================== *)

Lemma scan_pixel_reachable (background : bool) (cell : Vec3b → string) (s : Scan)
    (p : Vec3b) :
  reachable (sc_player s) → pixel_ok p →
  reachable (sc_player (scan_pixel background cell s p)).
Proof.
  intros Hr (H0 & H1 & H2). unfold scan_pixel.
  case_decide; [| done].
  pose proof (reach_lookup _ _ _ _ background Hr H2 H1 H0) as Hr'.
  destruct (getColorCodeCached _ _ _ _ _) as [code st'].
  by case_decide.
Qed.

Lemma scan_rows_reachable (background : bool) (cell : Vec3b → string) (st : Player)
    (resized : Mat) :
  reachable st → Forall (Forall pixel_ok) resized →
  reachable (sc_player (scan_rows background cell st resized)).
Proof.
  intros Hr Hpx. unfold scan_rows.
  assert (Hgen : ∀ s, reachable (sc_player s) →
            reachable (sc_player (foldl (scan_row background cell) s resized)));
    [| by apply Hgen].
  clear Hr. induction Hpx as [|row rows Hrow _ IH]; intros s Hs; [done |].
  cbn [foldl]. apply IH. unfold scan_row. cbn [sc_player].
  revert s Hs. induction Hrow as [|p row Hp _ IHr]; intros s Hs; [done |].
  cbn [foldl]. apply IHr. by apply scan_pixel_reachable.
Qed.

Lemma frameToAscii_reachable (resize : Mat → Z → Z → Mat)
    (equalized_gray : Mat → list (list Z)) (term : TerminalSize) (frame : Mat)
    (w h : Z) (st : Player) :
  resize_ok resize → Forall (Forall pixel_ok) frame → reachable st →
  reachable (snd (frameToAscii resize equalized_gray term frame w h st)).
Proof.
  intros Hres Hf Hr. unfold frameToAscii.
  destruct (mat_empty frame); [done |].
  destruct (target_box term w h) as [tw th].
  destruct (new_size _ _ tw th) as [nw nh].
  destruct (is_mono (current_color_mode st)); [done |].
  unfold render_color_glyphs. cbn [snd].
  apply scan_rows_reachable; [done | by apply Hres].
Qed.

Lemma frameToColorBlocks_reachable (resize : Mat → Z → Z → Mat)
    (equalized_gray : Mat → list (list Z)) (term : TerminalSize) (frame : Mat)
    (w h : Z) (st : Player) :
  resize_ok resize → Forall (Forall pixel_ok) frame → reachable st →
  reachable (snd (frameToColorBlocks resize equalized_gray term frame w h st)).
Proof.
  intros Hres Hf Hr. unfold frameToColorBlocks.
  destruct (mat_empty frame || is_mono (current_color_mode st));
    [by apply frameToAscii_reachable |].
  destruct (target_box term w h) as [tw th].
  destruct (new_size _ _ tw th) as [nw nh].
  unfold render_color_blocks. cbn [snd].
  apply scan_rows_reachable; [done | by apply Hres].
Qed.

Lemma video_key_ok (term : TerminalSize) (key : ascii) (s s' : VideoLoop) :
  video_key term key s = Some s' → loop_ok s → loop_ok s'.
Proof.
  intros Hk [Hr Hf]. pose proof (video_key_keeps _ _ _ _ Hk) as (_ & Hfr & _).
  split; [| by rewrite Hfr].
  revert Hk. unfold video_key.
  repeat (destruct (key_in key _); [intros [= <-] || intros [=] |]);
    try done; try (by intros [= <-]); cbn [player with_player].
  - by apply reach_mode.
  - apply reach_clear. unfold toggle_fullscreen. by destruct (negb (fullscreen_mode s)).
  - by apply reach_clear.
Qed.

Lemma video_keys_ok (term : TerminalSize) (keys : list ascii) (s s' : VideoLoop) :
  video_keys term keys s = Some s' → loop_ok s → loop_ok s'.
Proof.
  revert s. induction keys as [|key keys IH]; intros s; cbn [video_keys].
  - by intros [= <-].
  - destruct (video_key term key s) as [s1|] eqn:E; [| done].
    intros H Hs. apply (IH _ H). by apply (video_key_ok _ _ _ _ E).
Qed.

Lemma camera_key_ok (term : TerminalSize) (key : ascii) (s s' : VideoLoop) :
  camera_key term key s = Some s' → loop_ok s → loop_ok s'.
Proof.
  intros Hk [Hr Hf]. revert Hk. unfold camera_key, loop_ok.
  repeat (destruct (key_in key _); [intros [= <-] || intros [=] |]);
    try done; try (by intros [= <-]); cbn [player frame with_player].
  - split; [by apply reach_mode | done].
  - split; [by apply reach_clear | done].
  - unfold toggle_fullscreen. by destruct (negb (fullscreen_mode s)).
Qed.

Lemma camera_keys_ok (term : TerminalSize) (keys : list ascii) (s s' : VideoLoop) :
  camera_keys term keys s = Some s' → loop_ok s → loop_ok s'.
Proof.
  revert s. induction keys as [|key keys IH]; intros s; cbn [camera_keys].
  - by intros [= <-].
  - destruct (camera_key term key s) as [s1|] eqn:E; [| done].
    intros H Hs. apply (IH _ H). by apply (camera_key_ok _ _ _ _ E).
Qed.

Lemma show_ok (resize : Mat → Z → Z → Mat) (equalized_gray : Mat → list (list Z))
    (term : TerminalSize) (s : VideoLoop) :
  resize_ok resize → loop_ok s → loop_ok (fst (show resize equalized_gray term s)).
Proof.
  intros Hres [Hr Hf]. unfold show. destruct (mat_empty (frame s)); [done |].
  pose proof (frameToAscii_reachable resize equalized_gray term (frame s)
                (box_width s) (box_height s) (player s) Hres Hf Hr) as Ha.
  pose proof (frameToColorBlocks_reachable resize equalized_gray term (frame s)
                (box_width s) (box_height s) (player s) Hres Hf Hr) as Hb.
  destruct (block_mode s && negb (is_mono (current_color_mode (player s)))).
  - destruct (frameToColorBlocks _ _ _ _ _ _ _) as [ascii st']. by split.
  - destruct (frameToAscii _ _ _ _ _ _ _) as [ascii st']. by split.
Qed.

Lemma video_tick_ok (resize : Mat → Z → Z → Mat) (equalized_gray : Mat → list (list Z))
    (term : TerminalSize) (keys : list ascii) (source source' : list Mat) (elapsed : Z)
    (s s' : VideoLoop) (events : list Event) :
  resize_ok resize → Forall (Forall (Forall pixel_ok)) source → loop_ok s →
  video_tick resize equalized_gray term keys source elapsed s = Continue s' source' events →
  loop_ok s' ∧ Forall (Forall (Forall pixel_ok)) source'.
Proof.
  intros Hres Hsrc Hs. unfold video_tick.
  destruct (video_keys term keys s) as [s1|] eqn:Ek; [| done].
  apply video_keys_ok in Ek; [| done].
  destruct (paused s1).
  - pose proof (show_ok resize equalized_gray term s1 Hres Ek) as Hsh.
    destruct (show _ _ _ s1) as [s3 ev]. intros [= <- <- _]. by split.
  - destruct source as [|f rest]; [done |].
    destruct (mat_empty f); [done |].
    apply Forall_cons in Hsrc as [Hf Hrest]. destruct Ek as [Hr _].
    match goal with |- context [show _ _ _ ?s2] =>
      pose proof (show_ok resize equalized_gray term s2 Hres (conj Hr Hf)) as Hsh;
      destruct (show resize equalized_gray term s2) as [s3 ev] end.
    intros [= <- <- _]. by split.
Qed.

Lemma nearest_resize_ok : resize_ok nearest_resize.
Proof.
  intros m w h Hm. unfold nearest_resize.
  apply Forall_fmap, Forall_true. intros y. cbn.
  apply Forall_fmap, Forall_true. intros x. cbn.
  destruct (m !! Z.to_nat (y * mat_rows m / h)) as [row|] eqn:Er; cbn;
    [| unfold pixel_ok, is_byte; simpl; lia].
  destruct (row !! Z.to_nat (x * mat_cols m / w)) as [p|] eqn:Ep; cbn;
    [| unfold pixel_ok, is_byte; simpl; lia].
  eapply Forall_lookup_1; [| exact Ep]. eapply Forall_lookup_1; [exact Hm | exact Er].
Qed.

(** X21.  Playback never takes the player out of the reachable states:
    with a resampler that delivers byte pixels and frames of byte
    pixels, the state in which a run of [playVideoAscii] stands, and the
    state an iteration of [playFromCamera] leaves, has a reachable
    player, so that its caches hold only correct codes and its size
    statistic counts them, whatever was typed. *)
Theorem X21_playback_keeps_the_caches_sound (resize : Mat → Z → Z → Mat)
    (equalized_gray : Mat → list (list Z)) (inputs : list TickInput)
    (source : list Mat) (s : VideoLoop) (term : TerminalSize) (keys : list ascii)
    (read : option Mat) (elapsed : Z) (c : VideoLoop) :
  resize_ok resize →
  Forall (Forall (Forall pixel_ok)) source → loop_ok s →
  from_option (Forall (Forall pixel_ok)) True read → loop_ok c →
  match fst (video_run resize equalized_gray inputs source s) with
  | Finished => True
  | Running s' source' =>
      loop_ok s' ∧ caches_ok (player s') ∧ stats_synced (player s')
  end
  ∧ match camera_tick resize equalized_gray term keys read elapsed c with
    | CameraStopped => True
    | CameraContinue c' _ =>
        loop_ok c' ∧ caches_ok (player c') ∧ stats_synced (player c')
    end.
Proof.
  intros Hres Hsrc Hs Hread Hc.
  assert (Hinv : ∀ s, loop_ok s →
            loop_ok s ∧ caches_ok (player s) ∧ stats_synced (player s)).
  { intros s0 Hs0. pose proof (reachable_inv _ (proj1 Hs0)) as (? & _ & ?). done. }
  split.
  - clear Hread Hc. revert source s Hsrc Hs.
    induction inputs as [|i rest IH]; intros source s Hsrc Hs.
    + cbn. by apply Hinv.
    + cbn [video_run].
      destruct (video_tick _ _ _ _ _ _ _) as [ev | s1 source1 ev] eqn:Et; [done |].
      apply video_tick_ok in Et as [Hs1 Hsrc1]; [| done..].
      specialize (IH source1 s1 Hsrc1 Hs1).
      by destruct (video_run _ _ rest source1 s1) as [r ev'].
  - clear Hsrc Hs. unfold camera_tick.
    destruct (camera_keys term keys c) as [s1|] eqn:Ek; [| done].
    apply camera_keys_ok in Ek; [| done]. destruct Ek as [Hr Hf].
    destruct read as [f|]; [| by apply Hinv].
    cbn in Hread. destruct (mat_empty f); [by apply Hinv |].
    cbn [block_mode player box_width box_height].
    pose proof (frameToAscii_reachable resize equalized_gray term f
                  (box_width s1) (box_height s1) (player s1) Hres Hread Hr) as Ha.
    pose proof (frameToColorBlocks_reachable resize equalized_gray term f
                  (box_width s1) (box_height s1) (player s1) Hres Hread Hr) as Hb.
    destruct (block_mode s1 && negb (is_mono (current_color_mode (player s1)))).
    + destruct (frameToColorBlocks _ _ _ _ _ _ _) as [ascii st']. by apply Hinv.
    + destruct (frameToAscii _ _ _ _ _ _ _) as [ascii st']. by apply Hinv.
Qed.

Lemma X21_playback_keeps_the_caches_sound_witness :
  let term := mkTerminalSize 80 24 in
  match fst (video_run nearest_resize plain_gray
               [mkTickInput term ["c"; "b"]%char 5; mkTickInput term ["f"]%char 5]
               [[[red; white]]; [[white; red]]] loop_playing) with
  | Finished => True
  | Running s' source' =>
      loop_ok s' ∧ caches_ok (player s') ∧ stats_synced (player s')
  end
  ∧ match camera_tick nearest_resize plain_gray term ["c"]%char (Some [[red; white]]) 5
            loop_after_two_lookups with
    | CameraStopped => True
    | CameraContinue c' _ =>
        loop_ok c' ∧ caches_ok (player c') ∧ stats_synced (player c')
    end.
Proof.
  assert (Hpx : ∀ a b : Vec3b, pixel_ok a → pixel_ok b →
            Forall (Forall pixel_ok) [[a; b]])
    by (intros a b Ha Hb; repeat first [apply Forall_nil_2 | apply Forall_cons_2]; done).
  assert (Hred : pixel_ok red) by (unfold pixel_ok, is_byte; simpl; lia).
  assert (Hwhite : pixel_ok white) by (unfold pixel_ok, is_byte; simpl; lia).
  apply (X21_playback_keeps_the_caches_sound nearest_resize plain_gray).
  - exact nearest_resize_ok.
  - repeat first [apply Forall_nil_2 | apply Forall_cons_2]; done.
  - split; [apply reach_mode, reach_init | apply Forall_nil_2].
  - by apply Hpx.
  - split; [exact reachable_after_two_lookups | apply Forall_nil_2].
Defined.

(* ===================================================================== *)
(** * The direction of the speed keys *)
(* ===================================================================== *)

(** [round_aux64] with the one case in which the successor carries. *)
Lemma round_aux64_carry (mx : positive) (ex n : Z) (lx : location) :
  0 ≤ n → 2 ^ (52 + n) ≤ Zpos mx < 2 ^ (53 + n) →
  -1074 ≤ ex + n → ex + n + 1 ≤ 971 →
  ∃ (m' : positive) (e' : Z),
    binary_round_aux B64.prec B64.emax false (Zpos mx) ex lx = S754_finite false m' e'
    ∧ ((e' = ex + n ∧ Zpos mx / 2 ^ n ≤ Zpos m' ≤ Zpos mx / 2 ^ n + 1)
       ∨ (e' = ex + n + 1 ∧ Zpos m' = 2 ^ 52 ∧ Zpos mx / 2 ^ n = 2 ^ 53 - 1)).
Proof.
  intros Hn Hmx Hlo Hhi.
  assert (Hd : Zdigits2 (Zpos mx) = 53 + n).
  { simpl. apply digits2_pos_unique.
    replace (53 + n - 1) with (52 + n) by lia. exact Hmx. }
  assert (Hpow : 0 < 2 ^ n) by (apply Z.pow_pos_nonneg; lia).
  assert (Hq : 2 ^ 52 ≤ Zpos mx / 2 ^ n < 2 ^ 53).
  { rewrite !Z.pow_add_r in Hmx by lia. split.
    - apply Z.div_le_lower_bound; lia.
    - apply Z.div_lt_upper_bound; lia. }
  unfold binary_round_aux, shr_fexp. rewrite Hd, fexp64 by lia.
  replace (53 + n + ex - 53 - ex) with n by lia.
  destruct (shr_m_shift (shr_record_of_loc (Zpos mx) lx) ex n) as [Hm He];
    [rewrite shr_record_of_loc_m; lia | lia |].
  rewrite shr_record_of_loc_m in Hm.
  destruct (shr (shr_record_of_loc (Zpos mx) lx) ex n) as [mrs' e1].
  simpl in Hm, He. subst e1.
  pose proof (round_nearest_even_bounds (shr_m mrs') (loc_of_shr_record mrs')) as Hr.
  set (m1 := round_nearest_even (shr_m mrs') (loc_of_shr_record mrs')) in *.
  rewrite Hm in Hr.
  destruct (Z.lt_ge_cases m1 (2 ^ 53)) as [Hlt | Hge].
  - destruct m1 as [|p1|p1] eqn:E1; [lia | | lia].
    assert (Hd1 : Zdigits2 (Zpos p1) = 53)
      by (simpl; apply digits2_pos_unique; simpl; lia).
    rewrite Hd1, fexp64 by lia.
    replace (53 + (ex + n) - 53 - (ex + n)) with 0 by lia.
    cbn [shr shr_record_of_loc shr_m].
    destruct (Z.leb_spec (ex + n) (B64.emax - B64.prec));
      [| unfold B64.emax, B64.prec in *; lia].
    exists p1, (ex + n). split; [reflexivity |]. left. lia.
  - assert (E1 : m1 = 9007199254740992) by lia. rewrite E1.
    change (Zdigits2 9007199254740992) with 54. rewrite fexp64 by lia.
    replace (54 + (ex + n) - 53 - (ex + n)) with 1 by lia.
    cbn [shr shr_record_of_loc shr_m SpecFloat.iter_pos shr_1].
    destruct (Z.leb_spec (ex + n + 1) (B64.emax - B64.prec));
      [| unfold B64.emax, B64.prec in *; lia].
    exists 4503599627370496%positive, (ex + n + 1).
    split; [reflexivity |]. right. lia.
Qed.

(** [v / 1.5] is not above [v]. *)
Lemma div_1_5_le (m : positive) (e : Z) :
  speed_range m e →
  ∃ (m' : positive) (e' : Z),
    B64.div (S754_finite false m e) (B64.lit 15 10) = S754_finite false m' e'
    ∧ (e' < e ∨ (e' = e ∧ Zpos m' ≤ Zpos m)).
Proof.
  intros (Hm & He & _ & Hhi). rewrite lit_1_5.
  unfold B64.div, SFdiv. cbn [xorb].
  rewrite div_core_1_5 by (try exact Hm; lia).
  change (2 ^ 52) with 4503599627370496 in Hm.
  change (2 ^ 53) with 9007199254740992 in Hm.
  pose proof (Z.mul_div_le (Zpos m * 2 ^ 53) 6755399441055744 ltac:(lia)) as Hle.
  change (2 ^ 53) with 9007199254740992 in Hle.
  set (q := Zpos m * 2 ^ 53 / 6755399441055744).
  change (Zpos m * 9007199254740992 / 6755399441055744)
    with (Zpos m * 2 ^ 53 / 6755399441055744) in Hle. fold q in Hle.
  set (l := new_location _ _).
  assert (Hq : 2 ^ 52 ≤ q < 2 ^ 54).
  { subst q. change (2 ^ 52) with 4503599627370496.
    change (2 ^ 53) with 9007199254740992.
    change (2 ^ 54) with 18014398509481984. split.
    - apply Z.div_le_lower_bound; lia.
    - apply Z.div_lt_upper_bound; lia. }
  destruct q as [|qp|qp] eqn:Eq; [simpl in Hq; lia | | simpl in Hq; lia].
  destruct (Z.lt_ge_cases (Zpos qp) (2 ^ 53)) as [Hlt | Hge].
  - destruct (round_aux64_carry qp (e - 1) 0 l) as (m' & e' & Hr & Hcase);
      [lia | | lia | lia |].
    { change (2 ^ (52 + 0)) with (2 ^ 52). change (2 ^ (53 + 0)) with (2 ^ 53). lia. }
    exists m', e'. split; [exact Hr |].
    change (2 ^ 52) with 4503599627370496 in Hcase.
    destruct Hcase as [[He' _] | (He' & Hq' & _)]; lia.
  - destruct (round_aux64_carry qp (e - 1) 1 l) as (m' & e' & Hr & Hcase);
      [lia | | lia | lia |].
    { change (2 ^ (52 + 1)) with (2 ^ 53). change (2 ^ (53 + 1)) with (2 ^ 54). lia. }
    exists m', e'. split; [exact Hr |].
    change (2 ^ 52) with 4503599627370496 in Hcase.
    change (2 ^ 53) with 9007199254740992 in Hcase.
    change (2 ^ 1) with 2 in Hcase.
    pose proof (Z.mul_div_le (Zpos qp) 2 ltac:(lia)) as Hhalf.
    destruct Hcase as [[He' Hq'] | (He' & Hq' & Hc)]; lia.
Qed.

(** [std::min(speed_multiplier * 1.5, 5.0)] is not below the speed. *)
Lemma speed_up_le (v : spec_float) :
  speed_ok v = true →
  B64.leb v (std_min (B64.mul v (B64.lit 15 10)) (B64.of_int 5)) = true.
Proof.
  intros Hv. pose proof Hv as Hv'. unfold speed_ok in Hv'.
  apply andb_true_iff in Hv' as [_ H5].
  apply speed_ok_range in Hv as (m & e & -> & Hr).
  destruct (mul_1_5_range m e Hr) as (m' & e' & Hmul & Hm' & He' & Hsame).
  rewrite Hmul. unfold std_min. destruct (B64.ltb _ _); [exact H5 |].
  apply leb_finite_pos. lia.
Qed.

(** [std::max(speed_multiplier / 1.5, 0.2)] is not above the speed. *)
Lemma slow_down_le (v : spec_float) :
  speed_ok v = true →
  B64.leb (std_max (B64.div v (B64.lit 15 10)) (B64.lit 2 10)) v = true.
Proof.
  intros Hv. pose proof Hv as Hv'. unfold speed_ok in Hv'.
  apply andb_true_iff in Hv' as [Hv' _]. apply andb_true_iff in Hv' as [_ H2].
  apply speed_ok_range in Hv as (m & e & -> & Hr).
  destruct (div_1_5_le m e Hr) as (m' & e' & Hdiv & Hle).
  rewrite Hdiv. unfold std_max. destruct (B64.ltb _ _); [exact H2 |].
  apply leb_finite_pos. lia.
Qed.

(** X22.  The speed keys go one way each: with a speed between 0.2 and
    5.0, '+' and '=' never lower the speed, '-' and '_' never raise it,
    in binary64 arithmetic with its rounding, and no other key of
    [playVideoAscii] changes it. *)
Theorem X22_speed_keys_go_one_way (term : TerminalSize) (key : ascii)
    (s s' : VideoLoop) :
  speed_ok (speed_multiplier s) = true →
  video_key term key s = Some s' →
  if key_in key ["+"; "="]%char
  then B64.leb (speed_multiplier s) (speed_multiplier s') = true
  else if key_in key ["-"; "_"]%char
       then B64.leb (speed_multiplier s') (speed_multiplier s) = true
       else speed_multiplier s' = speed_multiplier s.
Proof.
  intros Hs. unfold video_key. unfold key_in at 1. cbn [existsb].
  destruct (Ascii.eqb_spec key "q") as [-> | _]; [done |].
  destruct (Ascii.eqb_spec key "Q") as [-> | _]; [done |].
  destruct (Ascii.eqb_spec key ESC_KEY) as [-> | _]; [done |].
  cbn [orb]. unfold key_in at 1. cbn [existsb].
  destruct (Ascii.eqb_spec key " ") as [-> | _]; [by intros [= <-] |].
  cbn [orb].
  destruct (key_in key ["+"; "="]%char).
  { intros [= <-]. cbn [speed_multiplier with_speed]. by apply speed_up_le. }
  destruct (key_in key ["-"; "_"]%char).
  { intros [= <-]. cbn [speed_multiplier with_speed]. by apply slow_down_le. }
  repeat (destruct (key_in key _); [intros [= <-] || intros [=] |]);
    try done; try (by intros [= <-]).
  unfold toggle_fullscreen. by destruct (negb (fullscreen_mode s)).
Qed.

Lemma X22_speed_keys_go_one_way_witness :
  ∃ s', video_key (mkTerminalSize 80 24) "-" loop_playing = Some s'
        ∧ B64.leb (speed_multiplier s') (speed_multiplier loop_playing) = true.
Proof.
  eexists. split; [reflexivity |].
  exact (X22_speed_keys_go_one_way (mkTerminalSize 80 24) "-" loop_playing _
           eq_refl eq_refl).
Defined.

(* ===================================================================== *)
(** * Rendering a frame again *)
(* ===================================================================== *)

(** A lookup leaves the code of its pixel cached and drops no code. *)
Lemma lookup_pixel_caches (background : bool) (st : Player) (p : Vec3b) :
  code_cached background (lookup_pixel background st p) p
  ∧ ∀ q, code_cached background st q → code_cached background (lookup_pixel background st p) q.
Proof.
  unfold code_cached, lookup_pixel.
  rewrite getColorCodeCached_mode. unfold getColorCodeCached.
  destruct (current_color_mode st) eqn:Em; [done | |].
  - destruct (color_cache_8bit st !! _) as [code|] eqn:E; cbn [snd hit with_stats
      color_cache_8bit].
    + by rewrite E.
    + pose proof (rgbTo8BitColorCached_caches (ch2 p) (ch1 p) (ch0 p) (miss st))
        as [H8 _].
      destruct (rgbTo8BitColorCached _ _ _ (miss st)) as [c st2].
      cbn [snd update_cache_size with_stats color_cache_8bit] in *. rewrite H8.
      cbn [miss with_stats color_cache_8bit]. split.
      * apply lookup_insert_is_Some. by left.
      * intros q Hq. rewrite lookup_insert_is_Some. destruct (decide (
          mkColorKey (wrap8 (ch2 p)) (wrap8 (ch1 p)) (wrap8 (ch0 p)) background
          = mkColorKey (wrap8 (ch2 q)) (wrap8 (ch1 q)) (wrap8 (ch0 q)) background));
          [by left | by right].
  - destruct (color_cache_24bit st !! _) as [code|] eqn:E; cbn [snd hit with_stats
      update_cache_size miss color_cache_24bit].
    + by rewrite E.
    + split.
      * apply lookup_insert_is_Some. by left.
      * intros q Hq. rewrite lookup_insert_is_Some. destruct (decide (
          mkColorKey (wrap8 (ch2 p)) (wrap8 (ch1 p)) (wrap8 (ch0 p)) background
          = mkColorKey (wrap8 (ch2 q)) (wrap8 (ch1 q)) (wrap8 (ch0 q)) background));
          [by left | by right].
Qed.

(** A lookup for a cached code changes nothing but the hit counter. *)
Lemma lookup_pixel_cached (background : bool) (st : Player) (p : Vec3b) :
  code_cached background st p →
  caches (lookup_pixel background st p) = caches st
  ∧ misses (cache_stats (lookup_pixel background st p)) = misses (cache_stats st)
  ∧ cache_size (cache_stats (lookup_pixel background st p)) = cache_size (cache_stats st)
  ∧ current_color_mode (lookup_pixel background st p) = current_color_mode st.
Proof.
  unfold code_cached, lookup_pixel, getColorCodeCached.
  destruct (current_color_mode st) eqn:Em; [done | |]; intros [code Hc];
    rewrite Hc; cbn; by rewrite Em.
Qed.

Lemma lookup_pixels_caches (background : bool) (l : list Vec3b) (st : Player) :
  Forall (code_cached background (foldl (lookup_pixel background) st l)) l
  ∧ ∀ q, code_cached background st q →
         code_cached background (foldl (lookup_pixel background) st l) q.
Proof.
  revert st. induction l as [|p l IH]; intros st; cbn [foldl]; [done |].
  destruct (IH (lookup_pixel background st p)) as [Hall Hmono].
  destruct (lookup_pixel_caches background st p) as [Hp Hq].
  split; [apply Forall_cons_2; [by apply Hmono | exact Hall] |].
  intros q H. by apply Hmono, Hq.
Qed.

Lemma lookup_pixels_cached (background : bool) (l : list Vec3b) (st : Player) :
  Forall (code_cached background st) l →
  caches (foldl (lookup_pixel background) st l) = caches st
  ∧ misses (cache_stats (foldl (lookup_pixel background) st l)) = misses (cache_stats st)
  ∧ cache_size (cache_stats (foldl (lookup_pixel background) st l))
    = cache_size (cache_stats st).
Proof.
  revert st. induction l as [|p l IH]; intros st Hl; cbn [foldl]; [done |].
  apply Forall_cons in Hl as [Hp Hl].
  destruct (lookup_pixel_cached background st p Hp) as (Hc & Hm & Hs & Hmode).
  destruct (lookup_pixel_caches background st p) as [_ Hq].
  destruct (IH (lookup_pixel background st p)) as (Hc' & Hm' & Hs').
  { eapply Forall_impl; [exact Hl | intros q H; by apply Hq]. }
  split_and!; congruence.
Qed.

Lemma lookup_pixels_mode (background : bool) (l : list Vec3b) (st : Player) :
  current_color_mode (foldl (lookup_pixel background) st l) = current_color_mode st.
Proof.
  revert st. induction l as [|p l IH]; intros st; cbn [foldl]; [done |].
  rewrite IH. apply getColorCodeCached_mode.
Qed.

Lemma looked_up_app (prev : Vec3b) (l k : list Vec3b) :
  looked_up prev (l ++ k) = looked_up prev l ++ looked_up (default prev (last l)) k.
Proof.
  revert prev. induction l as [|p l IH]; intros prev; [done |].
  cbn [app looked_up].
  replace (default prev (last (p :: l))) with (default p (last l))
    by (rewrite last_cons; by destruct (last l)).
  case_decide as Hp.
  - by rewrite IH.
  - by rewrite IH, Hp.
Qed.

(** What one step of the inner loop does to the player and to the
    pixel tracker. *)
Lemma scan_pixel_player (background : bool) (cell : Vec3b → string) (s : Scan)
    (p : Vec3b) :
  sc_player (scan_pixel background cell s p)
  = foldl (lookup_pixel background) (sc_player s) (looked_up (lastPixel s) [p])
  ∧ lastPixel (scan_pixel background cell s p) = p.
Proof.
  unfold scan_pixel, lookup_pixel. cbn [looked_up].
  case_decide as Hp; cbn [foldl].
  - destruct (getColorCodeCached _ _ _ _ _) as [code st']. by case_decide.
  - done.
Qed.

Lemma scan_pixels_player (background : bool) (cell : Vec3b → string)
    (row : list Vec3b) (s : Scan) :
  sc_player (foldl (scan_pixel background cell) s row)
  = foldl (lookup_pixel background) (sc_player s) (looked_up (lastPixel s) row)
  ∧ lastPixel (foldl (scan_pixel background cell) s row) = default (lastPixel s) (last row).
Proof.
  revert s. induction row as [|p row IH]; intros s; [done |].
  cbn [foldl]. destruct (IH (scan_pixel background cell s p)) as [-> ->].
  destruct (scan_pixel_player background cell s p) as [-> ->].
  split.
  - change (p :: row) with ([p] ++ row). by rewrite looked_up_app, foldl_app.
  - rewrite last_cons. by destruct (last row).
Qed.

Lemma scan_rows_player (background : bool) (cell : Vec3b → string)
    (raster : list (list Vec3b)) (s : Scan) :
  sc_player (foldl (scan_row background cell) s raster)
  = foldl (lookup_pixel background) (sc_player s)
      (looked_up (lastPixel s) (concat raster))
  ∧ lastPixel (foldl (scan_row background cell) s raster)
    = default (lastPixel s) (last (concat raster)).
Proof.
  revert s. induction raster as [|row rows IH]; intros s; [done |].
  cbn [foldl concat]. destruct (IH (scan_row background cell s row)) as [-> ->].
  unfold scan_row. cbn [sc_player lastPixel].
  destruct (scan_pixels_player background cell row s) as [-> ->].
  rewrite looked_up_app, foldl_app. split; [done |].
  rewrite last_app. by destruct (last (concat rows)).
Qed.

(** The loops over a raster, run again on the player they left. *)
Lemma scan_rows_again (background : bool) (cell : Vec3b → string) (st : Player)
    (raster : list (list Vec3b)) :
  let st1 := sc_player (scan_rows background cell st raster) in
  let st2 := sc_player (scan_rows background cell st1 raster) in
  caches st2 = caches st1
  ∧ misses (cache_stats st2) = misses (cache_stats st1)
  ∧ cache_size (cache_stats st2) = cache_size (cache_stats st1).
Proof.
  unfold scan_rows. cbn zeta.
  destruct (scan_rows_player background cell raster (scan_init st)) as [-> _].
  destruct (scan_rows_player background cell raster
              (scan_init (foldl (lookup_pixel background) (sc_player (scan_init st))
                 (looked_up (lastPixel (scan_init st)) (concat raster))))) as [-> _].
  cbn [scan_init sc_player lastPixel].
  apply lookup_pixels_cached. apply lookup_pixels_caches.
Qed.

Lemma scan_rows_mode (background : bool) (cell : Vec3b → string) (st : Player)
    (raster : list (list Vec3b)) :
  current_color_mode (sc_player (scan_rows background cell st raster))
  = current_color_mode st.
Proof.
  unfold scan_rows.
  destruct (scan_rows_player background cell raster (scan_init st)) as [-> _].
  apply lookup_pixels_mode.
Qed.

(** X23.  Rendering a frame a second time, as the loop does on every
    iteration while it is paused, is served from the caches: in either
    style the second rendering of the same frame in the same box adds no
    miss and no cache entry, whatever the frame, the resampler and the
    state of the player before the first rendering. *)
Theorem X23_second_rendering_adds_no_miss (resize : Mat → Z → Z → Mat)
    (equalized_gray : Mat → list (list Z)) (term : TerminalSize) (frame : Mat)
    (w h : Z) (st : Player) :
  let a1 := snd (frameToAscii resize equalized_gray term frame w h st) in
  let a2 := snd (frameToAscii resize equalized_gray term frame w h a1) in
  let b1 := snd (frameToColorBlocks resize equalized_gray term frame w h st) in
  let b2 := snd (frameToColorBlocks resize equalized_gray term frame w h b1) in
  (caches a2 = caches a1 ∧ misses (cache_stats a2) = misses (cache_stats a1)
   ∧ cache_size (cache_stats a2) = cache_size (cache_stats a1))
  ∧ (caches b2 = caches b1 ∧ misses (cache_stats b2) = misses (cache_stats b1)
     ∧ cache_size (cache_stats b2) = cache_size (cache_stats b1)).
Proof.
  assert (Ha : ∀ st0,
    let a1 := snd (frameToAscii resize equalized_gray term frame w h st0) in
    let a2 := snd (frameToAscii resize equalized_gray term frame w h a1) in
    caches a2 = caches a1 ∧ misses (cache_stats a2) = misses (cache_stats a1)
    ∧ cache_size (cache_stats a2) = cache_size (cache_stats a1)).
  { intros st0. cbn zeta. unfold frameToAscii.
    destruct (mat_empty frame); [done |].
    destruct (target_box term w h) as [tw th].
    destruct (new_size _ _ tw th) as [nw nh].
    destruct (is_mono (current_color_mode st0)) eqn:Em; cbn [snd]; [by rewrite Em |].
    unfold render_color_glyphs. cbn [snd]. rewrite scan_rows_mode, Em. cbn [snd].
    apply scan_rows_again. }
  cbn zeta. split; [apply Ha |].
  unfold frameToColorBlocks.
  destruct (mat_empty frame || is_mono (current_color_mode st)) eqn:Em.
  - assert (Hmode : current_color_mode
              (snd (frameToAscii resize equalized_gray term frame w h st))
              = current_color_mode st).
    { unfold frameToAscii. destruct (mat_empty frame); [done |].
      destruct (target_box term w h) as [tw th].
      destruct (new_size _ _ tw th) as [nw nh].
      destruct (is_mono (current_color_mode st)); [done |].
      apply scan_rows_mode. }
    rewrite Hmode, Em. apply Ha.
  - destruct (target_box term w h) as [tw th].
    destruct (new_size _ _ tw th) as [nw nh].
    unfold render_color_blocks. cbn [snd]. rewrite scan_rows_mode, Em. cbn [snd].
    apply scan_rows_again.
Qed.

(* ===================================================================== *)
(** * Playing a source to its end *)
(* ===================================================================== *)

(** The text of a rendering depends on the player only through its mode,
    and the rendering keeps the caches consistent and the mode. *)
Lemma frameToAscii_text (resize : Mat → Z → Z → Mat)
    (equalized_gray : Mat → list (list Z)) (term : TerminalSize) (f : Mat)
    (w h : Z) (st st' : Player) :
  resize_ok resize → Forall (Forall pixel_ok) f →
  caches_ok st → caches_ok st' → current_color_mode st = current_color_mode st' →
  fst (frameToAscii resize equalized_gray term f w h st)
  = fst (frameToAscii resize equalized_gray term f w h st')
  ∧ caches_ok (snd (frameToAscii resize equalized_gray term f w h st))
  ∧ current_color_mode (snd (frameToAscii resize equalized_gray term f w h st))
    = current_color_mode st.
Proof.
  intros Hres Hf Hok Hok' Hm. unfold frameToAscii.
  destruct (mat_empty f); [done |].
  destruct (target_box term w h) as [tw th].
  destruct (new_size _ _ tw th) as [nw nh].
  rewrite <- Hm. destruct (is_mono (current_color_mode st)); [done |].
  pose proof (Hres f nw nh Hf) as Hr.
  destruct (scan_rows_ok false (fun pixel => glyph_at (brightness pixel)) st
              (resize f nw nh) Hok Hr) as [Hk Hmk].
  unfold render_color_glyphs. cbn [fst snd]. split_and!; [| done | done].
  unfold scan_rows.
  by destruct (scan_rows_agree false (fun pixel => glyph_at (brightness pixel))
                 (resize f nw nh) (scan_init st) (scan_init st')
                 ltac:(unfold scan_agree; simpl; done) Hr) as (-> & _).
Qed.

Lemma frameToColorBlocks_text (resize : Mat → Z → Z → Mat)
    (equalized_gray : Mat → list (list Z)) (term : TerminalSize) (f : Mat)
    (w h : Z) (st st' : Player) :
  resize_ok resize → Forall (Forall pixel_ok) f →
  caches_ok st → caches_ok st' → current_color_mode st = current_color_mode st' →
  fst (frameToColorBlocks resize equalized_gray term f w h st)
  = fst (frameToColorBlocks resize equalized_gray term f w h st')
  ∧ caches_ok (snd (frameToColorBlocks resize equalized_gray term f w h st))
  ∧ current_color_mode (snd (frameToColorBlocks resize equalized_gray term f w h st))
    = current_color_mode st.
Proof.
  intros Hres Hf Hok Hok' Hm. unfold frameToColorBlocks. rewrite <- Hm.
  destruct (mat_empty f || is_mono (current_color_mode st));
    [by apply frameToAscii_text |].
  destruct (target_box term w h) as [tw th].
  destruct (new_size _ _ tw th) as [nw nh].
  pose proof (Hres f nw nh Hf) as Hr.
  destruct (scan_rows_ok true (fun _ => " ") st (resize f nw nh) Hok Hr) as [Hk Hmk].
  unfold render_color_blocks. cbn [fst snd]. split_and!; [| done | done].
  unfold scan_rows.
  by destruct (scan_rows_agree true (fun _ => " ")
                 (resize f nw nh) (scan_init st) (scan_init st')
                 ltac:(unfold scan_agree; simpl; done) Hr) as (-> & _).
Qed.

(** A playing iteration without keys on a source that has a frame: it
    draws that frame as a player in the mode of [s0] draws it. *)
Lemma video_tick_playing (resize : Mat → Z → Z → Mat)
    (equalized_gray : Mat → list (list Z)) (term : TerminalSize)
    (f : Mat) (rest : list Mat) (elapsed : Z) (s0 s : VideoLoop) :
  resize_ok resize → Forall (Forall pixel_ok) f → mat_empty f = false →
  caches_ok (player s0) → caches_ok (player s) → paused s = false →
  current_color_mode (player s) = current_color_mode (player s0) →
  block_mode s = block_mode s0 →
  box_width s = box_width s0 → box_height s = box_height s0 →
  ∃ s' events,
    video_tick resize equalized_gray term [] (f :: rest) elapsed s = Continue s' rest events
    ∧ shown_frames events = [drawn_text resize equalized_gray term s0 f]
    ∧ frame_number s' = frame_number s + 1
    ∧ caches_ok (player s') ∧ paused s' = false
    ∧ current_color_mode (player s') = current_color_mode (player s0)
    ∧ block_mode s' = block_mode s0
    ∧ box_width s' = box_width s0 ∧ box_height s' = box_height s0.
Proof.
  intros Hres Hpx Hf Hok0 Hok Hp Hm Hb Hw Hh.
  unfold video_tick. cbn [video_keys]. rewrite Hp, Hf.
  unfold show, drawn_text.
  cbn [frame block_mode player box_width box_height paused frame_number total_frames].
  rewrite Hf, Hb, Hw, Hh, Hm.
  destruct (frameToAscii_text resize equalized_gray term f (box_width s0) (box_height s0)
              (player s) (player s0) Hres Hpx Hok Hok0 Hm) as (Ha & Hka & Hma).
  destruct (frameToColorBlocks_text resize equalized_gray term f (box_width s0)
              (box_height s0) (player s) (player s0) Hres Hpx Hok Hok0 Hm)
    as (Hc & Hkc & Hmc).
  destruct (block_mode s0 && negb (is_mono (current_color_mode (player s0)))).
  - rewrite <- Hc.
    destruct (frameToColorBlocks _ _ _ _ _ _ (player s)) as [ascii st'].
    cbn [fst snd] in *. eexists _, _. split; [reflexivity |].
    split; [unfold pacing; by destruct (B64.ltb _ _) |].
    cbn. split_and!; try done; congruence.
  - rewrite <- Ha.
    destruct (frameToAscii _ _ _ _ _ _ (player s)) as [ascii st'].
    cbn [fst snd] in *. eexists _, _. split; [reflexivity |].
    split; [unfold pacing; by destruct (B64.ltb _ _) |].
    cbn. split_and!; try done; congruence.
Qed.

(** X14.  Left alone (no key pressed, not paused) on a source of frames
    of byte pixels none of which is empty, each of a size for which
    [cv::resize] returns, the loop draws the frames of the source in
    order, one per iteration and in step with the frame counter: the
    texts written are the renderings of the source frames themselves, in
    the style, the box and the mode the loop started with, and the
    frames rendered before do not show in them.  When the source is used
    up the next iteration ends the loop, so every frame of the source
    has been drawn exactly once. *)
Theorem X14_plays_every_frame_once
    (resize : Mat → Z → Z → Mat) (equalized_gray : Mat → list (list Z))
    (inputs : list TickInput) (source : list Mat) (s : VideoLoop) :
  resize_ok resize → caches_ok (player s) → paused s = false →
  Forall (fun f => mat_empty f = false ∧ Forall (Forall pixel_ok) f) source →
  Forall (fun i => in_keys i = []) inputs →
  Forall (fun '(i, f) => frame_fits (in_term i) s f) (zip inputs source) →
  let '(r, events) := video_run resize equalized_gray inputs source s in
  shown_frames events
  = zip_with (fun i f => drawn_text resize equalized_gray (in_term i) s f) inputs source
  ∧ ((length inputs ≤ length source)%nat →
     ∃ s', r = Running s' (drop (length inputs) source)
           ∧ frame_number s' = frame_number s + Z.of_nat (length inputs)
           ∧ paused s' = false)
  ∧ ((length source < length inputs)%nat → r = Finished).
Proof.
  intros Hres Hok0 Hp0 Hsrc Hin _.
  assert (Hgen : ∀ s1, caches_ok (player s1) → paused s1 = false →
            current_color_mode (player s1) = current_color_mode (player s) →
            block_mode s1 = block_mode s →
            box_width s1 = box_width s → box_height s1 = box_height s →
            let '(r, events) := video_run resize equalized_gray inputs source s1 in
            shown_frames events
            = zip_with (fun i f => drawn_text resize equalized_gray (in_term i) s f)
                inputs source
            ∧ ((length inputs ≤ length source)%nat →
               ∃ s', r = Running s' (drop (length inputs) source)
                     ∧ frame_number s' = frame_number s1 + Z.of_nat (length inputs)
                     ∧ paused s' = false)
            ∧ ((length source < length inputs)%nat → r = Finished));
    [| by apply Hgen].
  clear Hp0. revert source Hsrc.
  induction Hin as [|i inputs Hi _ IH]; intros source Hsrc s1 Hok Hp Hm Hb Hw Hh;
    cbn [video_run].
  - split_and!; [done | | simpl; lia].
    intros _. exists s1. rewrite drop_0. split_and!; [done | simpl; lia | done].
  - rewrite Hi. destruct Hsrc as [|f rest [Hf Hpx] Hrest].
    + unfold video_tick. cbn [video_keys]. rewrite Hp.
      split_and!; [done | simpl; lia | done].
    + destruct (video_tick_playing resize equalized_gray (in_term i) f rest
                  (in_elapsed i) s s1 Hres Hpx Hf Hok0 Hok Hp Hm Hb Hw Hh)
        as (s2 & ev & -> & Hshown & Hn2 & Hok2 & Hp2 & Hm2 & Hb2 & Hw2 & Hh2).
      specialize (IH rest Hrest s2 Hok2 Hp2 Hm2 Hb2 Hw2 Hh2).
      destruct (video_run resize equalized_gray inputs rest s2) as [r ev'].
      destruct IH as (Htexts & Hrun & Hfin).
      unfold shown_frames in *. rewrite omap_app, Hshown, Htexts.
      split_and!.
      * reflexivity.
      * intros Hle. destruct Hrun as (s' & -> & Hn & Hp'); [simpl in Hle; lia |].
        exists s'. split_and!; [done | | done].
        rewrite Hn, Hn2. simpl length. lia.
      * intros Hlt. apply Hfin. simpl in Hlt. lia.
Qed.

Lemma X14_plays_every_frame_once_witness :
  let inputs := replicate 3 (mkTickInput (mkTerminalSize 80 24) [] 40) in
  let source := [[[red; white]]; [[white; red]]] in
  let '(r, events) := video_run nearest_resize plain_gray inputs source loop_playing in
  shown_frames events
  = zip_with (fun i f => drawn_text nearest_resize plain_gray (in_term i) loop_playing f)
      inputs source
  ∧ ((length inputs ≤ length source)%nat →
     ∃ s', r = Running s' (drop (length inputs) source)
           ∧ frame_number s' = frame_number loop_playing + Z.of_nat (length inputs)
           ∧ paused s' = false)
  ∧ ((length source < length inputs)%nat → r = Finished).
Proof.
  assert (Hred : pixel_ok red) by (unfold pixel_ok, is_byte; simpl; lia).
  assert (Hwhite : pixel_ok white) by (unfold pixel_ok, is_byte; simpl; lia).
  apply (X14_plays_every_frame_once nearest_resize plain_gray
           (replicate 3 (mkTickInput (mkTerminalSize 80 24) [] 40))
           [[[red; white]]; [[white; red]]] loop_playing).
  - exact nearest_resize_ok.
  - apply caches_ok_setColorMode, caches_ok_empty.
  - reflexivity.
  - repeat (apply Forall_cons_2;
            [split; [reflexivity
                    | repeat first [apply Forall_nil_2 | apply Forall_cons_2]; done] |]).
    apply Forall_nil_2.
  - repeat (apply Forall_cons_2; [reflexivity |]). apply Forall_nil_2.
  - repeat (apply Forall_cons_2; [vm_compute; split; discriminate |]). apply Forall_nil_2.
Defined.

(* ===================================================================== *)
(** * The target size within the aspect range of the box *)
(* ===================================================================== *)

(** ** Rounding in binary32 *)




(** ** Powers of two as rationals *)




(** ** The operations on mantissas and exponents *)






(** ** The operations on values *)











(** ** The sizing step *)







